(** * Aztec -> Safe guardian recovery: a shallow embedding and its properties

    The development follows the repository's layout:
    - [Evm]        : the pieces of EVM semantics the contracts rely on
                     (fixed-width words, reverting calls);
    - [Codec]      : PayloadExtractor.sol and the little-endian extractors of
                     SafeRecoveryModule.sol;
    - [Validator]  : AztecRecoveryValidator.sol and
                     AztecGuardianRecoveryValidator.sol;
    - [Reconciler] : SafeRecoveryModule.sol ([applyRecovery], [verify]);
    - [SafeAccount]: the destination account behind ISafe.sol;
    - [Scenario]   : concrete addresses, payloads and states;
    - [Dedup]      : the dedup gate of relayer.go;
    - [Submitter]  : the retrying submitter of relayer.go;
    - [MockSafe], [MockWormholeCore] : the test doubles under mocks/;
    - [Orchestra]  : Orchestra.sol;
    - [AztecRecoveryModule] : the ERC-7579 executor;
    - [Emitters], [Processor] : the emitter registry of relayer.go and the
                     path from a delivery to its dedup record.
    The second part states and proves the properties, component by
    component. *)

From stdpp Require Import gmap strings list fin_maps.
From Stdlib Require Import ZArith Lia.
From Stdlib.Strings Require Import Byte.

(** ** EVM words and reverting computations *)

Module Evm.
Local Open Scope Z_scope.

Definition mask (w : Z) : Z := Z.ones w.

(** Truncation of an integer to a [w]-bit unsigned word. *)
Definition wrap (w : Z) (x : Z) : Z := Z.land x (mask w).

Definition u8 (b : byte) : Z := Z.of_N (Byte.to_N b).

(** A call either returns a value or reverts with a reason. *)
Inductive result (E A : Type) : Type :=
| Ok (a : A)
| Revert (e : E).
Global Arguments Ok {E A} a.
Global Arguments Revert {E A} e.

Definition bind {E A B} (m : result E A) (k : A -> result E B) : result E B :=
  match m with
  | Ok a => k a
  | Revert e => Revert e
  end.

Definition is_ok {E A} (m : result E A) : bool :=
  match m with Ok _ => true | Revert _ => false end.

(** Solidity's [require(c, msg)]. *)
Definition require {E} (c : bool) (e : E) : result E unit :=
  if c then Ok tt else Revert e.

End Evm.

Export Evm.

Notation "'let*' x ':=' m 'in' k" := (Evm.bind m (fun x => k))
  (at level 10, x name, m at level 200, k at level 200).

(** ** Payload codec *)

Module Codec.
Local Open Scope Z_scope.

(** Reasons for which the codec reverts: a [require] message or an
    out-of-bounds array access (Solidity panic 0x32). *)
Inductive error : Type :=
| Require (msg : string)
| PanicIndex.

Abbreviation res := (result error).

(** [payload[i]] on [bytes memory]: checked indexing. *)
Definition byte_at (payload : list byte) (i : nat) : res Z :=
  match payload !! i with
  | Some b => Ok (u8 b)
  | None => Revert PanicIndex
  end.

(** Big-endian value of a byte string, as [mload] followed by a conversion to
    [bytesN] reads it. *)
Definition be_value (l : list byte) : Z :=
  fold_left (fun acc b => acc * 256 + u8 b) l 0.

(** Little-endian value of a byte string. *)
Fixpoint le_value (l : list byte) : Z :=
  match l with
  | [] => 0
  | b :: l' => u8 b + 256 * le_value l'
  end.

(** [payload[offset .. offset+n)]. *)
Definition slice (payload : list byte) (offset n : nat) : list byte :=
  take n (drop offset payload).

(** *** PayloadExtractor.sol *)

Record ParsedPayload : Type := {
  txId : Z;
  addressField5 : Z;
  chainId : Z;
  amount : Z;
  addressField7 : Z
}.

(** One iteration of the loop of [reverseBytes20]:
    [b = uint8(bytes1(input << (i * 8)))], [reversed |= uint160(b) << (8 * i)].
    A [bytes20] is represented by its 160-bit big-endian value. *)
Definition reverseBytes20_step (input : Z) (reversed : Z) (i : nat) : Z :=
  let b := Z.shiftr (wrap 160 (Z.shiftl input (Z.of_nat i * 8))) 152 in
  Z.lor reversed (wrap 160 (Z.shiftl b (8 * Z.of_nat i))).

(** What one iteration of [reverseBytes20] contributes: byte [i] of the
    input (from the left), moved to byte [i] from the right. *)
Definition rb_term (input : Z) (i : nat) : Z :=
  wrap 160 (Z.shiftl (Z.shiftr (wrap 160 (Z.shiftl input (Z.of_nat i * 8))) 152)
              (8 * Z.of_nat i)).

Definition reverseBytes20 (input : Z) : Z :=
  fold_left (reverseBytes20_step input) (seq 0 20) 0.

(** EVM opcodes on 256-bit stack words, as used by the inline assembly. *)
Definition shl (s x : Z) : Z := wrap 256 (Z.shiftl x s).
Definition shr (s x : Z) : Z := Z.shiftr x s.
Definition and (a b : Z) : Z := Z.land a b.
Definition or (a b : Z) : Z := Z.lor a b.

(** The stack word holding a [bytes20]: the value is left-aligned, the low
    96 bits are zero (the same convention lets [mload] fill a [bytes20] and
    [calldataload] fill a [bytes4] in this code base). *)
Definition bytes20_word (input : Z) : Z := Z.shiftl input 96.

Definition reverseBytes20Assembly (input : Z) : Z :=
  let temp := bytes20_word input in
  or
    (or (or (or (or (or (or (or (or (or
       (shl 152 (and temp 255))
       (shl 144 (and (shr 8 temp) 255)))
       (shl 136 (and (shr 16 temp) 255)))
       (shl 128 (and (shr 24 temp) 255)))
       (shl 120 (and (shr 32 temp) 255)))
       (shl 112 (and (shr 40 temp) 255)))
       (shl 104 (and (shr 48 temp) 255)))
       (shl 96 (and (shr 56 temp) 255)))
       (shl 88 (and (shr 64 temp) 255)))
       (shl 80 (and (shr 72 temp) 255)))
    (or (or (or (or (or (or (or (or (or
       (shl 72 (and (shr 80 temp) 255))
       (shl 64 (and (shr 88 temp) 255)))
       (shl 56 (and (shr 96 temp) 255)))
       (shl 48 (and (shr 104 temp) 255)))
       (shl 40 (and (shr 112 temp) 255)))
       (shl 32 (and (shr 120 temp) 255)))
       (shl 24 (and (shr 128 temp) 255)))
       (shl 16 (and (shr 136 temp) 255)))
       (shl 8 (and (shr 144 temp) 255)))
       (and (shr 152 temp) 255)).

(** [extractAndReverseAddress]: copies 20 bytes (checked indexing), reads
    them back as a [bytes20] and reverses them. *)
Fixpoint copy_bytes (payload : list byte) (offset i n : nat) : res (list Z) :=
  match n with
  | O => Ok []
  | S n' =>
      let* b := byte_at payload (offset + i) in
      let* rest := copy_bytes payload offset (S i) n' in
      Ok (b :: rest)
  end.

Definition be_valueZ (l : list Z) : Z :=
  fold_left (fun acc b => acc * 256 + b) l 0.

Definition extractAndReverseAddress (payload : list byte) (offset : nat) : res Z :=
  let* _ := require (offset + 20 <=? length payload)%nat
          (Require "Insufficient bytes for address") in
  let* reversedBytes := copy_bytes payload offset 0 20 in
  let reversedAddr := be_valueZ reversedBytes in
  Ok (reverseBytes20 reversedAddr).

Definition extractAndReverseUint16 (payload : list byte) (offset : nat) : res Z :=
  let* _ := require (offset + 2 <=? length payload)%nat
          (Require "Insufficient bytes for uint16") in
  let* byte0 := byte_at payload offset in
  let* byte1 := byte_at payload (offset + 1) in
  Ok (Z.lor (wrap 16 (Z.shiftl byte1 8)) byte0).

Definition parsePayload (payload : list byte) : res ParsedPayload :=
  let* _ := require (75 <=? length payload)%nat (Require "Payload too short") in
  let txId := be_value (take 32 payload) in
  let* a5 := extractAndReverseAddress payload 32 in
  let* cid := extractAndReverseUint16 payload 52 in
  let* amt := byte_at payload 54 in
  let* a7 := extractAndReverseAddress payload 55 in
  Ok {| txId := txId; addressField5 := a5; chainId := cid;
        amount := amt; addressField7 := a7 |}.

Definition extractTestAddress (payload : list byte) : res Z :=
  let* _ := require (75 <=? length payload)%nat (Require "Payload too short") in
  extractAndReverseAddress payload 55.

Definition extractRecipientAddress (payload : list byte) : res Z :=
  let* _ := require (52 <=? length payload)%nat (Require "Payload too short") in
  extractAndReverseAddress payload 32.

(** *** The little-endian extractors of SafeRecoveryModule.sol *)

(** [_extractAddressLE]: [addr |= uint160(uint8(data[offset + i])) << uint160(8 * i)]
    for [i] from 0 to 19, with checked indexing. *)
Fixpoint extractAddressLE_loop (data : list byte) (offset i n : nat) (addr : Z)
  : res Z :=
  match n with
  | O => Ok addr
  | S n' =>
      let* b := byte_at data (offset + i) in
      extractAddressLE_loop data offset (S i) n'
        (Z.lor addr (wrap 160 (Z.shiftl b (8 * Z.of_nat i))))
  end.

Definition _extractAddressLE (data : list byte) (offset : nat) : res Z :=
  extractAddressLE_loop data offset 0 20 0.

(** [_extractChainIdLE] and [_extractUint256LE]: the loop runs while
    [i < bound && offset + i < data.length]; [fuel] bounds the iterations. *)
Fixpoint extractLE_bounded (bound : nat) (data : list byte) (offset i fuel : nat)
  (value : Z) : res Z :=
  match fuel with
  | O => Ok value
  | S fuel' =>
      if (i <? bound)%nat && (offset + i <? length data)%nat then
        let* b := byte_at data (offset + i) in
        extractLE_bounded bound data offset (S i) fuel'
          (Z.lor value (wrap 256 (Z.shiftl b (8 * Z.of_nat i))))
      else Ok value
  end.

Definition _extractChainIdLE (data : list byte) (offset : nat) : res Z :=
  extractLE_bounded 3 data offset 0 4 0.

Definition _extractUint256LE (data : list byte) (offset : nat) : res Z :=
  extractLE_bounded 31 data offset 0 32 0.

(** The fields [verify] decodes from an attested payload (step 3 and 4 of
    [SafeRecoveryModule.verify]). *)
Record CompactFields : Type := {
  cf_safe : Z;
  cf_candidate : Z;
  cf_chainId : Z
}.

Definition verify_decode (payload : list byte) : res CompactFields :=
  let* _ := require (116 <=? length payload)%nat (Require "payload too short") in
  let* safeAddress := _extractAddressLE payload 55 in
  let* candidate := _extractAddressLE payload 96 in
  let* chainId := _extractChainIdLE payload 52 in
  Ok {| cf_safe := safeAddress; cf_candidate := candidate; cf_chainId := chainId |}.

End Codec.

(** ** Replay / authorization guard: AztecRecoveryValidator.sol *)

Module Validator.
Local Open Scope Z_scope.

Inductive error : Type :=
| NotOwner
| NotAuthorizedModule
| ValidatorPaused
| InvalidVAA
| BadVersion
| WrongChain
| Expired
| NonceAlreadyConsumed
| BadSelector
| SafeMismatch
| ThresholdMismatch
| NonceMismatch
| OwnersMismatch
| AbiDecodeFailed.

Definition MAGICVALUE : Z := 0x1626ba7e.

(** The tuple [abi.decode] reads from a verified payload:
    [(uint8 version, uint256 chainId, address safe, address[] owners,
      uint256 threshold, bytes32 nonce, uint64 expiry)]. *)
Record Intent : Type := {
  version : Z;
  chainId : Z;
  safe : Z;
  owners : list Z;
  threshold : Z;
  nonce : Z;
  expiry : Z
}.

(** The arguments [abi.decode] reads from [callData[4:]]:
    [(address, address[], uint256, bytes32, bytes)]. *)
Record CallArgs : Type := {
  callSafe : Z;
  callOwners : list Z;
  callThreshold : Z;
  callNonce : Z;
  callVaa : list byte
}.

(** Call data: the 4-byte selector and the ABI-encoded arguments; [None]
    stands for bytes that [abi.decode] rejects. *)
Record CallData : Type := {
  selector : Z;
  args : option CallArgs
}.

(** What the contract takes from outside: the Wormhole core contract, the
    ABI decoder of payloads and the keccak-derived selector of
    [applyRecovery(address,address[],uint256,bytes32,bytes)]. *)
Record External : Type := {
  parseAndVerifyVM : list byte -> list byte * bool;
  abi_decode_payload : list byte -> option Intent;
  applyRecovery_selector : Z
}.

(** [block.chainid], [block.timestamp] and [msg.sender]. *)
Record Env : Type := {
  chainid : Z;
  timestamp : Z;
  sender : Z
}.

Record State : Type := {
  owner : Z;
  paused : bool;
  authorizedModules : gmap Z bool;
  consumed : gmap Z bool
}.

(** Reading a Solidity [mapping(_ => bool)]: absent keys read [false]. *)
Definition mapping_get (m : gmap Z bool) (k : Z) : bool := default false (m !! k).

Definition eqb_list (a b : list Z) : bool :=
  bool_decide (a = b).

(** [_validateCallData]: the owners are compared by length, then element by
    element. *)
Fixpoint owners_loop (expectedOwners callOwners : list Z) (i n : nat)
  : result error unit :=
  match n with
  | O => Ok tt
  | S n' =>
      match expectedOwners !! i, callOwners !! i with
      | Some e, Some c =>
          if negb (e =? c) then Revert OwnersMismatch
          else owners_loop expectedOwners callOwners (S i) n'
      | _, _ => Revert OwnersMismatch
      end
  end.

Definition _validateCallData (encodedData : option CallArgs)
  (expectedSafe : Z) (expectedOwners : list Z) (expectedThreshold expectedNonce : Z)
  : result error unit :=
  match encodedData with
  | None => Revert AbiDecodeFailed
  | Some c =>
      if negb (callSafe c =? expectedSafe) then Revert SafeMismatch else
      if negb (callThreshold c =? expectedThreshold) then Revert ThresholdMismatch else
      if negb (callNonce c =? expectedNonce) then Revert NonceMismatch else
      if negb (length expectedOwners =? length (callOwners c))%nat
      then Revert OwnersMismatch else
      owners_loop expectedOwners (callOwners c) 0 (length expectedOwners)
  end.

(** [validate] is a [view] function: it reads the state and returns the
    magic value or reverts. *)
Definition validate (ext : External) (env : Env) (st : State)
  (callData : CallData) (vaa : list byte) : result error Z :=
  if paused st then Revert ValidatorPaused else
  if negb (mapping_get (authorizedModules st) (sender env))
  then Revert NotAuthorizedModule else
  let '(payload, ok) := parseAndVerifyVM ext vaa in
  if negb ok then Revert InvalidVAA else
  match abi_decode_payload ext payload with
  | None => Revert AbiDecodeFailed
  | Some p =>
      if negb (version p =? 1) then Revert BadVersion else
      if negb (chainId p =? chainid env) then Revert WrongChain else
      if timestamp env >? expiry p then Revert Expired else
      if mapping_get (consumed st) (nonce p) then Revert NonceAlreadyConsumed else
      if negb (selector callData =? applyRecovery_selector ext)
      then Revert BadSelector else
      let* _ := _validateCallData (args callData) (safe p) (owners p)
                  (threshold p) (nonce p) in
      Ok MAGICVALUE
  end.

Definition markConsumed (env : Env) (st : State) (n : Z) : result error State :=
  if negb (mapping_get (authorizedModules st) (sender env))
  then Revert NotAuthorizedModule else
  Ok {| owner := owner st; paused := paused st;
        authorizedModules := authorizedModules st;
        consumed := <[n := true]> (consumed st) |}.

Definition setOwner (env : Env) (st : State) (_owner : Z) : result error State :=
  if negb (sender env =? owner st) then Revert NotOwner else
  Ok {| owner := _owner; paused := paused st;
        authorizedModules := authorizedModules st; consumed := consumed st |}.

Definition setPaused (env : Env) (st : State) (v : bool) : result error State :=
  if negb (sender env =? owner st) then Revert NotOwner else
  Ok {| owner := owner st; paused := v;
        authorizedModules := authorizedModules st; consumed := consumed st |}.

Definition setModuleAuthorized (env : Env) (st : State) (module : Z) (authorized : bool)
  : result error State :=
  if negb (sender env =? owner st) then Revert NotOwner else
  Ok {| owner := owner st; paused := paused st;
        authorizedModules := <[module := authorized]> (authorizedModules st);
        consumed := consumed st |}.

(** [onInstall]: with at least 20 bytes of data, the first 20 bytes name a
    module that becomes authorized. *)
Definition onInstall (st : State) (data : list byte) : result error State :=
  if (20 <=? length data)%nat then
    let module := Codec.be_value (take 20 data) in
    Ok {| owner := owner st; paused := paused st;
          authorizedModules := <[module := true]> (authorizedModules st);
          consumed := consumed st |}
  else Ok st.

Definition onUninstall (st : State) (data : list byte) : result error State := Ok st.

(** Every external entry point of the contract. *)
Inductive op : Type :=
| OpSetOwner (_owner : Z)
| OpSetPaused (v : bool)
| OpSetModuleAuthorized (module : Z) (authorized : bool)
| OpOnInstall (data : list byte)
| OpOnUninstall (data : list byte)
| OpValidate (callData : CallData) (vaa : list byte)
| OpMarkConsumed (n : Z).

(** One transaction against the validator: a reverted call leaves the state
    as it was. *)
Definition exec (ext : External) (st : State) (c : Env * op) : State :=
  let '(env, o) := c in
  let r :=
    match o with
    | OpSetOwner a => setOwner env st a
    | OpSetPaused v => setPaused env st v
    | OpSetModuleAuthorized m a => setModuleAuthorized env st m a
    | OpOnInstall d => onInstall st d
    | OpOnUninstall d => onUninstall st d
    | OpValidate cd vaa => let* _ := validate ext env st cd vaa in Ok st
    | OpMarkConsumed n => markConsumed env st n
    end in
  match r with
  | Ok st' => st'
  | Revert _ => st
  end.

Definition run (ext : External) (st : State) (calls : list (Env * op)) : State :=
  fold_left (exec ext) calls st.

(** The order of the guards as the specification lists them: version, chain,
    expiry, nonce, calling module, call arguments. Used only to compare with
    [validate]. *)
Definition validate_spec_order (ext : External) (env : Env) (st : State)
  (callData : CallData) (vaa : list byte) : result error Z :=
  let '(payload, ok) := parseAndVerifyVM ext vaa in
  match abi_decode_payload ext payload with
  | None => Revert AbiDecodeFailed
  | Some p =>
      if negb (version p =? 1) then Revert BadVersion else
      if negb (chainId p =? chainid env) then Revert WrongChain else
      if timestamp env >? expiry p then Revert Expired else
      if mapping_get (consumed st) (nonce p) then Revert NonceAlreadyConsumed else
      if negb (mapping_get (authorizedModules st) (sender env))
      then Revert NotAuthorizedModule else
      let* _ := _validateCallData (args callData) (safe p) (owners p)
                  (threshold p) (nonce p) in
      Ok MAGICVALUE
  end.

(** The guards of [validate] in the order of the source, each with the error
    it raises; a payload or call data that does not decode ends the list with
    a failing guard. *)
Definition guards (ext : External) (env : Env) (st : State)
  (callData : CallData) (vaa : list byte) : list (bool * error) :=
  let '(payload, ok) := parseAndVerifyVM ext vaa in
  [ (negb (paused st), ValidatorPaused);
    (mapping_get (authorizedModules st) (sender env), NotAuthorizedModule);
    (ok, InvalidVAA) ] ++
  match abi_decode_payload ext payload with
  | None => [ (false, AbiDecodeFailed) ]
  | Some p =>
      [ (version p =? 1, BadVersion);
        (chainId p =? chainid env, WrongChain);
        (timestamp env <=? expiry p, Expired);
        (negb (mapping_get (consumed st) (nonce p)), NonceAlreadyConsumed);
        (selector callData =? applyRecovery_selector ext, BadSelector) ] ++
      match args callData with
      | None => [ (false, AbiDecodeFailed) ]
      | Some c =>
          [ (callSafe c =? safe p, SafeMismatch);
            (callThreshold c =? threshold p, ThresholdMismatch);
            (callNonce c =? nonce p, NonceMismatch);
            (eqb_list (owners p) (callOwners c), OwnersMismatch) ]
      end
  end.

(** The error of the first guard that fails, if any. *)
Fixpoint first_failure {E} (gs : list (bool * E)) : option E :=
  match gs with
  | [] => None
  | (true, _) :: gs' => first_failure gs'
  | (false, e) :: _ => Some e
  end.

(** What a list of guards decides: the error of the first failing guard, or
    the magic value when all pass. *)
Definition outcome_of_guards {E} (gs : list (bool * E)) : result E Z :=
  match first_failure gs with
  | Some e => Revert e
  | None => Ok MAGICVALUE
  end.

End Validator.

(** ** AztecGuardianRecoveryValidator.sol: the single-adapter validator *)

Module GuardianValidator.
Local Open Scope Z_scope.
Import Validator (Intent, CallArgs, CallData, External, Env).

(** This contract reverts with [require] messages. *)
Abbreviation error := string.

Record State : Type := {
  adapter : Z;
  owner : Z;
  paused : bool;
  consumed : gmap Z bool
}.

Fixpoint _requireSameArray_loop (a b : list Z) (i n : nat) : result error unit :=
  match n with
  | O => Ok tt
  | S n' =>
      match a !! i, b !! i with
      | Some x, Some y =>
          let* _ := require (x =? y) "owners diff" in
          _requireSameArray_loop a b (S i) n'
      | _, _ => Revert "owners diff"
      end
  end.

Definition _requireSameArray (a b : list Z) : result error unit :=
  let* _ := require (length a =? length b)%nat "owners length" in
  _requireSameArray_loop a b 0 (length a).

Definition _validateCallData (encodedData : option CallArgs)
  (expectedSafe : Z) (expectedOwners : list Z) (expectedThr expectedNonce : Z)
  : result error unit :=
  match encodedData with
  | None => Revert "abi decode"
  | Some c =>
      let* _ := require (Validator.callSafe c =? expectedSafe) "safe mismatch" in
      let* _ := require (Validator.callThreshold c =? expectedThr) "thr mismatch" in
      let* _ := require (Validator.callNonce c =? expectedNonce) "nonce mismatch" in
      _requireSameArray expectedOwners (Validator.callOwners c)
  end.

Definition validate (ext : External) (env : Env) (st : State)
  (callData : CallData) (vaa : list byte) : result error Z :=
  let* _ := require (negb (paused st)) "paused" in
  let* _ := require (negb (adapter st =? 0)) "adapter unset" in
  let* _ := require (Validator.sender env =? adapter st) "only adapter" in
  let '(payload, ok) := Validator.parseAndVerifyVM ext vaa in
  let* _ := require ok "invalid VAA" in
  match Validator.abi_decode_payload ext payload with
  | None => Revert "abi decode"
  | Some p =>
      let* _ := require (Validator.version p =? 1) "bad version" in
      let* _ := require (Validator.chainId p =? Validator.chainid env) "wrong chain" in
      let* _ := require (Validator.timestamp env <=? Validator.expiry p) "expired" in
      let* _ := require (negb (Validator.mapping_get (consumed st) (Validator.nonce p)))
                  "replay" in
      let* _ := require (Validator.selector callData
                          =? Validator.applyRecovery_selector ext) "bad selector" in
      let* _ := _validateCallData (Validator.args callData) (Validator.safe p)
                  (Validator.owners p) (Validator.threshold p) (Validator.nonce p) in
      Ok Validator.MAGICVALUE
  end.

Definition markConsumed (env : Env) (st : State) (n : Z) : result error State :=
  let* _ := require (Validator.sender env =? adapter st) "only adapter" in
  Ok {| adapter := adapter st; owner := owner st; paused := paused st;
        consumed := <[n := true]> (consumed st) |}.

(** The guards of [validate] in source order. *)
Definition guards (ext : External) (env : Env) (st : State)
  (callData : CallData) (vaa : list byte) : list (bool * error) :=
  let '(payload, ok) := Validator.parseAndVerifyVM ext vaa in
  [ (negb (paused st), "paused");
    (negb (adapter st =? 0), "adapter unset");
    (Validator.sender env =? adapter st, "only adapter");
    (ok, "invalid VAA") ] ++
  match Validator.abi_decode_payload ext payload with
  | None => [ (false, "abi decode") ]
  | Some p =>
      [ (Validator.version p =? 1, "bad version");
        (Validator.chainId p =? Validator.chainid env, "wrong chain");
        (Validator.timestamp env <=? Validator.expiry p, "expired");
        (negb (Validator.mapping_get (consumed st) (Validator.nonce p)), "replay");
        (Validator.selector callData =? Validator.applyRecovery_selector ext,
         "bad selector") ] ++
      match Validator.args callData with
      | None => [ (false, "abi decode") ]
      | Some c =>
          [ (Validator.callSafe c =? Validator.safe p, "safe mismatch");
            (Validator.callThreshold c =? Validator.threshold p, "thr mismatch");
            (Validator.callNonce c =? Validator.nonce p, "nonce mismatch");
            ((length (Validator.owners p) =? length (Validator.callOwners c))%nat,
             "owners length");
            (Validator.eqb_list (Validator.owners p) (Validator.callOwners c),
             "owners diff") ]
      end
  end.

(** The administrative entry points and the install hook. *)
Definition setAdapter (env : Env) (st : State) (_adapter : Z) : result error State :=
  let* _ := require (Validator.sender env =? owner st) "not owner" in
  Ok {| adapter := _adapter; owner := owner st; paused := paused st;
        consumed := consumed st |}.

Definition setPaused (env : Env) (st : State) (v : bool) : result error State :=
  let* _ := require (Validator.sender env =? owner st) "not owner" in
  Ok {| adapter := adapter st; owner := owner st; paused := v;
        consumed := consumed st |}.

(** [onInstall] takes the adapter from the data only while none is set and
    the data is exactly 20 bytes long. *)
Definition onInstall (st : State) (data : list byte) : result error State :=
  if (adapter st =? 0) && (length data =? 20)%nat then
    Ok {| adapter := Codec.be_value data; owner := owner st; paused := paused st;
          consumed := consumed st |}
  else Ok st.

Definition onUninstall (st : State) (data : list byte) : result error State := Ok st.

Inductive op : Type :=
| OpSetAdapter (_adapter : Z)
| OpSetPaused (v : bool)
| OpOnInstall (data : list byte)
| OpOnUninstall (data : list byte)
| OpValidate (callData : CallData) (vaa : list byte)
| OpMarkConsumed (n : Z).

(** One transaction against the contract; a reverted call changes nothing. *)
Definition exec (ext : External) (st : State) (c : Env * op) : State :=
  let '(env, o) := c in
  let r :=
    match o with
    | OpSetAdapter a => setAdapter env st a
    | OpSetPaused v => setPaused env st v
    | OpOnInstall d => onInstall st d
    | OpOnUninstall d => onUninstall st d
    | OpValidate cd vaa => let* _ := validate ext env st cd vaa in Ok st
    | OpMarkConsumed n => markConsumed env st n
    end in
  match r with
  | Ok st' => st'
  | Revert _ => st
  end.

Definition run (ext : External) (st : State) (calls : list (Env * op)) : State :=
  fold_left (exec ext) calls st.

End GuardianValidator.

(** ** Owner-set reconciler: SafeRecoveryModule.sol *)

Module Reconciler.
Local Open Scope Z_scope.

Inductive error : Type :=
| ModulePaused
| ValidationFailed
| SafeCallFailed
| ConsumeNonceFailed
| VaaAlreadyConsumed
| InvalidVaa
| WrongChain
| ValidatorReverted (e : Validator.error)
| SafeReverted
| PayloadReverted (e : Codec.error).

(** The three calls the module encodes for the Safe (ISafe.sol). *)
Inductive SafeCall : Type :=
| AddOwnerWithThreshold (owner _threshold : Z)
| RemoveOwner (prevOwner owner _threshold : Z)
| ChangeThreshold (_threshold : Z).

(** What [execTransactionFromModuleReturnData(safe, 0, data, 0)] can do: run
    the inner call ([success = true]), report that the inner call reverted
    ([success = false], the inner call's effects undone), or revert itself. *)
Inductive ExecOutcome (T : Type) : Type :=
| ExecSuccess (s' : T)
| ExecFailure
| ExecReverted.
Global Arguments ExecSuccess {T} s'.
Global Arguments ExecFailure {T}.
Global Arguments ExecReverted {T}.

(** The interface ISafe.sol; the first argument of the execution gate is
    [msg.sender]. *)
Class ISafe (T : Type) : Type := {
  getOwners : T -> list Z;
  getThreshold : T -> Z;
  execTransactionFromModuleReturnData : Z -> T -> SafeCall -> ExecOutcome T
}.

(** The storage a call to the module can touch: the Safe it targets, the
    validator, and the module's own pause flag and consumed VAA hashes. *)
Record World (T : Type) : Type := {
  safe_state : T;
  validator_state : Validator.State;
  module_paused : bool;
  consumedVaas : gmap Z bool
}.
Global Arguments safe_state {T} w.
Global Arguments validator_state {T} w.
Global Arguments module_paused {T} w.
Global Arguments consumedVaas {T} w.

(** The fixed surroundings of a call: external contracts (those of the
    validator, and the Wormhole core the module itself queries in [verify]),
    [keccak256], the block and the module's own address ([address(this)]). *)
Record Ctx : Type := {
  ext : Validator.External;
  wormhole_parseAndVerifyVM : list byte -> list byte * bool;
  keccak256 : list byte -> Z;
  block_chainid : Z;
  block_timestamp : Z;
  self : Z
}.

(** The environment the validator sees when the module calls it. *)
Definition validator_env (ctx : Ctx) : Validator.Env :=
  {| Validator.chainid := block_chainid ctx;
     Validator.timestamp := block_timestamp ctx;
     Validator.sender := self ctx |}.

(** State-changing sub-calls issued by [applyRecovery], logged with the world
    they ran against and their success flag. *)
Inductive SubCall : Type :=
| ToSafe (c : SafeCall)
| ToValidatorMarkConsumed (n : Z).

Record Entry (T : Type) : Type := {
  e_call : SubCall;
  e_before : World T;
  e_success : bool
}.
Global Arguments e_call {T} e.
Global Arguments e_before {T} e.
Global Arguments e_success {T} e.

Inductive Outcome (T A : Type) : Type :=
| Done (a : A) (w : World T)
| Reverted (e : error).
Global Arguments Done {T A} a w.
Global Arguments Reverted {T A} e.

(** Computations of the module: state passing, a revert reason, and the log
    of sub-calls made so far (kept also when the computation reverts). *)
Definition M (T A : Type) : Type := World T -> list (Entry T) * Outcome T A.

Definition ret {T A} (a : A) : M T A := fun w => ([], Done a w).

Definition bindM {T A B} (m : M T A) (k : A -> M T B) : M T B :=
  fun w =>
    match m w with
    | (l1, Done a w') =>
        match k a w' with
        | (l2, o) => (l1 ++ l2, o)
        end
    | (l1, Reverted e) => (l1, Reverted e)
    end.

Definition revert {T A} (e : error) : M T A := fun _ => ([], Reverted e).

Definition read {T A} (f : World T -> A) : M T A := fun w => ([], Done (f w) w).

Notation "'do*' x ':=' m 'in' k" := (bindM m (fun x => k))
  (at level 10, x name, m at level 200, k at level 200).

Definition SENTINEL : Z := 1.

Section Module.
Context {T : Type} `{ISafe T}.
Variable ctx : Ctx.

(** [_moduleCall]: the call goes through the Safe's execution gate and a
    false [success] flag reverts with [SafeCallFailed]. *)
Definition _moduleCall (data : SafeCall) : M T unit :=
  fun w =>
    match execTransactionFromModuleReturnData (self ctx) (safe_state w) data with
    | ExecSuccess s' =>
        ([ {| e_call := ToSafe data; e_before := w; e_success := true |} ],
         Done tt {| safe_state := s'; validator_state := validator_state w;
                    module_paused := module_paused w;
                    consumedVaas := consumedVaas w |})
    | ExecFailure =>
        ([ {| e_call := ToSafe data; e_before := w; e_success := false |} ],
         Reverted SafeCallFailed)
    | ExecReverted =>
        ([ {| e_call := ToSafe data; e_before := w; e_success := false |} ],
         Reverted SafeReverted)
    end.

(** The inner loop of step 3: the first index [j] with [current[j] == o]. *)
Fixpoint find_owner (current : list Z) (o : Z) (j : nat) : option nat :=
  match current with
  | [] => None
  | c :: rest => if c =? o then Some j else find_owner rest o (S j)
  end.

(** Step 3: mark the current owners to keep and add the missing ones. *)
Fixpoint add_missing (current newOwners : list Z) (keep : list bool)
  : M T (list bool) :=
  match newOwners with
  | [] => ret keep
  | o :: rest =>
      match find_owner current o 0 with
      | Some j => add_missing current rest (<[j := true]> keep)
      | None =>
          do* thr := read (fun w => getThreshold (safe_state w)) in
          do* _ := _moduleCall (AddOwnerWithThreshold o thr) in
          add_missing current rest keep
      end
  end.

(** Step 4: remove the owners not kept; the predecessor handed to the Safe
    is [current[j - 1]] (or the sentinel for [j == 0]), read from the
    snapshot [current] taken in step 2. *)
Fixpoint remove_unkept (current : list Z) (keep : list bool) (j n : nat)
  : M T unit :=
  match n with
  | O => ret tt
  | S n' =>
      do* _ :=
        (if negb (default false (keep !! j)) then
           let prev := if (j =? 0)%nat then SENTINEL
                       else default 0 (current !! (j - 1)%nat) in
           do* thr := read (fun w => getThreshold (safe_state w)) in
           _moduleCall (RemoveOwner prev (default 0 (current !! j)) thr)
         else ret tt) in
      remove_unkept current keep (S j) n'
  end.

(** Step 6: the low-level call to [markConsumed(bytes32)]; a reverted call
    gives [ok = false]. *)
Definition consumeNonce (n : Z) : M T unit :=
  fun w =>
    match Validator.markConsumed (validator_env ctx) (validator_state w) n with
    | Ok vs' =>
        ([ {| e_call := ToValidatorMarkConsumed n; e_before := w;
              e_success := true |} ],
         Done tt {| safe_state := safe_state w; validator_state := vs';
                    module_paused := module_paused w;
                    consumedVaas := consumedVaas w |})
    | Revert _ =>
        ([ {| e_call := ToValidatorMarkConsumed n; e_before := w;
              e_success := false |} ],
         Reverted ConsumeNonceFailed)
    end.

(** Step 1: the module asks the validator about this very call. *)
Definition askValidator (targetSafe : Z) (newOwners : list Z)
  (newThreshold nonce : Z) (vaa : list byte) : M T unit :=
  fun w =>
    let callData :=
      {| Validator.selector := Validator.applyRecovery_selector (ext ctx);
         Validator.args :=
           Some {| Validator.callSafe := targetSafe;
                   Validator.callOwners := newOwners;
                   Validator.callThreshold := newThreshold;
                   Validator.callNonce := nonce;
                   Validator.callVaa := vaa |} |} in
    match Validator.validate (ext ctx) (validator_env ctx) (validator_state w)
            callData vaa with
    | Revert e => ([], Reverted (ValidatorReverted e))
    | Ok v =>
        if negb (v =? Validator.MAGICVALUE) then ([], Reverted ValidationFailed)
        else ([], Done tt w)
    end.

(** Steps 2 to 5: read the owners once, add, remove, set the threshold. *)
Definition reconcile (newOwners : list Z) (newThreshold : Z) : M T unit :=
  do* current := read (fun w => getOwners (safe_state w)) in
  do* keep := add_missing current newOwners (replicate (length current) false) in
  do* _ := remove_unkept current keep 0 (length current) in
  _moduleCall (ChangeThreshold newThreshold).

Definition applyRecovery (targetSafe : Z) (newOwners : list Z)
  (newThreshold nonce : Z) (vaa : list byte) : M T unit :=
  do* isPaused := read module_paused in
  if isPaused : bool then revert ModulePaused else
  do* _ := askValidator targetSafe newOwners newThreshold nonce vaa in
  do* _ := reconcile newOwners newThreshold in
  consumeNonce nonce.

(** Step 5 of [verify]: is the candidate among the current owners? *)
Fixpoint is_owner_loop (currentOwners : list Z) (candidate : Z) : bool :=
  match currentOwners with
  | [] => false
  | o :: rest => if o =? candidate then true else is_owner_loop rest candidate
  end.

Definition markVaaConsumed (vaaHash : Z) : M T unit :=
  fun w =>
    ([], Done tt {| safe_state := safe_state w;
                    validator_state := validator_state w;
                    module_paused := module_paused w;
                    consumedVaas := <[vaaHash := true]> (consumedVaas w) |}).

(** [verify]: the compact-layout entry point used by the relayer. The Safe
    of the world is the contract at the address decoded from the payload. *)
Definition verify (encodedVm : list byte) : M T unit :=
  do* isPaused := read module_paused in
  if isPaused : bool then revert ModulePaused else
  let '(payload, valid) := wormhole_parseAndVerifyVM ctx encodedVm in
  if negb valid then revert InvalidVaa else
  let vaaHash := keccak256 ctx encodedVm in
  do* seen := read (fun w => Validator.mapping_get (consumedVaas w) vaaHash) in
  if seen : bool then revert VaaAlreadyConsumed else
  do* _ := markVaaConsumed vaaHash in
  match Codec.verify_decode payload with
  | Revert e => revert (PayloadReverted e)
  | Ok fields =>
      if negb (Codec.cf_chainId fields =? block_chainid ctx)
      then revert WrongChain else
      do* currentOwners := read (fun w => getOwners (safe_state w)) in
      if negb (is_owner_loop currentOwners (Codec.cf_candidate fields)) then
        do* thr := read (fun w => getThreshold (safe_state w)) in
        _moduleCall (AddOwnerWithThreshold (Codec.cf_candidate fields) thr)
      else ret tt
  end.

(** A transaction: when the call reverts, every state change made during it
    is undone. *)
Definition transact {A} (m : M T A) (w : World T) : World T * option error :=
  match m w with
  | (_, Done _ w') => (w', None)
  | (_, Reverted e) => (w, Some e)
  end.

Definition log_of {A} (m : M T A) (w : World T) : list (Entry T) := fst (m w).

(** A computation that only talks to the Safe: every logged sub-call is a
    Safe call made against the validator state the computation started
    with, and that state is also the one it ends with. *)
Definition safe_phase {A} (m : M T A) : Prop :=
  forall w l o, m w = (l, o) ->
    Forall (fun e => validator_state (e_before e) = validator_state w /\
                     exists c, e_call e = ToSafe c) l /\
    match o with
    | Done _ w' => validator_state w' = validator_state w
    | Reverted _ => True
    end.

(** A computation that never continues past a failed sub-call. *)
Definition checks_success {A} (m : M T A) : Prop :=
  forall w l a w', m w = (l, Done a w') -> Forall (fun e => e_success e = true) l.

End Module.

(** The Safe calls of a log, in the order they were issued. *)
Definition safe_calls {T} (l : list (Entry T)) : list SafeCall :=
  omap (fun e => match e_call e with ToSafe c => Some c | _ => None end) l.

(** The predecessor of [o] in an owner list, the sentinel standing before the
    head. *)
Fixpoint predecessor (prev : Z) (l : list Z) (o : Z) : option Z :=
  match l with
  | [] => None
  | x :: l' => if x =? o then Some prev else predecessor x l' o
  end.

(** The flag [keep[j]] as the removal loop reads it. *)
Definition kept (keep : list bool) (j : nat) : bool := default false (keep !! j).

End Reconciler.

(** ** The destination account

    Modelled from the spec: the Safe account itself (its owner and module
    managers) is an external contract; the repository only holds the interface
    ISafe.sol. The specification describes its owner storage as a mutating
    linked list whose removal takes the list-predecessor; this is that list,
    with the sentinel [0x1] at both ends, new owners linked in at the head. *)

Module SafeAccount.
Local Open Scope Z_scope.
Import Reconciler.

Record State : Type := {
  address : Z;
  owners : gmap Z Z;
  ownerCount : Z;
  threshold : Z;
  modules : gset Z
}.

Definition next (m : gmap Z Z) (a : Z) : Z := default 0 (m !! a).

Fixpoint walk (m : gmap Z Z) (cur : Z) (fuel : nat) : list Z :=
  match fuel with
  | O => []
  | S fuel' =>
      if cur =? SENTINEL then [] else cur :: walk m (next m cur) fuel'
  end.

Definition getOwners (s : State) : list Z :=
  walk (owners s) (next (owners s) SENTINEL) (Z.to_nat (ownerCount s)).

Definition changeThreshold (s : State) (t : Z) : option State :=
  if (t <=? ownerCount s) && (1 <=? t) then
    Some {| address := address s; owners := owners s; ownerCount := ownerCount s;
            threshold := t; modules := modules s |}
  else None.

Definition addOwnerWithThreshold (s : State) (o t : Z) : option State :=
  if negb (o =? 0) && negb (o =? SENTINEL) && negb (o =? address s)
     && (next (owners s) o =? 0) then
    let s' := {| address := address s;
                 owners := <[SENTINEL := o]>
                             (<[o := next (owners s) SENTINEL]> (owners s));
                 ownerCount := ownerCount s + 1;
                 threshold := threshold s; modules := modules s |} in
    if threshold s' =? t then Some s' else changeThreshold s' t
  else None.

Definition removeOwner (s : State) (prev o t : Z) : option State :=
  if (t <=? ownerCount s - 1) && negb (o =? 0) && negb (o =? SENTINEL)
     && (next (owners s) prev =? o) then
    let s' := {| address := address s;
                 owners := <[o := 0]> (<[prev := next (owners s) o]> (owners s));
                 ownerCount := ownerCount s - 1;
                 threshold := threshold s; modules := modules s |} in
    if threshold s' =? t then Some s' else changeThreshold s' t
  else None.

Definition call (s : State) (c : SafeCall) : option State :=
  match c with
  | AddOwnerWithThreshold o t => addOwnerWithThreshold s o t
  | RemoveOwner p o t => removeOwner s p o t
  | ChangeThreshold t => changeThreshold s t
  end.

(** The gate reverts for a caller that is not an enabled module; otherwise it
    reports whether the inner call succeeded. *)
Definition execFromModule (sender : Z) (s : State) (c : SafeCall) : ExecOutcome State :=
  if bool_decide (sender ∈ modules s) then
    match call s c with
    | Some s' => ExecSuccess s'
    | None => ExecFailure
    end
  else ExecReverted.

#[global] Instance safe_account : ISafe State := {|
  Reconciler.getOwners := getOwners;
  Reconciler.getThreshold := threshold;
  Reconciler.execTransactionFromModuleReturnData := execFromModule
|}.

(** A Safe set up with the given owner list (head first). *)
Fixpoint link (prev : Z) (l : list Z) (m : gmap Z Z) : gmap Z Z :=
  match l with
  | [] => <[prev := SENTINEL]> m
  | o :: l' => link o l' (<[prev := o]> m)
  end.

Definition setup (addr : Z) (l : list Z) (t : Z) (mods : list Z) : State :=
  {| address := addr; owners := link SENTINEL l ∅;
     ownerCount := Z.of_nat (length l); threshold := t;
     modules := list_to_set mods |}.

End SafeAccount.

(** ** Concrete scenarios

    Fixed addresses, an attested intent and the contracts' states, used to
    run the definitions above on explicit inputs. *)

Module Scenario.
Local Open Scope Z_scope.
Import Reconciler.

Definition A : Z := 0xA1.
Definition B : Z := 0xB2.
Definition C : Z := 0xC3.
Definition D : Z := 0xD4.
Definition MODULE : Z := 0x3000.
Definition SAFE : Z := 0x5AFE.
Definition STRANGER : Z := 0x6666.
Definition NONCE : Z := 77.

(** The intent attested by the VAA: chain 5, expiry 1000. *)
Definition intent (newOwners : list Z) (newThreshold : Z) : Validator.Intent :=
  {| Validator.version := 1; Validator.chainId := 5; Validator.safe := SAFE;
     Validator.owners := newOwners; Validator.threshold := newThreshold;
     Validator.nonce := NONCE; Validator.expiry := 1000 |}.

(** A Wormhole core that accepts every VAA and a decoder that always yields
    the intent above. *)
Definition external (newOwners : list Z) (newThreshold : Z) : Validator.External :=
  {| Validator.parseAndVerifyVM := fun vaa => (vaa, true);
     Validator.abi_decode_payload := fun _ => Some (intent newOwners newThreshold);
     Validator.applyRecovery_selector := 0x0badcafe |}.

Definition callData (newOwners : list Z) (newThreshold : Z) : Validator.CallData :=
  {| Validator.selector := 0x0badcafe;
     Validator.args :=
       Some {| Validator.callSafe := SAFE; Validator.callOwners := newOwners;
               Validator.callThreshold := newThreshold;
               Validator.callNonce := NONCE; Validator.callVaa := [] |} |}.

Definition env (chain time caller : Z) : Validator.Env :=
  {| Validator.chainid := chain; Validator.timestamp := time;
     Validator.sender := caller |}.

Definition validator_fresh : Validator.State :=
  {| Validator.owner := 0x0; Validator.paused := false;
     Validator.authorizedModules := {[ MODULE := true ]};
     Validator.consumed := ∅ |}.

Definition validator_used : Validator.State :=
  {| Validator.owner := 0x0; Validator.paused := false;
     Validator.authorizedModules := {[ MODULE := true ]};
     Validator.consumed := {[ NONCE := true ]} |}.

Definition guardian_fresh : GuardianValidator.State :=
  {| GuardianValidator.adapter := MODULE; GuardianValidator.owner := 0x0;
     GuardianValidator.paused := false; GuardianValidator.consumed := ∅ |}.

Definition ctx (newOwners : list Z) (newThreshold : Z) : Ctx :=
  {| ext := external newOwners newThreshold;
     wormhole_parseAndVerifyVM := fun vaa => (vaa, true);
     keccak256 := Codec.be_value;
     block_chainid := 5; block_timestamp := 900; self := MODULE |}.

(** A Safe with the given owners and threshold 1 that has enabled the
    module, next to a fresh validator. *)
Definition world (currentOwners : list Z) : World SafeAccount.State :=
  {| safe_state := SafeAccount.setup SAFE currentOwners 1 [MODULE];
     validator_state := validator_fresh; module_paused := false;
     consumedVaas := ∅ |}.

(** What a log shows of each sub-call: the call, its success flag, the
    owner list it ran against and whether the nonce was consumed then. *)
Definition view (l : list (Entry SafeAccount.State))
  : list (SubCall * bool * list Z * bool) :=
  map (fun e => (e_call e, e_success e,
                 SafeAccount.getOwners (safe_state (e_before e)),
                 Validator.mapping_get
                   (Validator.consumed (validator_state (e_before e))) NONCE)) l.

Definition guardian_used : GuardianValidator.State :=
  {| GuardianValidator.adapter := MODULE; GuardianValidator.owner := 0x0;
     GuardianValidator.paused := false;
     GuardianValidator.consumed := {[ NONCE := true ]} |}.

(** The payload of test/PayloadExtractor.t.sol (96 bytes). *)
Definition PAYLOAD : list byte :=
  [
    x1d; x39; x81; xb4; xc1; xf9; x2b; x66; x33; xfc; x5a; xcd;
    x8e; x02; xaa; x48; x59; x24; x01; x22; xf1; xa1; xf1; xc4;
    x0e; xd8; x47; xc8; xbf; x2e; x69; x47; x0a; xa0; xd5; x6f;
    x08; x7e; xe2; xef; xa5; xfc; xfa; xf5; xd1; x25; xae; x1d;
    xea; xa8; xfd; x02; xee; x6e; x06; x78; x56; x34; x12; xef;
    xcd; xab; x90; x78; x56; x34; x12; xef; xcd; xab; x90; x78;
    x56; x34; x12; x00; x00; x00; x00; x00; x00; x00; x00; x00;
    x00; x00; x00; x00; x00; x00; x00; x00; x00; x00; x00; x00 ].

(** A payload in the compact layout of [verify] (133 bytes): the test
    payload, whose bytes 75 to 95 are the 21 zero bytes of the layout,
    followed by a candidate address in reversed byte order and 17 bytes of
    padding. *)
Definition COMPACT_PAYLOAD : list byte :=
  PAYLOAD ++
  [ xd4; x00; x00; x00; x00; x00; x00; x00; x00; x00;
    x00; x00; x00; x00; x00; x00; x00; x00; x00; xc3 ] ++
  replicate 17 x00.

(** The surroundings of a [verify] call on the chain the compact payload
    names (421614), with a Wormhole core that accepts every VAA and hands its
    bytes back as the payload, and the first four bytes standing in for the
    digest. *)
Definition verify_ctx : Ctx :=
  {| ext := external [] 1;
     wormhole_parseAndVerifyVM := fun vaa => (vaa, true);
     keccak256 := fun vaa => Codec.be_value (take 4 vaa);
     block_chainid := 421614; block_timestamp := 900; self := MODULE |}.

End Scenario.

(** ** The relay's dedup gate: relayer.go *)

Module Dedup.
Local Open Scope Z_scope.

(** The dedup fields of the [Relayer] struct; both maps are guarded by
    [dedupeMu], so each of the two functions below runs as one atomic step.
    Instants and durations are in nanoseconds. *)
Record Relayer : Type := {
  inflightVAAs : gset string;
  processedVAAs : gmap string Z;
  dedupeTTL : Z
}.

Definition NewRelayer : Relayer :=
  {| inflightVAAs := ∅; processedVAAs := ∅;
     dedupeTTL := 15 * 60 * 1000000000 |}.

(** [beginProcessingVAA], called at instant [now]. The first test returns
    [false] on a success record younger than the TTL and drops an older one;
    the second returns [false] on a key in flight; otherwise the key is marked
    in flight. *)
Definition beginProcessingVAA (now : Z) (key : string) (r : Relayer)
  : bool * Relayer :=
  let after_first_test : option (gmap string Z) :=
    match processedVAAs r !! key with
    | Some ts =>
        if now - ts <? dedupeTTL r then None
        else Some (delete key (processedVAAs r))
    | None => Some (processedVAAs r)
    end in
  match after_first_test with
  | None => (false, r)
  | Some processed =>
      if bool_decide (key ∈ inflightVAAs r) then
        (false, {| inflightVAAs := inflightVAAs r; processedVAAs := processed;
                   dedupeTTL := dedupeTTL r |})
      else
        (true, {| inflightVAAs := {[ key ]} ∪ inflightVAAs r;
                  processedVAAs := processed; dedupeTTL := dedupeTTL r |})
  end.

(** [finishProcessingVAA]; [now1] and [now2] are the two readings of the
    clock (the success stamp and the cutoff of the sweep). *)
Definition finishProcessingVAA (now1 now2 : Z) (key : string) (success : bool)
  (r : Relayer) : Relayer :=
  let inflight := inflightVAAs r ∖ {[ key ]} in
  let processed :=
    if success then <[key := now1]> (processedVAAs r) else processedVAAs r in
  let cutoff := now2 - dedupeTTL r in
  {| inflightVAAs := inflight;
     processedVAAs := filter (fun kv => ¬ (kv.2 < cutoff)) processed;
     dedupeTTL := dedupeTTL r |}.

(** The receive loop and its workers: a delivery passes the gate and, if
    admitted, starts a worker holding the key; a worker ends by reporting
    success or failure. [workers] lists the keys of the running workers. *)
Inductive event : Type :=
| Deliver (now : Z) (key : string)
| Finish (now1 now2 : Z) (key : string) (success : bool).

Record System : Type := {
  relayer : Relayer;
  workers : list string
}.

Fixpoint remove_first (key : string) (l : list string) : list string :=
  match l with
  | [] => []
  | k :: l' => if bool_decide (k = key) then l' else k :: remove_first key l'
  end.

Definition step (s : System) (e : event) : System :=
  match e with
  | Deliver now key =>
      let '(admitted, r') := beginProcessingVAA now key (relayer s) in
      {| relayer := r';
         workers := if admitted then key :: workers s else workers s |}
  | Finish now1 now2 key success =>
      if bool_decide (key ∈ workers s) then
        {| relayer := finishProcessingVAA now1 now2 key success (relayer s);
           workers := remove_first key (workers s) |}
      else s
  end.

Definition initial : System := {| relayer := NewRelayer; workers := [] |}.

Definition run (es : list event) : System := fold_left step es initial.

(** A success record for [key] younger than the TTL at instant [now]. *)
Definition recent_success (now : Z) (key : string) (r : Relayer) : Prop :=
  exists ts, processedVAAs r !! key = Some ts /\ now - ts < dedupeTTL r.

(** The invariant of the receive loop: the running workers hold distinct
    keys, which are exactly the keys in flight, and a key in flight has no
    success record. *)
Definition inv (s : System) : Prop :=
  NoDup (workers s) /\
  (forall k, k ∈ workers s <-> k ∈ inflightVAAs (relayer s)) /\
  (forall k, k ∈ inflightVAAs (relayer s) -> processedVAAs (relayer s) !! k = None).

End Dedup.

(** ** The destination submitter: relayer.go *)

Module Submitter.
Local Open Scope Z_scope.

(** What the RPC node answers during one attempt; [None] is an error, and
    for [sendTransaction] [Some msg] is the error text. *)
Record Rpc : Type := {
  nonceAt : option Z;
  pendingNonceAt : option Z;
  suggestGasPrice : option Z;
  signTx : bool;
  sendTransaction : option string
}.

Record Network : Type := {
  networkID : option Z;
  rpc : nat -> Rpc
}.

Inductive error : Type :=
| ErrChainID
| ErrConfirmedNonce
| ErrPendingNonce
| ErrGasPrice
| ErrSign
| ErrSend (msg : string)
| ErrNonceConflicts (attempts : nat).

(** A signed transaction, as far as the retry logic is concerned. *)
Record Tx : Type := {
  tx_nonce : Z;
  tx_gasPrice : Z
}.

(** [strings.Contains]. *)
Fixpoint contains (s substr : string) : bool :=
  String.prefix substr s ||
  match s with
  | EmptyString => false
  | String _ s' => contains s' substr
  end.

Definition getFreshNonce (r : Rpc) : result error Z :=
  match nonceAt r with
  | None => Revert ErrConfirmedNonce
  | Some confirmedNonce =>
      match pendingNonceAt r with
      | None => Revert ErrPendingNonce
      | Some pendingNonce =>
          Ok (if pendingNonce >? confirmedNonce then pendingNonce
              else confirmedNonce)
      end
  end.

Definition is_nonce_conflict (errStr : string) : bool :=
  contains errStr "replacement transaction underpriced" ||
  contains errStr "nonce too low" ||
  contains errStr "already known".

Definition maxRetries : nat := 3.

(** The retry loop, from attempt number [attempt] with [fuel] attempts left;
    it returns the transactions handed to [SendTransaction], in order, and the
    result. *)
Fixpoint retry_loop (net : Network) (attempt fuel : nat)
  : list Tx * result error Tx :=
  match fuel with
  | O => ([], Revert (ErrNonceConflicts maxRetries))
  | S fuel' =>
      let r := rpc net attempt in
      match getFreshNonce r with
      | Revert e => ([], Revert e)
      | Ok nonce =>
          match suggestGasPrice r with
          | None => ([], Revert ErrGasPrice)
          | Some suggested =>
              let gasPrice :=
                if (0 <? attempt)%nat then suggested + suggested / 5
                else suggested in
              let tx := {| tx_nonce := nonce; tx_gasPrice := gasPrice |} in
              if negb (signTx r) then ([], Revert ErrSign) else
              match sendTransaction r with
              | Some errStr =>
                  if is_nonce_conflict errStr then
                    let '(l, o) := retry_loop net (S attempt) fuel' in
                    (tx :: l, o)
                  else ([tx], Revert (ErrSend errStr))
              | None => ([tx], Ok tx)
              end
          end
      end
  end.

Definition SendVerifyTransaction (net : Network) : list Tx * result error Tx :=
  match networkID net with
  | None => ([], Revert ErrChainID)
  | Some _ => retry_loop net 0 maxRetries
  end.

Definition bids (l : list Tx) : list Z := map tx_gasPrice l.

(** The fee policy the specification states: the second bid is strictly
    above the first and no bid is below the one before it. *)
Definition second_bid_higher (l : list Z) : Prop :=
  forall b1 b2, l !! 0%nat = Some b1 -> l !! 1%nat = Some b2 -> b1 < b2.

Definition never_decreasing (l : list Z) : Prop :=
  forall i b b', l !! i = Some b -> l !! (S i) = Some b' -> b <= b'.

(** Every attempt ended in a nonce conflict. *)
Definition all_conflict (net : Network) : Prop :=
  forall k, (k < maxRetries)%nat ->
    exists c p g msg,
      nonceAt (rpc net k) = Some c /\ pendingNonceAt (rpc net k) = Some p /\
      suggestGasPrice (rpc net k) = Some g /\ signTx (rpc net k) = true /\
      sendTransaction (rpc net k) = Some msg /\ is_nonce_conflict msg = true.

(** The network of the examples: chain id 1, every attempt answered with a
    nonce conflict, confirmed counter 7, pending counter 9, and the suggested
    gas price given by [price]. *)
Definition contended (price : nat -> Z) : Network :=
  {| networkID := Some 1;
     rpc := fun k =>
       {| nonceAt := Some 7; pendingNonceAt := Some 9;
          suggestGasPrice := Some (price k); signTx := true;
          sendTransaction := Some "nonce too low"%string |} |}.

End Submitter.

(** ** The test double of the Safe: mocks/MockSafe.sol *)

Module MockSafe.
Local Open Scope Z_scope.

Inductive error : Type :=
| Require (msg : string)
| PanicArith.

Definition res (A : Type) : Type := result error A.

(** Storage: the owner array, the threshold and the two mappings. *)
Record State : Type := {
  owners : list Z;
  threshold : Z;
  isOwner : gmap Z bool;
  modules : gmap Z bool
}.

Definition fresh : State :=
  {| owners := []; threshold := 0; isOwner := ∅; modules := ∅ |}.

Definition mapping_get (m : gmap Z bool) (k : Z) : bool := default false (m !! k).

(** The loop of [setup]: each owner is checked, pushed and flagged. *)
Fixpoint setup_loop (_owners : list Z) (st : State) : res State :=
  match _owners with
  | [] => Ok st
  | owner :: rest =>
      if owner =? 0 then Revert (Require "invalid owner") else
      if mapping_get (isOwner st) owner then Revert (Require "duplicate owner") else
      setup_loop rest
        {| owners := owners st ++ [owner]; threshold := threshold st;
           isOwner := <[owner := true]> (isOwner st); modules := modules st |}
  end.

Definition setup (_owners : list Z) (_threshold : Z) (st : State) : res State :=
  if negb (length (owners st) =? 0)%nat then Revert (Require "already setup") else
  if negb ((0 <? _threshold) && (_threshold <=? Z.of_nat (length _owners)))
  then Revert (Require "invalid threshold") else
  let* st' := setup_loop _owners st in
  Ok {| owners := owners st'; threshold := _threshold;
        isOwner := isOwner st'; modules := modules st' |}.

Definition getOwners (st : State) : list Z := owners st.
Definition getThreshold (st : State) : Z := threshold st.
Definition isModuleEnabled (st : State) (module : Z) : bool :=
  mapping_get (modules st) module.

Definition enableModule (module : Z) (st : State) : State :=
  {| owners := owners st; threshold := threshold st; isOwner := isOwner st;
     modules := <[module := true]> (modules st) |}.

Definition disableModule (module : Z) (st : State) : State :=
  {| owners := owners st; threshold := threshold st; isOwner := isOwner st;
     modules := <[module := false]> (modules st) |}.

Definition addOwnerWithThreshold (owner _threshold : Z) (st : State) : res State :=
  if owner =? 0 then Revert (Require "invalid owner") else
  if mapping_get (isOwner st) owner then Revert (Require "already owner") else
  if negb ((0 <? _threshold) && (_threshold <=? Z.of_nat (length (owners st)) + 1))
  then Revert (Require "invalid threshold") else
  Ok {| owners := owners st ++ [owner]; threshold := _threshold;
        isOwner := <[owner := true]> (isOwner st); modules := modules st |}.

(** The search loop of [removeOwner]: the first index holding [owner]. *)
Fixpoint index_of (l : list Z) (owner : Z) (i : nat) : option nat :=
  match l with
  | [] => None
  | x :: rest => if x =? owner then Some i else index_of rest owner (S i)
  end.

(** [owners[i] = owners[owners.length - 1]; owners.pop()]. *)
Definition swap_pop (l : list Z) (i : nat) : list Z :=
  take (length l - 1) (<[i := default 0 (last l)]> l).

(** [removeOwner]; the right operand of [&&] is only evaluated when the left
    one holds, and [owners.length - 1] is checked arithmetic. *)
Definition removeOwner (prevOwner owner _threshold : Z) (st : State) : res State :=
  if negb (mapping_get (isOwner st) owner) then Revert (Require "not owner") else
  if negb (0 <? _threshold) then Revert (Require "invalid threshold") else
  if (length (owners st) =? 0)%nat then Revert PanicArith else
  if negb (_threshold <=? Z.of_nat (length (owners st)) - 1)
  then Revert (Require "invalid threshold") else
  let owners' :=
    match index_of (owners st) owner 0 with
    | Some i => swap_pop (owners st) i
    | None => owners st
    end in
  Ok {| owners := owners'; threshold := _threshold;
        isOwner := <[owner := false]> (isOwner st); modules := modules st |}.

Definition changeThreshold (_threshold : Z) (st : State) : res State :=
  if negb ((0 <? _threshold) && (_threshold <=? Z.of_nat (length (owners st))))
  then Revert (Require "invalid threshold") else
  Ok {| owners := owners st; threshold := _threshold;
        isOwner := isOwner st; modules := modules st |}.

(** The externally callable, state-changing functions. None of them looks at
    [msg.sender]. *)
Inductive op : Type :=
| OpSetup (_owners : list Z) (_threshold : Z)
| OpEnableModule (module : Z)
| OpDisableModule (module : Z)
| OpAddOwnerWithThreshold (owner _threshold : Z)
| OpRemoveOwner (prevOwner owner _threshold : Z)
| OpChangeThreshold (_threshold : Z).

Definition exec (st : State) (c : op) : res State :=
  match c with
  | OpSetup os t => setup os t st
  | OpEnableModule m => Ok (enableModule m st)
  | OpDisableModule m => Ok (disableModule m st)
  | OpAddOwnerWithThreshold o t => addOwnerWithThreshold o t st
  | OpRemoveOwner p o t => removeOwner p o t st
  | OpChangeThreshold t => changeThreshold t st
  end.

(** A sequence of transactions; one that reverts leaves the storage as it
    was. *)
Definition run (st : State) (calls : list op) : State :=
  fold_left (fun s c => match exec s c with Ok s' => s' | Revert _ => s end)
            calls st.

(** The part of consistency that does not mention the threshold. *)
Definition owners_ok (st : State) : Prop :=
  NoDup (owners st) /\
  (forall a, mapping_get (isOwner st) a = true <-> a ∈ owners st) /\
  (0 ∉ owners st).

(** The storage is consistent: the array has no duplicate and no zero entry,
    the mapping flags exactly its entries, and once there are owners the
    threshold lies between one and their number. *)
Definition consistent (st : State) : Prop :=
  NoDup (owners st) /\
  (forall a, mapping_get (isOwner st) a = true <-> a ∈ owners st) /\
  (0 ∉ owners st) /\
  (owners st <> [] -> 1 <= threshold st <= Z.of_nat (length (owners st))).

End MockSafe.

(** ** The test double of the Wormhole core: mocks/MockWormholeCore.sol *)

Module MockWormholeCore.
Local Open Scope Z_scope.

Inductive error : Type :=
| Require (msg : string)
| PanicArith.

Definition res (A : Type) : Type := result error A.

(** The fields of [IWormhole.VM] the mock assigns; the others keep their zero
    value. *)
Record VM : Type := {
  timestamp : Z;
  nonce : Z;
  emitterChainId : Z;
  emitterAddress : Z;
  sequence : Z;
  consistencyLevel : Z;
  payload : list byte
}.

(** [parseAndVerifyVM]. [sigCount] is a [uint8] and so are [sigCount * 66]
    and [6 + (sigCount * 66)]: both are checked [uint8] operations, and only
    their result is widened to the [uint256] [bodyOffset]. *)
Definition parseAndVerifyVM (encodedVM : list byte) : res (VM * bool * string) :=
  if (length encodedVM <? 6)%nat then Revert (Require "VAA too short") else
  let sigCount := u8 (default Byte.x00 (encodedVM !! 5%nat)) in
  if 255 <? sigCount * 66 then Revert PanicArith else
  if 255 <? 6 + sigCount * 66 then Revert PanicArith else
  let bodyOffset := Z.to_nat (6 + sigCount * 66) in
  if (length encodedVM <? bodyOffset + 51)%nat
  then Revert (Require "VAA body too short") else
  Ok ({| timestamp := Codec.be_value (Codec.slice encodedVM bodyOffset 4);
         nonce := Codec.be_value (Codec.slice encodedVM (bodyOffset + 4) 4);
         emitterChainId := Codec.be_value (Codec.slice encodedVM (bodyOffset + 8) 2);
         emitterAddress := Codec.be_value (Codec.slice encodedVM (bodyOffset + 10) 32);
         sequence := Codec.be_value (Codec.slice encodedVM (bodyOffset + 42) 8);
         consistencyLevel :=
           u8 (default Byte.x00 (encodedVM !! (bodyOffset + 50)%nat));
         payload := drop (bodyOffset + 51) encodedVM |},
      true, EmptyString).

(** The body the mock reads its fields from, as one record of a 51-byte
    header followed by the payload. *)
Definition vm_of_body (body payload : list byte) : VM :=
  {| timestamp := Codec.be_value (Codec.slice body 0 4);
     nonce := Codec.be_value (Codec.slice body 4 4);
     emitterChainId := Codec.be_value (Codec.slice body 8 2);
     emitterAddress := Codec.be_value (Codec.slice body 10 32);
     sequence := Codec.be_value (Codec.slice body 42 8);
     consistencyLevel := u8 (default Byte.x00 (body !! 50%nat));
     payload := payload |}.

End MockWormholeCore.

(** ** Orchestra.sol *)

Module Orchestra.
Local Open Scope Z_scope.

Inductive error : Type :=
| WormholeReverted (e : MockWormholeCore.error)
| InvalidVM (reason : string)
| ExtractorReverted (e : Codec.error).

(** Storage; [verify] is the only external function and writes
    [latestRecovered] alone. *)
Record State : Type := {
  knownEmitters : gmap Z Z;
  consumedMessages : gmap Z bool;
  latestRecovered : Z
}.

Section Contract.
(** The core behind [wormholeAddress]. *)
Variable parseAndVerifyVM :
  list byte -> MockWormholeCore.res (MockWormholeCore.VM * bool * string).

Definition _verify (encodedVm : list byte) : result error (list byte) :=
  match parseAndVerifyVM encodedVm with
  | Revert e => Revert (WormholeReverted e)
  | Ok (vm, valid, reason) =>
      if negb valid then Revert (InvalidVM reason)
      else Ok (MockWormholeCore.payload vm)
  end.

Definition _processPayload (payload : list byte) (st : State) : result error State :=
  match Codec.parsePayload payload with
  | Revert e => Revert (ExtractorReverted e)
  | Ok extracted =>
      Ok {| knownEmitters := knownEmitters st;
            consumedMessages := consumedMessages st;
            latestRecovered := Codec.addressField7 extracted |}
  end.

Definition verify (encodedVm : list byte) (st : State) : result error State :=
  let* payload := _verify encodedVm in
  _processPayload payload st.

End Contract.

End Orchestra.

(** ** The ERC-7579 executor: AztecRecoveryModule.sol *)

Module AztecRecoveryModule.
Local Open Scope Z_scope.

Inductive error : Type :=
| ModulePaused
| NotAuthorized
| InvalidVAA
| InvalidVersion
| WrongChain
| WrongSafe
| Expired
| AlreadyConsumed
| NotOwner
| WormholeReverted
| DecodeReverted
| AccountReverted.

Record RecoveryData : Type := {
  version : Z;
  chainId : Z;
  safe : Z;
  newOwners : list Z;
  threshold : Z;
  nonce : Z;
  expiry : Z
}.

(** The two calls [_buildRecoveryCalls] encodes for the account. *)
Inductive Call : Type :=
| AddOwnerWithThreshold (owner _threshold : Z)
| ChangeThreshold (_threshold : Z).

(** An element of the [bytes[]] array: an encoded call, or the empty bytes a
    new array holds. *)
Abbreviation Slot := (option Call).

Record State : Type := {
  owner : Z;
  paused : bool;
  consumed : gmap Z bool;
  authorizedAccounts : gmap Z bool
}.

Record Env : Type := {
  block_chainid : Z;
  block_timestamp : Z;
  sender : Z
}.

Definition mapping_get (m : gmap Z bool) (k : Z) : bool := default false (m !! k).

Definition setPaused (env : Env) (v : bool) (st : State) : result error State :=
  if negb (sender env =? owner st) then Revert NotOwner else
  Ok {| owner := owner st; paused := v; consumed := consumed st;
        authorizedAccounts := authorizedAccounts st |}.

Definition onInstall (env : Env) (st : State) : State :=
  {| owner := owner st; paused := paused st; consumed := consumed st;
     authorizedAccounts := <[sender env := true]> (authorizedAccounts st) |}.

Definition onUninstall (env : Env) (st : State) : State :=
  {| owner := owner st; paused := paused st; consumed := consumed st;
     authorizedAccounts := <[sender env := false]> (authorizedAccounts st) |}.

Definition isModuleType (typeID : Z) : bool := typeID =? 2.

Definition isInitialized (st : State) (account : Z) : bool :=
  mapping_get (authorizedAccounts st) account.

(** The loop of [_buildRecoveryCalls]: [calls[i] = add(newOwners[i], 1)]. *)
Fixpoint fill_adds (newOwners : list Z) (i : nat) (calls : list Slot) : list Slot :=
  match newOwners with
  | [] => calls
  | o :: rest =>
      fill_adds rest (S i) (<[i := Some (AddOwnerWithThreshold o 1)]> calls)
  end.

Definition _buildRecoveryCalls (newOwners : list Z) (threshold : Z) : list Slot :=
  let calls := replicate (length newOwners + 1) None in
  let calls := fill_adds newOwners 0 calls in
  <[length newOwners := Some (ChangeThreshold threshold)]> calls.

Section Contract.
(** The account the module drives; [None] is a reverted
    [executeFromExecutor], which the module does not catch. *)
Variable Account : Type.
Variable executeFromExecutor : Account -> Slot -> option Account.
(** The core and the ABI decoder; [None] is a revert. *)
Variable parseAndVerifyVM : list byte -> option (list byte * bool).
Variable abi_decode : list byte -> option RecoveryData.

Fixpoint _execute (calls : list Slot) (acc : Account) : result error Account :=
  match calls with
  | [] => Ok acc
  | c :: rest =>
      match executeFromExecutor acc c with
      | Some acc' => _execute rest acc'
      | None => Revert AccountReverted
      end
  end.

(** [executeRecovery(safe, vaa)]; the account of the pair is the contract at
    address [safe]. *)
Definition executeRecovery (env : Env) (safe_ : Z) (vaa : list byte)
  (w : State * Account) : result error (State * Account) :=
  let '(st, acc) := w in
  if paused st then Revert ModulePaused else
  if negb (mapping_get (authorizedAccounts st) safe_) then Revert NotAuthorized else
  match parseAndVerifyVM vaa with
  | None => Revert WormholeReverted
  | Some (payload, valid) =>
      if negb valid then Revert InvalidVAA else
      match abi_decode payload with
      | None => Revert DecodeReverted
      | Some data =>
          if negb (version data =? 1) then Revert InvalidVersion else
          if negb (chainId data =? block_chainid env) then Revert WrongChain else
          if negb (safe data =? safe_) then Revert WrongSafe else
          if expiry data <? block_timestamp env then Revert Expired else
          if mapping_get (consumed st) (nonce data) then Revert AlreadyConsumed else
          let st' := {| owner := owner st; paused := paused st;
                        consumed := <[nonce data := true]> (consumed st);
                        authorizedAccounts := authorizedAccounts st |} in
          let calls := _buildRecoveryCalls (newOwners data) (threshold data) in
          let* acc' := _execute calls acc in
          Ok (st', acc')
      end
  end.

(** The external calls that change the module's storage. *)
Inductive op : Type :=
| OpSetPaused (v : bool)
| OpOnInstall
| OpOnUninstall
| OpExecuteRecovery (safe_ : Z) (vaa : list byte).

Definition exec (w : State * Account) (c : Env * op) : result error (State * Account) :=
  let '(env, o) := c in
  match o with
  | OpSetPaused v => let* st' := setPaused env v (fst w) in Ok (st', snd w)
  | OpOnInstall => Ok (onInstall env (fst w), snd w)
  | OpOnUninstall => Ok (onUninstall env (fst w), snd w)
  | OpExecuteRecovery s vaa => executeRecovery env s vaa w
  end.

(** Transactions in sequence; a reverted one changes nothing. *)
Definition run (w : State * Account) (calls : list (Env * op)) : State * Account :=
  fold_left (fun w c => match exec w c with Ok w' => w' | Revert _ => w end)
            calls w.

End Contract.

(** A small instance for concrete runs: an account that only counts the
    calls it executes, a core that accepts every VAA, and a decoder that
    always yields the same instruction. *)
Definition counting_account (n : nat) (c : Slot) : option nat :=
  match c with Some _ => Some (S n) | None => None end.

Definition example_data : RecoveryData :=
  {| version := 1; chainId := 5; safe := 77; newOwners := [10; 20];
     threshold := 2; nonce := 9; expiry := 1000 |}.

Definition example_state : State :=
  {| owner := 1; paused := false; consumed := ∅;
     authorizedAccounts := {[ 77 := true ]} |}.

Definition example_env : Env :=
  {| block_chainid := 5; block_timestamp := 900; sender := 3 |}.

Definition example_core (vaa : list byte) : option (list byte * bool) :=
  Some (vaa, true).

Definition example_decode (payload : list byte) : option RecoveryData :=
  Some example_data.

End AztecRecoveryModule.

(** ** The emitter registry: relayer.go *)

Module Emitters.
Local Open Scope Z_scope.

(** A log of the module, as far as the relayer reads it. *)
Record Log : Type := {
  Topics : list Z;
  Data : list byte
}.

(** [registeredEmitters]: Aztec contract (hex) to Safe address. *)
Abbreviation Registry := (gmap string Z).

Definition hex_char (n : N) : Ascii.ascii :=
  if (n <? 10)%N then Ascii.ascii_of_N (48 + n) else Ascii.ascii_of_N (87 + n).

(** [hex.EncodeToString]. *)
Fixpoint EncodeToString (src : list byte) : string :=
  match src with
  | [] => EmptyString
  | b :: rest =>
      String (hex_char (Byte.to_N b / 16))
        (String (hex_char (Byte.to_N b mod 16)) (EncodeToString rest))
  end.

(** [common.HexToAddress(topic.Hex())]: the low 20 bytes of the topic. *)
Definition HexToAddress (topic : Z) : Z := wrap 160 topic.

(** [handleNewEmitterEvent]: a contract already present keeps its Safe. *)
Definition handleNewEmitterEvent (log : Log) (reg : Registry) : Registry :=
  if (length (Topics log) <? 2)%nat || (length (Data log) <? 32)%nat then reg else
  let safeAddress := HexToAddress (default 0 (Topics log !! 1%nat)) in
  let aztecContract := EncodeToString (take 32 (Data log)) in
  match reg !! aztecContract with
  | Some _ => reg
  | None => <[aztecContract := safeAddress]> reg
  end.

(** The loop of [loadRegisteredEmitters]: every well-formed log overwrites. *)
Fixpoint load_loop (logs : list Log) (reg : Registry) : Registry :=
  match logs with
  | [] => reg
  | log :: rest =>
      if (length (Topics log) <? 2)%nat || (length (Data log) <? 32)%nat
      then load_loop rest reg else
      let safeAddress := HexToAddress (default 0 (Topics log !! 1%nat)) in
      let aztecContract := EncodeToString (take 32 (Data log)) in
      load_loop rest (<[aztecContract := safeAddress]> reg)
  end.

(** [loadRegisteredEmitters]; [FilterLogs] is the node's answer ([None]: an
    error) and the boolean tells whether an error is returned. *)
Definition loadRegisteredEmitters (EVMTargetContract : string)
  (FilterLogs : option (list Log)) (reg : Registry) : bool * Registry :=
  if String.eqb EVMTargetContract EmptyString then (false, reg) else
  match FilterLogs with
  | None => (true, reg)
  | Some logs => (false, load_loop logs reg)
  end.

(** The batch of [pollNewEmitters], and the stream of [watchNewEmitters]. *)
Definition handle_all (logs : list Log) (reg : Registry) : Registry :=
  fold_left (fun reg log => handleNewEmitterEvent log reg) logs reg.

(** The Safes that the well-formed logs of a list announce for a contract,
    in the order of the logs. *)
Definition announced (logs : list Log) (aztecContract : string) : list Z :=
  omap (fun log =>
          if (length (Topics log) <? 2)%nat || (length (Data log) <? 32)%nat
          then None
          else if String.eqb (EncodeToString (take 32 (Data log))) aztecContract
               then Some (HexToAddress (default 0 (Topics log !! 1%nat)))
               else None) logs.

End Emitters.

(** ** From a delivery to the dedup record: relayer.go *)

Module Processor.
Import Dedup.
Local Open Scope Z_scope.

Record Config : Type := {
  SourceChainID : Z;
  AcceptAnyEmitter : bool
}.

(** What [processVAA] passes on of a parsed VAA. *)
Record VAAData : Type := {
  ChainID : Z;
  EmitterHex : string
}.

Inductive error : Type :=
| ErrContext
| ErrUnmarshal
| ErrInterrupted
| ErrTransactionFailed (e : Submitter.error).

Section Relay.
Variable config : Config.
(** [r.isRegisteredEmitter], first component, on the registry of the
    moment. *)
Variable isRegisteredEmitter : string -> bool.

(** [defaultVAAProcessor]: the transactions handed to the node and the
    returned error ([None] is [nil]). [timedOut] tells whether the 60-second
    context has expired when the submitter returns. *)
Definition defaultVAAProcessor (vaaData : VAAData) (net : Submitter.Network)
  (timedOut : bool) : list Submitter.Tx * option error :=
  if negb (ChainID vaaData =? SourceChainID config) then ([], None) else
  let proceed :=
    if AcceptAnyEmitter config then true
    else isRegisteredEmitter (EmitterHex vaaData) in
  if negb proceed then ([], None) else
  match Submitter.SendVerifyTransaction net with
  | (txs, Revert e) =>
      (txs, Some (if timedOut then ErrInterrupted else ErrTransactionFailed e))
  | (txs, Ok _) => (txs, None)
  end.

(** [processVAA] with the default processor; [cancelled] is the state of the
    processing context on entry and [unmarshal] the result of
    [vaaLib.Unmarshal]. *)
Definition processVAA (cancelled : bool) (unmarshal : option VAAData)
  (net : Submitter.Network) (timedOut : bool)
  : list Submitter.Tx * option error :=
  if cancelled then ([], Some ErrContext) else
  match unmarshal with
  | None => ([], Some ErrUnmarshal)
  | Some vaaData => defaultVAAProcessor vaaData net timedOut
  end.

(** The goroutine [Start] launches for an admitted delivery: process, then
    report success exactly when [processVAA] returned [nil]. *)
Definition worker (cancelled : bool) (unmarshal : option VAAData)
  (net : Submitter.Network) (timedOut : bool) (now1 now2 : Z) (key : string)
  (r : Relayer) : list Submitter.Tx * Relayer :=
  let '(txs, err) := processVAA cancelled unmarshal net timedOut in
  (txs, finishProcessingVAA now1 now2 key
          (match err with None => true | Some _ => false end) r).

End Relay.

End Processor.

(** * Properties *)

(** ** The payload codec *)

Module CodecFacts.
Import Codec.
Local Open Scope Z_scope.

Lemma u8_range (b : byte) : 0 <= u8 b < 256.
Proof.
  unfold u8. pose proof (Byte.to_N_bounded b) as Hb. lia.
Qed.

Lemma wrap_small (w x : Z) : 0 <= w -> 0 <= x < 2 ^ w -> wrap w x = x.
Proof.
  intros Hw Hx. unfold wrap, mask. rewrite Z.land_ones by lia.
  apply Z.mod_small. lia.
Qed.

Lemma testbit_above (a k n : Z) : 0 <= a < 2 ^ k -> k <= n -> Z.testbit a n = false.
Proof.
  intros Ha Hn. destruct (Z.eq_dec a 0) as [-> | Hne].
  - apply Z.bits_0.
  - apply Z.bits_above_log2; [lia | ].
    apply Z.lt_le_trans with k; [ | lia]. apply Z.log2_lt_pow2; lia.
Qed.

Lemma land_shiftl_disjoint (a b k : Z) :
  0 <= k -> 0 <= a < 2 ^ k -> Z.land a (Z.shiftl b k) = 0.
Proof.
  intros Hk Ha. apply Z.bits_inj'. intros n Hn.
  rewrite Z.land_spec, Z.bits_0.
  destruct (Z.lt_ge_cases n k) as [Hlt | Hge].
  - rewrite Z.shiftl_spec_low by lia. apply andb_false_r.
  - rewrite (testbit_above a k n) by lia. reflexivity.
Qed.

Lemma lor_shiftl_add (a b k : Z) :
  0 <= k -> 0 <= a < 2 ^ k -> Z.lor a (Z.shiftl b k) = a + b * 2 ^ k.
Proof.
  intros Hk Ha.
  rewrite <- Z.shiftl_mul_pow2 by lia.
  rewrite <- Z.lxor_lor by (apply land_shiftl_disjoint; lia).
  symmetry. apply Z.add_nocarry_lxor. apply land_shiftl_disjoint; lia.
Qed.

Lemma be_value_snoc (l : list byte) (b : byte) :
  be_value (l ++ [b]) = be_value l * 256 + u8 b.
Proof. unfold be_value. rewrite fold_left_app. reflexivity. Qed.

Lemma le_value_rev (l : list byte) : le_value l = be_value (rev l).
Proof.
  induction l as [| b l IH]; [reflexivity | ].
  simpl rev. rewrite be_value_snoc, <- IH. simpl. lia.
Qed.

Lemma le_value_range (l : list byte) : 0 <= le_value l < 2 ^ (8 * Z.of_nat (length l)).
Proof.
  induction l as [| b l IH]; simpl length; [simpl; lia | ].
  replace (8 * Z.of_nat (S (length l))) with (8 + 8 * Z.of_nat (length l)) by lia.
  rewrite Z.pow_add_r by lia. change (2 ^ 8) with 256.
  pose proof (u8_range b). cbn [le_value]. nia.
Qed.

Lemma byte_at_lookup (data : list byte) (i : nat) (b : byte) :
  data !! i = Some b -> byte_at data i = Ok (u8 b).
Proof. intros H. unfold byte_at. rewrite H. reflexivity. Qed.

Lemma slice_cons (data : list byte) (o n : nat) (b : byte) :
  data !! o = Some b -> slice data o (S n) = b :: slice data (S o) n.
Proof.
  intros H. unfold slice. rewrite (drop_S data b o H). reflexivity.
Qed.

Lemma slice_length (data : list byte) (o n : nat) :
  (o + n <= length data)%nat -> length (slice data o n) = n.
Proof. intros H. unfold slice. rewrite length_take, length_drop. lia. Qed.

Lemma extractAddressLE_loop_spec (data : list byte) (offset : nat) :
  forall (n i : nat) (addr : Z),
    (offset + i + n <= length data)%nat -> (i + n <= 20)%nat ->
    0 <= addr < 2 ^ (8 * Z.of_nat i) ->
    extractAddressLE_loop data offset i n addr
    = Ok (addr + 2 ^ (8 * Z.of_nat i) * le_value (slice data (offset + i) n)).
Proof.
  induction n as [| n IH]; intros i addr Hlen Hi Haddr.
  - cbn. f_equal. unfold slice. rewrite take_0. simpl. lia.
  - destruct (lookup_lt_is_Some_2 data (offset + i)%nat ltac:(lia)) as [b Hb].
    cbn [extractAddressLE_loop]. rewrite (byte_at_lookup _ _ _ Hb). cbn [bind].
    pose proof (u8_range b) as Hu.
    assert (Hpow : 2 ^ (8 * Z.of_nat (S i)) = 256 * 2 ^ (8 * Z.of_nat i)).
    { replace (8 * Z.of_nat (S i)) with (8 + 8 * Z.of_nat i) by lia.
      rewrite Z.pow_add_r by lia. reflexivity. }
    assert (Hsh : 0 <= Z.shiftl (u8 b) (8 * Z.of_nat i) < 2 ^ 160).
    { rewrite Z.shiftl_mul_pow2 by lia. split; [nia | ].
      apply Z.lt_le_trans with (2 ^ (8 * Z.of_nat (S i))); [rewrite Hpow; nia | ].
      apply Z.pow_le_mono_r; lia. }
    rewrite wrap_small by lia.
    rewrite lor_shiftl_add by lia.
    rewrite IH; [ | lia | lia | rewrite Hpow; nia ].
    f_equal. rewrite (slice_cons _ _ _ _ Hb). cbn [le_value].
    replace (offset + S i)%nat with (S (offset + i)) by lia.
    rewrite Hpow. ring.
Qed.

Lemma extractAddressLE_spec (data : list byte) (offset : nat) :
  (offset + 20 <= length data)%nat ->
  _extractAddressLE data offset = Ok (be_value (rev (slice data offset 20))).
Proof.
  intros H. unfold _extractAddressLE.
  rewrite extractAddressLE_loop_spec by (simpl; lia).
  rewrite <- le_value_rev. f_equal.
  replace (offset + 0)%nat with offset by lia. simpl. lia.
Qed.

Lemma extractLE_bounded_spec (bound : nat) (data : list byte) (offset : nat) :
  forall (n i : nat) (value : Z),
    (offset + bound <= length data)%nat -> (i + n = bound)%nat -> (bound <= 32)%nat ->
    0 <= value < 2 ^ (8 * Z.of_nat i) ->
    extractLE_bounded bound data offset i (S n) value
    = Ok (value + 2 ^ (8 * Z.of_nat i) * le_value (slice data (offset + i) n)).
Proof.
  induction n as [| n IH]; intros i value Hlen Hi Hb32 Hv.
  - cbn [extractLE_bounded].
    replace (i <? bound)%nat with false by (symmetry; apply Nat.ltb_ge; lia).
    cbn. f_equal. unfold slice. rewrite take_0. simpl. lia.
  - destruct (lookup_lt_is_Some_2 data (offset + i)%nat ltac:(lia)) as [b Hb].
    remember (S n) as m eqn:Hm.
    cbn [extractLE_bounded].
    replace (i <? bound)%nat with true by (symmetry; apply Nat.ltb_lt; lia).
    replace (offset + i <? length data)%nat with true
      by (symmetry; apply Nat.ltb_lt; lia).
    cbn [andb]. rewrite (byte_at_lookup _ _ _ Hb). cbn [bind].
    pose proof (u8_range b) as Hu.
    assert (Hpow : 2 ^ (8 * Z.of_nat (S i)) = 256 * 2 ^ (8 * Z.of_nat i)).
    { replace (8 * Z.of_nat (S i)) with (8 + 8 * Z.of_nat i) by lia.
      rewrite Z.pow_add_r by lia. reflexivity. }
    assert (Hsh : 0 <= Z.shiftl (u8 b) (8 * Z.of_nat i) < 2 ^ 256).
    { rewrite Z.shiftl_mul_pow2 by lia. split; [nia | ].
      apply Z.lt_le_trans with (2 ^ (8 * Z.of_nat (S i))); [rewrite Hpow; nia | ].
      apply Z.pow_le_mono_r; lia. }
    rewrite wrap_small by lia.
    rewrite lor_shiftl_add by lia.
    subst m. rewrite IH; [ | lia | lia | lia | rewrite Hpow; nia ].
    f_equal. rewrite (slice_cons _ _ _ _ Hb). cbn [le_value].
    replace (offset + S i)%nat with (S (offset + i)) by lia.
    rewrite Hpow. ring.
Qed.

Lemma extractChainIdLE_spec (data : list byte) (offset : nat) :
  (offset + 3 <= length data)%nat ->
  _extractChainIdLE data offset = Ok (le_value (slice data offset 3)).
Proof.
  intros H. unfold _extractChainIdLE.
  rewrite (extractLE_bounded_spec 3 data offset 3 0) by (simpl; lia).
  f_equal. replace (offset + 0)%nat with offset by lia. simpl (2 ^ _). lia.
Qed.

Lemma copy_bytes_ok (payload : list byte) (offset : nat) :
  forall n i, (offset + i + n <= length payload)%nat ->
    exists l, copy_bytes payload offset i n = Ok l.
Proof.
  induction n as [| n IH]; intros i Hlen; cbn [copy_bytes]; [eauto | ].
  destruct (lookup_lt_is_Some_2 payload (offset + i)%nat ltac:(lia)) as [b Hb].
  rewrite (byte_at_lookup _ _ _ Hb). cbn [bind].
  destruct (IH (S i)) as [l Hl]; [lia | ]. rewrite Hl. cbn. eauto.
Qed.

Lemma extractAndReverseAddress_ok (payload : list byte) (offset : nat) :
  (offset + 20 <= length payload)%nat ->
  exists a, extractAndReverseAddress payload offset = Ok a.
Proof.
  intros H. unfold extractAndReverseAddress.
  replace (offset + 20 <=? length payload)%nat with true
    by (symmetry; apply Nat.leb_le; lia).
  cbn [require bind].
  destruct (copy_bytes_ok payload offset 20 0) as [l Hl]; [lia | ].
  rewrite Hl. cbn. eauto.
Qed.

Lemma extractAndReverseUint16_ok (payload : list byte) (offset : nat) :
  (offset + 2 <= length payload)%nat ->
  exists a, extractAndReverseUint16 payload offset = Ok a.
Proof.
  intros H. unfold extractAndReverseUint16.
  replace (offset + 2 <=? length payload)%nat with true
    by (symmetry; apply Nat.leb_le; lia).
  cbn [require bind].
  destruct (lookup_lt_is_Some_2 payload offset ltac:(lia)) as [b0 Hb0].
  destruct (lookup_lt_is_Some_2 payload (offset + 1)%nat ltac:(lia)) as [b1 Hb1].
  rewrite (byte_at_lookup _ _ _ Hb0), (byte_at_lookup _ _ _ Hb1). cbn. eauto.
Qed.

Lemma parsePayload_total (payload : list byte) :
  (75 <= length payload)%nat -> exists p, parsePayload payload = Ok p.
Proof.
  intros H. unfold parsePayload.
  replace (75 <=? length payload)%nat with true
    by (symmetry; apply Nat.leb_le; lia).
  cbn [require bind].
  destruct (extractAndReverseAddress_ok payload 32) as [a5 ->]; [lia | ].
  destruct (extractAndReverseUint16_ok payload 52) as [cid ->]; [lia | ].
  destruct (lookup_lt_is_Some_2 payload 54%nat ltac:(lia)) as [b Hb].
  rewrite (byte_at_lookup _ _ _ Hb).
  destruct (extractAndReverseAddress_ok payload 55) as [a7 ->]; [lia | ].
  cbn. eauto.
Qed.

Lemma verify_decode_long (payload : list byte) :
  (116 <= length payload)%nat ->
  verify_decode payload =
    Ok {| cf_safe := be_value (rev (slice payload 55 20));
          cf_candidate := be_value (rev (slice payload 96 20));
          cf_chainId := le_value (slice payload 52 3) |}.
Proof.
  intros H. unfold verify_decode.
  replace (116 <=? length payload)%nat with true
    by (symmetry; apply Nat.leb_le; lia).
  cbn [require bind].
  rewrite !extractAddressLE_spec by lia.
  rewrite extractChainIdLE_spec by lia. reflexivity.
Qed.

(** C7. For every payload the compact-layout path accepts (at least 116
    bytes), the chain id is the little-endian value of exactly the three
    bytes at offsets 52, 53 and 54, and the safe and candidate addresses are
    the byte-order reversals of the 20 bytes at offsets 55 and 96. *)
Theorem verify_decode_compact_layout (payload : list byte) :
  (116 <= length payload)%nat ->
  exists b0 b1 b2 : byte,
    payload !! 52%nat = Some b0 /\ payload !! 53%nat = Some b1 /\
    payload !! 54%nat = Some b2 /\
    verify_decode payload =
      Ok {| cf_safe := be_value (rev (slice payload 55 20));
            cf_candidate := be_value (rev (slice payload 96 20));
            cf_chainId := u8 b0 + 256 * u8 b1 + 65536 * u8 b2 |}.
Proof.
  intros H.
  destruct (lookup_lt_is_Some_2 payload 52%nat ltac:(lia)) as [b0 Hb0].
  destruct (lookup_lt_is_Some_2 payload 53%nat ltac:(lia)) as [b1 Hb1].
  destruct (lookup_lt_is_Some_2 payload 54%nat ltac:(lia)) as [b2 Hb2].
  exists b0, b1, b2. repeat split; try assumption.
  rewrite verify_decode_long by lia. do 2 f_equal.
  rewrite (slice_cons _ _ _ _ Hb0), (slice_cons _ _ _ _ Hb1),
    (slice_cons _ _ _ _ Hb2).
  cbn [le_value]. unfold slice. rewrite take_0. cbn [le_value]. lia.
Qed.

Lemma parsePayload_short (payload : list byte) :
  (length payload < 75)%nat ->
  parsePayload payload = Revert (Require "Payload too short").
Proof.
  intros H. unfold parsePayload.
  replace (75 <=? length payload)%nat with false
    by (symmetry; apply Nat.leb_gt; lia).
  reflexivity.
Qed.

Lemma verify_decode_short (payload : list byte) :
  (length payload < 116)%nat ->
  verify_decode payload = Revert (Require "payload too short").
Proof.
  intros H. unfold verify_decode.
  replace (116 <=? length payload)%nat with false
    by (symmetry; apply Nat.leb_gt; lia).
  reflexivity.
Qed.

(** C9. Decoding is all-or-nothing: a payload shorter than the bytes the
    layout reads (75 for [parsePayload], 116 for the compact path of
    [verify]) is refused with the too-short error before any field is
    extracted, and a payload of at least that length yields every field. *)
Theorem decode_all_or_nothing (payload : list byte) :
  ((length payload < 75)%nat ->
     parsePayload payload = Revert (Require "Payload too short")) /\
  ((75 <= length payload)%nat -> exists p, parsePayload payload = Ok p) /\
  ((length payload < 116)%nat ->
     verify_decode payload = Revert (Require "payload too short")) /\
  ((116 <= length payload)%nat -> exists f, verify_decode payload = Ok f).
Proof.
  split; [apply parsePayload_short | ].
  split; [apply parsePayload_total | ].
  split; [apply verify_decode_short | ].
  intros H. rewrite verify_decode_long by lia. eauto.
Qed.

(** *** Byte reversal *)

Lemma fold_lor_testbit (f : nat -> Z) (n : Z) :
  forall (l : list nat) (a : Z),
    Z.testbit (fold_left (fun acc i => Z.lor acc (f i)) l a) n
    = Z.testbit a n || existsb (fun i => Z.testbit (f i) n) l.
Proof.
  induction l as [| i l IH]; intros a; cbn [fold_left existsb].
  - rewrite orb_false_r. reflexivity.
  - rewrite IH, Z.lor_spec, orb_assoc. reflexivity.
Qed.

Lemma wrap_testbit (w x n : Z) :
  0 <= w -> 0 <= n -> Z.testbit (wrap w x) n = Z.testbit x n && (n <? w).
Proof.
  intros Hw Hn. unfold wrap, mask.
  rewrite Z.land_spec, Z.testbit_ones_nonneg by lia. reflexivity.
Qed.

Lemma rb_term_testbit (x : Z) (i : nat) (n : Z) :
  (i < 20)%nat -> 0 <= n ->
  Z.testbit (rb_term x i) n
  = (8 * Z.of_nat i <=? n) && (n <? 8 * Z.of_nat i + 8)
    && Z.testbit x (n + 152 - 16 * Z.of_nat i).
Proof.
  intros Hi Hn. unfold rb_term.
  rewrite wrap_testbit, Z.shiftl_spec by lia.
  destruct (Z.leb_spec (8 * Z.of_nat i) n) as [Hle | Hgt].
  - rewrite Z.shiftr_spec, wrap_testbit, Z.shiftl_spec by lia.
    replace (n - 8 * Z.of_nat i + 152 - Z.of_nat i * 8)
      with (n + 152 - 16 * Z.of_nat i) by lia.
    destruct (Z.ltb_spec n (8 * Z.of_nat i + 8)) as [Hlt | Hge].
    + replace (n - 8 * Z.of_nat i + 152 <? 160) with true
        by (symmetry; apply Z.ltb_lt; lia).
      replace (n <? 160) with true by (symmetry; apply Z.ltb_lt; lia).
      cbn. rewrite !andb_true_r. reflexivity.
    + replace (n - 8 * Z.of_nat i + 152 <? 160) with false
        by (symmetry; apply Z.ltb_ge; lia).
      cbn. rewrite andb_false_r. reflexivity.
  - rewrite Z.testbit_neg_r by lia. reflexivity.
Qed.

Lemma reverseBytes20_fold (x : Z) :
  reverseBytes20 x = fold_left (fun acc i => Z.lor acc (rb_term x i)) (seq 0 20) 0.
Proof. reflexivity. Qed.

Lemma reverseBytes20_testbit (x n : Z) :
  0 <= n ->
  Z.testbit (reverseBytes20 x) n
  = (n <? 160) && Z.testbit x (n + 152 - 16 * (n / 8)).
Proof.
  intros Hn. rewrite reverseBytes20_fold, fold_lor_testbit, Z.bits_0.
  cbn [orb]. apply eq_true_iff_eq. rewrite existsb_exists, andb_true_iff.
  split.
  - intros (i & Hin & Hbit). apply in_seq in Hin.
    rewrite rb_term_testbit in Hbit by lia.
    apply andb_true_iff in Hbit as [Hr Hx].
    apply andb_true_iff in Hr as [Hlo Hhi].
    apply Z.leb_le in Hlo. apply Z.ltb_lt in Hhi.
    assert (Hq : n / 8 = Z.of_nat i) by (Z.div_mod_to_equations; lia).
    rewrite Hq. split; [apply Z.ltb_lt; lia | assumption].
  - intros [Hlt Hx]. apply Z.ltb_lt in Hlt.
    assert (Hq : 0 <= n / 8 < 20) by (Z.div_mod_to_equations; lia).
    exists (Z.to_nat (n / 8)). split.
    + apply in_seq. lia.
    + rewrite rb_term_testbit by lia.
      rewrite Z2Nat.id by lia. rewrite Hx, andb_true_r.
      apply andb_true_iff.
      split; [apply Z.leb_le | apply Z.ltb_lt]; Z.div_mod_to_equations; lia.
Qed.

Lemma reverseBytes20_range (x : Z) : 0 <= reverseBytes20 x < 2 ^ 160.
Proof.
  assert (Hnn : 0 <= reverseBytes20 x).
  { apply Z.bits_iff_nonneg_ex. exists 160. intros m Hm.
    rewrite reverseBytes20_testbit by lia.
    replace (m <? 160) with false by (symmetry; apply Z.ltb_ge; lia).
    reflexivity. }
  split; [assumption | ].
  destruct (Z.eq_dec (reverseBytes20 x) 0) as [-> | Hne]; [lia | ].
  apply Z.log2_lt_pow2; [lia | ].
  destruct (Z.lt_ge_cases (Z.log2 (reverseBytes20 x)) 160) as [Hlt | Hge]; [assumption | ].
  pose proof (Z.bit_log2 (reverseBytes20 x) ltac:(lia)) as Hbit.
  rewrite reverseBytes20_testbit in Hbit by lia.
  replace (Z.log2 (reverseBytes20 x) <? 160) with false in Hbit
    by (symmetry; apply Z.ltb_ge; lia).
  discriminate.
Qed.

Lemma reverseBytes20_involutive (x : Z) :
  0 <= x < 2 ^ 160 -> reverseBytes20 (reverseBytes20 x) = x.
Proof.
  intros Hx. apply Z.bits_inj'. intros n Hn.
  rewrite reverseBytes20_testbit by lia.
  destruct (Z.ltb_spec n 160) as [Hlt | Hge]; cbn [andb].
  - assert (Hq : 0 <= n / 8 < 20 /\ 0 <= n - 8 * (n / 8) < 8)
      by (Z.div_mod_to_equations; lia).
    rewrite reverseBytes20_testbit by lia.
    replace (n + 152 - 16 * (n / 8) <? 160) with true
      by (symmetry; apply Z.ltb_lt; lia).
    cbn [andb]. f_equal.
    assert (Hq' : (n + 152 - 16 * (n / 8)) / 8 = 19 - n / 8).
    { symmetry. apply (Z.div_unique _ 8 _ (n - 8 * (n / 8))); lia. }
    rewrite Hq'. lia.
  - symmetry. apply (testbit_above x 160 n); lia.
Qed.

(** The repository's own test vectors (test/PayloadExtractor.t.sol). *)
Example test_ParseFullPayload :
  parsePayload Scenario.PAYLOAD
  = Ok {| txId := 0x1d3981b4c1f92b6633fc5acd8e02aa4859240122f1a1f1c40ed847c8bf2e6947;
          addressField5 := 0x02fda8ea1daE25d1F5FaFCA5Efe27E086Fd5a00A;
          chainId := 0x6eee;
          amount := 6;
          addressField7 := 0x1234567890AbcdEF1234567890aBcdef12345678 |}.
Proof. vm_compute. reflexivity. Qed.

Example test_RevertsOnShortPayload :
  parsePayload [x12; x34; x56; x78; x90] = Revert (Require "Payload too short").
Proof. reflexivity. Qed.

Example test_ByteReversal :
  reverseBytes20 0x78563412efcdab9078563412efcdab9078563412
  = 0x1234567890AbcdEF1234567890aBcdef12345678.
Proof. vm_compute. reflexivity. Qed.

(** On the same bytes the compact path reads a three-byte chain id (421614)
    where [parsePayload] reads two bytes (0x6eee) and a one-byte amount. *)
Example compact_chain_id_is_three_bytes :
  verify_decode Scenario.COMPACT_PAYLOAD
  = Ok {| cf_safe := 0x1234567890AbcdEF1234567890aBcdef12345678;
          cf_candidate := 0xc3000000000000000000000000000000000000d4;
          cf_chainId := 421614 |} /\
  extractAndReverseUint16 Scenario.COMPACT_PAYLOAD 52 = Ok 0x6eee.
Proof. vm_compute. split; reflexivity. Qed.

Lemma verify_decode_compact_layout_witness :
  (116 <= length Scenario.COMPACT_PAYLOAD)%nat /\
  verify_decode Scenario.COMPACT_PAYLOAD
  = Ok {| cf_safe := be_value (rev (slice Scenario.COMPACT_PAYLOAD 55 20));
          cf_candidate := be_value (rev (slice Scenario.COMPACT_PAYLOAD 96 20));
          cf_chainId := u8 xee + 256 * u8 x6e + 65536 * u8 x06 |}.
Proof.
  assert (Hlen : (116 <= length Scenario.COMPACT_PAYLOAD)%nat)
    by (apply Nat.leb_le; reflexivity).
  split; [exact Hlen | ].
  destruct (verify_decode_compact_layout Scenario.COMPACT_PAYLOAD Hlen)
    as (b0 & b1 & b2 & H0 & H1 & H2 & Hdec).
  injection H0 as <-. injection H1 as <-. injection H2 as <-. exact Hdec.
Defined.

Lemma decode_all_or_nothing_witness :
  parsePayload (replicate 10 x00) = Revert (Require "Payload too short") /\
  verify_decode (replicate 10 x00) = Revert (Require "payload too short") /\
  (exists p, parsePayload Scenario.PAYLOAD = Ok p) /\
  (exists f, verify_decode Scenario.COMPACT_PAYLOAD = Ok f).
Proof.
  destruct (decode_all_or_nothing (replicate 10 x00)) as (Hp & _ & Hv & _).
  destruct (decode_all_or_nothing Scenario.PAYLOAD) as (_ & Hp' & _ & _).
  destruct (decode_all_or_nothing Scenario.COMPACT_PAYLOAD) as (_ & _ & _ & Hv').
  split; [apply Hp; cbn; lia | ]. split; [apply Hv; cbn; lia | ].
  split; [apply Hp' | apply Hv']; apply Nat.leb_le; reflexivity.
Defined.

(** C10. On the input of the repository's own reversal test, the loop
    returns the reversed address, while the assembly version, which reads the
    low bytes of a stack word whose low 96 bits are the padding of the
    left-aligned [bytes20], returns only the reversal of the last eight
    bytes: the two implementations differ. (The loop itself is an involution,
    [reverseBytes20_involutive].) *)
Theorem reverseBytes20Assembly_differs :
  let input := 0x78563412efcdab9078563412efcdab9078563412 in
  reverseBytes20 input = 0x1234567890abcdef1234567890abcdef12345678 /\
  reverseBytes20Assembly input = 0x1234567890abcdef /\
  reverseBytes20Assembly input <> reverseBytes20 input.
Proof.
  vm_compute. repeat split; discriminate.
Qed.

End CodecFacts.

(** ** The replay and authorization guard *)

Module ValidatorFacts.
Import Validator.
Local Open Scope Z_scope.

Lemma owners_loop_spec (a b : list Z) :
  length a = length b ->
  forall (n i : nat), (i + n = length a)%nat ->
    owners_loop a b i n
    = if bool_decide (drop i a = drop i b) then Ok tt else Revert OwnersMismatch.
Proof.
  intros Hlen. induction n as [| n IH]; intros i Hi.
  - cbn. rewrite !drop_ge by lia. rewrite bool_decide_eq_true_2; reflexivity.
  - cbn [owners_loop].
    destruct (lookup_lt_is_Some_2 a i ltac:(lia)) as [x Hx].
    destruct (lookup_lt_is_Some_2 b i ltac:(lia)) as [y Hy].
    rewrite Hx, Hy, (drop_S a x i Hx), (drop_S b y i Hy).
    destruct (Z.eqb_spec x y) as [-> | Hne]; cbn [negb].
    + rewrite IH by lia.
      destruct (decide (drop (S i) a = drop (S i) b)) as [He | He].
      * rewrite !bool_decide_eq_true_2; congruence.
      * rewrite !bool_decide_eq_false_2; congruence.
    + rewrite bool_decide_eq_false_2; congruence.
Qed.

Lemma owners_check_spec (a b : list Z) :
  (if negb (length a =? length b)%nat then Revert OwnersMismatch
   else owners_loop a b 0 (length a))
  = if eqb_list a b then Ok tt else Revert OwnersMismatch.
Proof.
  unfold eqb_list. destruct (Nat.eqb_spec (length a) (length b)) as [He | Hne]; cbn [negb].
  - rewrite owners_loop_spec by lia. reflexivity.
  - rewrite bool_decide_eq_false_2; congruence.
Qed.

Lemma validate_by_guards ext env st callData vaa :
  validate ext env st callData vaa
  = outcome_of_guards (guards ext env st callData vaa).
Proof.
  unfold validate, guards, outcome_of_guards.
  destruct (parseAndVerifyVM ext vaa) as [payload ok].
  destruct (paused st); [reflexivity | ].
  destruct (mapping_get (authorizedModules st) (sender env)); [ | reflexivity].
  destruct ok; [ | reflexivity].
  cbn [negb app first_failure].
  destruct (abi_decode_payload ext payload) as [p | ]; [ | reflexivity].
  cbn [app first_failure].
  destruct (version p =? 1); [ | reflexivity].
  destruct (chainId p =? chainid env); [ | reflexivity].
  rewrite Z.gtb_ltb, Z.ltb_antisym.
  destruct (timestamp env <=? expiry p); [ | reflexivity].
  destruct (mapping_get (consumed st) (nonce p)); [reflexivity | ].
  destruct (selector callData =? applyRecovery_selector ext); [ | reflexivity].
  cbn [negb]. unfold _validateCallData.
  destruct (args callData) as [c | ]; [ | reflexivity].
  cbn [first_failure].
  destruct (callSafe c =? safe p); [ | reflexivity].
  destruct (callThreshold c =? threshold p); [ | reflexivity].
  destruct (callNonce c =? nonce p); [ | reflexivity].
  cbn [negb]. rewrite owners_check_spec.
  destruct (eqb_list (owners p) (callOwners c)); reflexivity.
Qed.

(** A call that [validate] accepts carries exactly the attested intent, and
    the intent's nonce is still unconsumed. *)
Lemma validate_ok_inv ext env st callData vaa v :
  validate ext env st callData vaa = Ok v ->
  exists p c,
    abi_decode_payload ext (fst (parseAndVerifyVM ext vaa)) = Some p /\
    args callData = Some c /\
    mapping_get (consumed st) (nonce p) = false /\
    callSafe c = safe p /\ callThreshold c = threshold p /\
    callNonce c = nonce p /\ callOwners c = owners p /\
    timestamp env <= expiry p /\ chainId p = chainid env /\
    mapping_get (authorizedModules st) (sender env) = true.
Proof.
  rewrite validate_by_guards. unfold outcome_of_guards, guards.
  destruct (parseAndVerifyVM ext vaa) as [payload ok]. cbn [fst].
  destruct (paused st); [discriminate | ].
  destruct (mapping_get (authorizedModules st) (sender env)) eqn:Hau; [ | discriminate].
  destruct ok; [ | discriminate].
  cbn [negb app first_failure].
  destruct (abi_decode_payload ext payload) as [p | ]; [ | discriminate].
  cbn [app first_failure].
  destruct (version p =? 1); [ | discriminate].
  destruct (Z.eqb_spec (chainId p) (chainid env)) as [Hch | ]; [ | discriminate].
  destruct (Z.leb_spec (timestamp env) (expiry p)) as [Hex | ]; [ | discriminate].
  destruct (mapping_get (consumed st) (nonce p)) eqn:Hco; [discriminate | ].
  destruct (selector callData =? applyRecovery_selector ext); [ | discriminate].
  cbn [negb]. destruct (args callData) as [c | ]; [ | discriminate].
  cbn [first_failure].
  destruct (Z.eqb_spec (callSafe c) (safe p)) as [Hs | ]; [ | discriminate].
  destruct (Z.eqb_spec (callThreshold c) (threshold p)) as [Ht | ]; [ | discriminate].
  destruct (Z.eqb_spec (callNonce c) (nonce p)) as [Hn | ]; [ | discriminate].
  unfold eqb_list. destruct (decide (owners p = callOwners c)) as [Ho | Ho].
  - intros _. exists p, c. repeat split; auto.
  - rewrite bool_decide_eq_false_2 by assumption. discriminate.
Qed.

Lemma requireSameArray_loop_spec (a b : list Z) :
  length a = length b ->
  forall (n i : nat), (i + n = length a)%nat ->
    GuardianValidator._requireSameArray_loop a b i n
    = if bool_decide (drop i a = drop i b) then Ok tt else Revert "owners diff"%string.
Proof.
  intros Hlen. induction n as [| n IH]; intros i Hi.
  - cbn. rewrite !drop_ge by lia. rewrite bool_decide_eq_true_2; reflexivity.
  - cbn [GuardianValidator._requireSameArray_loop].
    destruct (lookup_lt_is_Some_2 a i ltac:(lia)) as [x Hx].
    destruct (lookup_lt_is_Some_2 b i ltac:(lia)) as [y Hy].
    rewrite Hx, Hy, (drop_S a x i Hx), (drop_S b y i Hy).
    destruct (Z.eqb_spec x y) as [-> | Hne]; cbn [require bind].
    + rewrite IH by lia.
      destruct (decide (drop (S i) a = drop (S i) b)) as [He | He].
      * rewrite !bool_decide_eq_true_2; congruence.
      * rewrite !bool_decide_eq_false_2; congruence.
    + rewrite bool_decide_eq_false_2; congruence.
Qed.

Lemma guardian_validate_by_guards ext env st callData vaa :
  GuardianValidator.validate ext env st callData vaa
  = outcome_of_guards (GuardianValidator.guards ext env st callData vaa).
Proof.
  unfold GuardianValidator.validate, GuardianValidator.guards, outcome_of_guards.
  destruct (parseAndVerifyVM ext vaa) as [payload ok].
  destruct (GuardianValidator.paused st); [reflexivity | ].
  destruct (GuardianValidator.adapter st =? 0); [reflexivity | ].
  destruct (sender env =? GuardianValidator.adapter st); [ | reflexivity].
  destruct ok; [ | reflexivity].
  cbn [negb require bind app first_failure].
  destruct (abi_decode_payload ext payload) as [p | ]; [ | reflexivity].
  cbn [app first_failure].
  destruct (version p =? 1); [ | reflexivity].
  destruct (chainId p =? chainid env); [ | reflexivity].
  destruct (timestamp env <=? expiry p); [ | reflexivity].
  destruct (mapping_get (GuardianValidator.consumed st) (nonce p)); [reflexivity | ].
  destruct (selector callData =? applyRecovery_selector ext); [ | reflexivity].
  cbn [negb require bind]. unfold GuardianValidator._validateCallData.
  destruct (args callData) as [c | ]; [ | reflexivity].
  cbn [first_failure].
  destruct (callSafe c =? safe p); [ | reflexivity].
  destruct (callThreshold c =? threshold p); [ | reflexivity].
  destruct (callNonce c =? nonce p); [ | reflexivity].
  cbn [require bind]. unfold GuardianValidator._requireSameArray.
  destruct (Nat.eqb_spec (length (owners p)) (length (callOwners c))) as [He | Hne];
    [ | reflexivity].
  cbn [require bind]. rewrite requireSameArray_loop_spec by lia.
  unfold eqb_list. rewrite !drop_0.
  destruct (bool_decide (owners p = callOwners c)); reflexivity.
Qed.

(** C3 (as amended). Both validators run their guards in the order of the
    source --- pause flag, calling module, attestation, then version, chain
    id, expiry, nonce, selector and the call arguments (account, threshold,
    nonce, owners) --- and revert with the error of the first guard that
    fails; when every guard passes they return the magic value. *)
Theorem validate_guard_order ext env st gst callData vaa :
  validate ext env st callData vaa
  = outcome_of_guards (guards ext env st callData vaa) /\
  GuardianValidator.validate ext env gst callData vaa
  = outcome_of_guards (GuardianValidator.guards ext env gst callData vaa).
Proof.
  split; [apply validate_by_guards | apply guardian_validate_by_guards].
Qed.

(** C3, counterexample. With an unauthorized caller and a payload for another
    chain, the order the specification lists reports [WrongChain]; the code
    checks the caller first and reports [NotAuthorizedModule]. *)
Lemma validate_order_counterexample :
  let e := Scenario.env 6 900 Scenario.STRANGER in
  let x := Scenario.external [Scenario.A] 1 in
  let cd := Scenario.callData [Scenario.A] 1 in
  validate_spec_order x e Scenario.validator_fresh cd [] = Revert WrongChain /\
  validate x e Scenario.validator_fresh cd [] = Revert NotAuthorizedModule /\
  validate x e Scenario.validator_fresh cd []
  <> validate_spec_order x e Scenario.validator_fresh cd [].
Proof.
  vm_compute. repeat split; discriminate.
Qed.

(** *** Nonces stay consumed *)

Lemma exec_keeps_consumed ext st c n :
  mapping_get (consumed st) n = true ->
  mapping_get (consumed (exec ext st c)) n = true.
Proof.
  intros Hn. destruct c as [env o]. unfold exec.
  destruct o; cbn.
  - unfold setOwner. destruct (negb _); assumption.
  - unfold setPaused. destruct (negb _); assumption.
  - unfold setModuleAuthorized. destruct (negb _); assumption.
  - unfold onInstall. destruct (20 <=? _)%nat; assumption.
  - assumption.
  - destruct (validate ext env st callData vaa); assumption.
  - unfold markConsumed. destruct (negb _); [assumption | ]. cbn.
    unfold mapping_get in *. destruct (decide (n0 = n)) as [-> | Hne].
    + rewrite lookup_insert_eq. reflexivity.
    + rewrite lookup_insert_ne by assumption. assumption.
Qed.

Lemma run_keeps_consumed ext calls : forall st n,
  mapping_get (consumed st) n = true ->
  mapping_get (consumed (run ext st calls)) n = true.
Proof.
  induction calls as [| c calls IH]; intros st n Hn; cbn; [assumption | ].
  apply IH. apply exec_keeps_consumed. assumption.
Qed.

(** C2 (as amended). A consumed nonce stays consumed through every sequence
    of calls to the validator, and from then on no [validate] call that
    presents it succeeds, whatever owners and threshold the call carries; the
    error is [NonceAlreadyConsumed] whenever the guards checked before the
    nonce pass (not paused, authorized caller, verified VAA, version 1, right
    chain, not expired). *)
Theorem consumed_nonce_is_final ext st calls n env callData vaa payload ok p :
  mapping_get (consumed st) n = true ->
  parseAndVerifyVM ext vaa = (payload, ok) ->
  abi_decode_payload ext payload = Some p ->
  nonce p = n ->
  let st' := run ext st calls in
  mapping_get (consumed st') n = true /\
  (forall v, validate ext env st' callData vaa <> Ok v) /\
  (paused st' = false ->
   mapping_get (authorizedModules st') (sender env) = true ->
   ok = true -> version p = 1 -> chainId p = chainid env ->
   timestamp env <= expiry p ->
   validate ext env st' callData vaa = Revert NonceAlreadyConsumed).
Proof.
  intros Hn Hvm Hdec Hp st'.
  assert (Hn' : mapping_get (consumed st') n = true)
    by (apply run_keeps_consumed; assumption).
  split; [assumption | ]. split.
  - intros v. unfold validate. rewrite Hvm, Hdec, Hp, Hn'.
    destruct (paused st'); [discriminate | ].
    destruct (negb (mapping_get _ _)); [discriminate | ].
    destruct (negb ok); [discriminate | ].
    destruct (negb (version p =? 1)); [discriminate | ].
    destruct (negb (chainId p =? chainid env)); [discriminate | ].
    destruct (timestamp env >? expiry p); discriminate.
  - intros Hpa Hau Hok Hver Hch Hex. unfold validate.
    rewrite Hvm, Hdec, Hp, Hn', Hpa, Hau, Hok, Hver, Hch.
    rewrite !Z.eqb_refl. cbn [negb].
    replace (timestamp env >? expiry p) with false
      by (symmetry; rewrite Z.gtb_ltb; apply Z.ltb_ge; lia).
    reflexivity.
Qed.

Lemma consumed_nonce_is_final_witness :
  mapping_get (consumed Scenario.validator_used) Scenario.NONCE = true /\
  validate (Scenario.external [Scenario.D] 1)
    (Scenario.env 5 900 Scenario.MODULE) Scenario.validator_used
    (Scenario.callData [Scenario.D] 1) []
  = Revert NonceAlreadyConsumed.
Proof.
  pose proof (consumed_nonce_is_final
                (Scenario.external [Scenario.D] 1) Scenario.validator_used []
                Scenario.NONCE (Scenario.env 5 900 Scenario.MODULE)
                (Scenario.callData [Scenario.D] 1) [] [] true
                (Scenario.intent [Scenario.D] 1)
                eq_refl eq_refl eq_refl eq_refl) as (H1 & _ & H3).
  split; [exact H1 | ].
  apply H3; try reflexivity. cbn. lia.
Defined.

(** C2, counterexample. A consumed nonce presented after the intent's expiry
    is rejected with [Expired], not [NonceAlreadyConsumed]. *)
Lemma consumed_nonce_counterexample :
  mapping_get (consumed Scenario.validator_used) Scenario.NONCE = true /\
  nonce (Scenario.intent [Scenario.D] 1) = Scenario.NONCE /\
  validate (Scenario.external [Scenario.D] 1)
    (Scenario.env 5 2000 Scenario.MODULE) Scenario.validator_used
    (Scenario.callData [Scenario.D] 1) []
  = Revert Expired /\
  Revert Expired <> (Revert NonceAlreadyConsumed : result error Z).
Proof.
  vm_compute. repeat split; discriminate.
Qed.

End ValidatorFacts.

(** ** The owner-set reconciler *)

Module ReconcilerFacts.
Import Reconciler.
Local Open Scope Z_scope.

Section Generic.
Context {T : Type} `{ISafe T}.
Variable ctx : Ctx.

Lemma bindM_inv {A B} (m : M T A) (k : A -> M T B) w l o :
  bindM m k w = (l, o) ->
  (exists l1 a w1 l2, m w = (l1, Done a w1) /\ k a w1 = (l2, o) /\ l = l1 ++ l2) \/
  (exists e, m w = (l, Reverted e) /\ o = Reverted e).
Proof.
  unfold bindM. destruct (m w) as [l1 [a w1 | e]].
  - destruct (k a w1) as [l2 o2] eqn:Hk. intros [= <- <-].
    left. exists l1, a, w1, l2. auto.
  - intros [= <- <-]. right. exists e. auto.
Qed.

(** *** Combinators of [safe_phase] *)

Lemma safe_phase_ret {A} (a : A) : safe_phase (ret a : M T A).
Proof. intros w l o [= <- <-]. split; [constructor | reflexivity]. Qed.

Lemma safe_phase_read {A} (f : World T -> A) : safe_phase (read f).
Proof. intros w l o [= <- <-]. split; [constructor | reflexivity]. Qed.

Lemma safe_phase_bind {A B} (m : M T A) (k : A -> M T B) :
  safe_phase m -> (forall a, safe_phase (k a)) -> safe_phase (bindM m k).
Proof.
  intros Hm Hk w l o Hrun.
  apply bindM_inv in Hrun as [(l1 & a & w1 & l2 & H1 & H2 & ->) | (e & H1 & ->)].
  - destruct (Hm _ _ _ H1) as [Hl1 Hw1]. destruct (Hk a _ _ _ H2) as [Hl2 Ho].
    cbn in Hw1. split.
    + apply Forall_app. split; [assumption | ].
      eapply Forall_impl; [exact Hl2 | ]. cbn. intros e [He Hc].
      split; [congruence | assumption].
    + destruct o; [congruence | exact I].
  - destruct (Hm _ _ _ H1) as [Hl1 _]. split; [assumption | exact I].
Qed.

Lemma safe_phase_moduleCall (c : SafeCall) : safe_phase (_moduleCall ctx c).
Proof.
  intros w l o. unfold _moduleCall.
  destruct (execTransactionFromModuleReturnData _ _ _); intros [= <- <-];
    (split; [repeat constructor; eauto | cbn; auto]).
Qed.

Lemma safe_phase_add_missing current newOwners :
  forall keep, safe_phase (add_missing ctx current newOwners keep).
Proof.
  induction newOwners as [| o rest IH]; intros keep; cbn [add_missing].
  - apply safe_phase_ret.
  - destruct (find_owner current o 0); [apply IH | ].
    apply safe_phase_bind; [apply safe_phase_read | intros thr].
    apply safe_phase_bind; [apply safe_phase_moduleCall | intros _; apply IH].
Qed.

Lemma safe_phase_remove_unkept current keep :
  forall n j, safe_phase (remove_unkept ctx current keep j n).
Proof.
  induction n as [| n IH]; intros j; cbn [remove_unkept].
  - apply safe_phase_ret.
  - apply safe_phase_bind; [ | intros _; apply IH].
    destruct (negb _); [ | apply safe_phase_ret].
    apply safe_phase_bind; [apply safe_phase_read | intros thr].
    apply safe_phase_moduleCall.
Qed.

Lemma safe_phase_reconcile newOwners newThreshold :
  safe_phase (reconcile ctx newOwners newThreshold).
Proof.
  unfold reconcile.
  apply safe_phase_bind; [apply safe_phase_read | intros current].
  apply safe_phase_bind; [apply safe_phase_add_missing | intros keep].
  apply safe_phase_bind; [apply safe_phase_remove_unkept | intros _].
  apply safe_phase_moduleCall.
Qed.

(** *** Combinators of [checks_success] *)

Lemma checks_ret {A} (a : A) : checks_success (ret a : M T A).
Proof. intros w l a' w' [= <- _ _]. constructor. Qed.

Lemma checks_read {A} (f : World T -> A) : checks_success (read f).
Proof. intros w l a' w' [= <- _ _]. constructor. Qed.

Lemma checks_revert {A} (e : error) : checks_success (revert e : M T A).
Proof. intros w l a' w' [=]. Qed.

Lemma checks_bind {A B} (m : M T A) (k : A -> M T B) :
  checks_success m -> (forall a, checks_success (k a)) -> checks_success (bindM m k).
Proof.
  intros Hm Hk w l b w' Hrun.
  apply bindM_inv in Hrun as [(l1 & a & w1 & l2 & H1 & H2 & ->) | (e & _ & [=])].
  apply Forall_app. split; [eapply Hm | eapply Hk]; eassumption.
Qed.

Lemma checks_moduleCall (c : SafeCall) : checks_success (_moduleCall ctx c).
Proof.
  intros w l a w'. unfold _moduleCall.
  destruct (execTransactionFromModuleReturnData _ _ _); intros [= <- _ _].
  repeat constructor.
Qed.

Lemma checks_consumeNonce (n : Z) : checks_success (consumeNonce ctx n : M T unit).
Proof.
  intros w l a w'. unfold consumeNonce.
  destruct (Validator.markConsumed _ _ _); intros [= <- _ _].
  repeat constructor.
Qed.

Lemma checks_askValidator targetSafe newOwners newThreshold nonce vaa :
  checks_success (askValidator ctx targetSafe newOwners newThreshold nonce vaa : M T unit).
Proof.
  intros w l a w'. unfold askValidator.
  destruct (Validator.validate _ _ _ _ _); [ | intros [=]].
  destruct (negb _); intros [= <- _ _]. constructor.
Qed.

Lemma checks_add_missing current newOwners :
  forall keep, checks_success (add_missing ctx current newOwners keep).
Proof.
  induction newOwners as [| o rest IH]; intros keep; cbn [add_missing].
  - apply checks_ret.
  - destruct (find_owner current o 0); [apply IH | ].
    apply checks_bind; [apply checks_read | intros thr].
    apply checks_bind; [apply checks_moduleCall | intros _; apply IH].
Qed.

Lemma checks_remove_unkept current keep :
  forall n j, checks_success (remove_unkept ctx current keep j n).
Proof.
  induction n as [| n IH]; intros j; cbn [remove_unkept].
  - apply checks_ret.
  - apply checks_bind; [ | intros _; apply IH].
    destruct (negb _); [ | apply checks_ret].
    apply checks_bind; [apply checks_read | intros thr].
    apply checks_moduleCall.
Qed.

Lemma checks_reconcile newOwners newThreshold :
  checks_success (reconcile ctx newOwners newThreshold).
Proof.
  unfold reconcile.
  apply checks_bind; [apply checks_read | intros current].
  apply checks_bind; [apply checks_add_missing | intros keep].
  apply checks_bind; [apply checks_remove_unkept | intros _].
  apply checks_moduleCall.
Qed.

Lemma checks_applyRecovery targetSafe newOwners newThreshold nonce vaa :
  checks_success (applyRecovery ctx targetSafe newOwners newThreshold nonce vaa).
Proof.
  unfold applyRecovery.
  apply checks_bind; [apply checks_read | intros isPaused].
  destruct isPaused; [apply checks_revert | ].
  apply checks_bind; [apply checks_askValidator | intros _].
  apply checks_bind; [apply checks_reconcile | intros _].
  apply checks_consumeNonce.
Qed.

(** C5. If any sub-call of the reconciliation sequence fails --- an owner
    addition, an owner removal, the threshold change or the call that marks
    the nonce consumed --- [applyRecovery] reverts, and the transaction leaves
    the Safe (owners and threshold) and the validator (consumed nonces)
    exactly as they were. *)
Theorem applyRecovery_atomic targetSafe newOwners newThreshold nonce vaa
  (w : World T) (e : Entry T) :
  let m := applyRecovery ctx targetSafe newOwners newThreshold nonce vaa in
  e ∈ log_of m w -> e_success e = false ->
  exists err,
    snd (m w) = Reverted err /\
    transact m w = (w, Some err) /\
    getOwners (safe_state (fst (transact m w))) = getOwners (safe_state w) /\
    getThreshold (safe_state (fst (transact m w))) = getThreshold (safe_state w) /\
    Validator.consumed (validator_state (fst (transact m w)))
    = Validator.consumed (validator_state w).
Proof.
  intros m Hin Hfail. unfold log_of, transact in *.
  destruct (m w) as [l [a w' | err]] eqn:Hrun; cbn in *.
  - exfalso.
    pose proof (checks_applyRecovery _ _ _ _ _ _ _ _ _ Hrun) as Hall.
    rewrite Forall_forall in Hall. specialize (Hall e Hin). congruence.
  - exists err. auto.
Qed.

Lemma askValidator_inv targetSafe newOwners newThreshold nonce vaa
  (w : World T) l o :
  askValidator ctx targetSafe newOwners newThreshold nonce vaa w = (l, o) ->
  l = [] /\
  forall a w', o = Done a w' ->
    w' = w /\
    Validator.mapping_get (Validator.consumed (validator_state w)) nonce = false.
Proof.
  unfold askValidator.
  destruct (Validator.validate _ _ _ _ _) as [v | e] eqn:Hv.
  - destruct (negb _); intros [= <- <-]; (split; [reflexivity | ]);
      intros a w' [=]. subst w'. split; [reflexivity | ].
    apply ValidatorFacts.validate_ok_inv in Hv
      as (p & c & _ & Hc & Hco & _ & _ & Hn & _).
    cbn in Hc. injection Hc as <-. cbn in Hn. rewrite Hn. exact Hco.
  - intros [= <- <-]. split; [reflexivity | intros a w' [=]].
Qed.

Lemma reconcile_ends_with_threshold newOwners newThreshold (w : World T) l a w' :
  reconcile ctx newOwners newThreshold w = (l, Done a w') ->
  exists l0 e, l = l0 ++ [e] /\ e_call e = ToSafe (ChangeThreshold newThreshold).
Proof.
  unfold reconcile. intros Hrun.
  apply bindM_inv in Hrun as [(l1 & cur & w1 & l2 & _ & Hrun & ->) | (e & _ & [=])].
  apply bindM_inv in Hrun as [(l3 & keep & w2 & l4 & _ & Hrun & ->) | (e & _ & [=])].
  apply bindM_inv in Hrun as [(l5 & u & w3 & l6 & _ & Hrun & ->) | (e & _ & [=])].
  unfold _moduleCall in Hrun.
  destruct (execTransactionFromModuleReturnData _ _ _); try discriminate Hrun.
  injection Hrun as <- _.
  eexists (l1 ++ l3 ++ l5), _.
  split; [rewrite <- !app_assoc; reflexivity | reflexivity].
Qed.

(** C4 (as amended). Validation only reads the nonce. In every run of
    [applyRecovery], each owner-set mutation and the threshold change is
    issued while the nonce is still unconsumed; the nonce is marked consumed
    by the last sub-call, after at least one Safe call, so a run that
    succeeds ends with the nonce consumed, and a run that reverts leaves the
    world as it was. *)
Theorem consumption_follows_mutations targetSafe newOwners newThreshold nonce vaa
  (w : World T) :
  let m := applyRecovery ctx targetSafe newOwners newThreshold nonce vaa in
  (forall e c, e ∈ log_of m w -> e_call e = ToSafe c ->
     Validator.mapping_get
       (Validator.consumed (validator_state (e_before e))) nonce = false) /\
  (forall w', snd (m w) = Done tt w' ->
     Validator.mapping_get (Validator.consumed (validator_state w')) nonce = true /\
     exists l0 e,
       log_of m w = l0 ++ [e] /\ l0 <> [] /\
       e_call e = ToValidatorMarkConsumed nonce /\
       Forall (fun e' => exists c, e_call e' = ToSafe c) l0) /\
  (forall err, snd (m w) = Reverted err -> fst (transact m w) = w).
Proof.
  intros m. unfold log_of, transact.
  destruct (m w) as [l o] eqn:Hrun. cbn [fst snd].
  split; [ | split].
  - (* the Safe calls see the nonce unconsumed *)
    intros e c Hin Hcall. unfold m, applyRecovery in Hrun.
    apply bindM_inv in Hrun
      as [(l1 & b & w1 & l2 & [= <- <- <-] & Hrun & ->) | (e0 & [=] & _)].
    cbn [app] in Hin. destruct (module_paused w).
    { injection Hrun as <- _. inversion Hin. }
    apply bindM_inv in Hrun as [(l3 & u & w2 & l4 & Hask & Hrun & ->) | (e0 & Hask & _)].
    2: { apply askValidator_inv in Hask as [-> _]. inversion Hin. }
    apply askValidator_inv in Hask as [-> Hask].
    destruct (Hask u w2 eq_refl) as [-> Hfresh]. cbn [app] in Hin.
    apply bindM_inv in Hrun as [(l5 & u' & w3 & l6 & Hrec & Hrun & ->) | (e0 & Hrec & _)].
    + apply safe_phase_reconcile in Hrec as [Hall Hw3]. cbn in Hw3.
      apply elem_of_app in Hin as [Hin | Hin].
      * rewrite Forall_forall in Hall. destruct (Hall e Hin) as [-> _]. exact Hfresh.
      * unfold consumeNonce in Hrun.
        destruct (Validator.markConsumed _ _ _); injection Hrun as <- _;
          apply list_elem_of_singleton in Hin; subst e; discriminate.
    + apply safe_phase_reconcile in Hrec as [Hall _].
      rewrite Forall_forall in Hall. destruct (Hall e Hin) as [-> _]. exact Hfresh.
  - (* a successful run ends by consuming the nonce *)
    intros w' ->. unfold m, applyRecovery in Hrun.
    apply bindM_inv in Hrun
      as [(l1 & b & w1 & l2 & [= <- <- <-] & Hrun & ->) | (e0 & _ & [=])].
    destruct (module_paused w); [discriminate | ].
    apply bindM_inv in Hrun as [(l3 & u & w2 & l4 & Hask & Hrun & ->) | (e0 & _ & [=])].
    apply askValidator_inv in Hask as [-> Hask].
    destruct (Hask u w2 eq_refl) as [-> Hfresh].
    apply bindM_inv in Hrun as [(l5 & u' & w3 & l6 & Hrec & Hrun & ->) | (e0 & _ & [=])].
    pose proof (reconcile_ends_with_threshold _ _ _ _ _ _ Hrec) as (l0 & e0 & -> & He0).
    apply safe_phase_reconcile in Hrec as [Hall _].
    unfold consumeNonce in Hrun.
    destruct (Validator.markConsumed _ _ _) as [vs' | ] eqn:Hmark;
      injection Hrun as <- Hw'; [ | discriminate].
    subst w'. cbn [validator_state]. split.
    + unfold Validator.markConsumed in Hmark. destruct (negb _); [discriminate | ].
      injection Hmark as <-. cbn. unfold Validator.mapping_get.
      rewrite lookup_insert_eq. reflexivity.
    + eexists (l0 ++ [e0]), _. cbn [app]. split; [reflexivity | ].
      split; [destruct l0; discriminate | ]. split; [reflexivity | ].
      eapply Forall_impl; [exact Hall | ]. cbn. intros e' [_ Hc]. exact Hc.
  - intros err ->. reflexivity.
Qed.

(** The Safe calls issued for current owners [[A; B; C]] and target
    [[A; D]], on any Safe: a prefix (cut at the first failing call) of
    add [D], remove [B] after [A], remove [C] after [B], change threshold.
    The predecessor handed over for [C] is [B], the owner removed by the call
    just before. *)
Lemma reconcile_ABC_AD_calls (A B C D newThreshold : Z) (w : World T) :
  A <> B -> A <> C -> A <> D -> B <> C -> B <> D -> C <> D ->
  getOwners (safe_state w) = [A; B; C] ->
  exists (k : nat) (t1 t2 t3 : Z),
    safe_calls (fst (reconcile ctx [A; D] newThreshold w))
    = take k [ AddOwnerWithThreshold D t1; RemoveOwner A B t2;
               RemoveOwner B C t3; ChangeThreshold newThreshold ] /\
    (forall a w', snd (reconcile ctx [A; D] newThreshold w) = Done a w' -> k = 4%nat).
Proof.
  intros HAB HAC HAD HBC HBD HCD Hown.
  unfold reconcile, bindM, read. rewrite Hown.
  cbn [length replicate add_missing find_owner remove_unkept].
  rewrite Z.eqb_refl.
  rewrite (proj2 (Z.eqb_neq A D) HAD), (proj2 (Z.eqb_neq B D) HBD),
    (proj2 (Z.eqb_neq C D) HCD).
  cbv [bindM read ret _moduleCall add_missing].
  cbn -[Z.eqb take].
  destruct (execTransactionFromModuleReturnData (self ctx) (safe_state w) _) as [s1 | | ].
  2, 3: exists 1%nat, (getThreshold (safe_state w)), 0, 0;
        (split; [reflexivity | intros a w' [=]]).
  cbn -[Z.eqb take].
  destruct (execTransactionFromModuleReturnData (self ctx) s1 _) as [s2 | | ].
  2, 3: exists 2%nat, (getThreshold (safe_state w)), (getThreshold s1), 0;
        (split; [reflexivity | intros a w' [=]]).
  cbn -[Z.eqb take].
  destruct (execTransactionFromModuleReturnData (self ctx) s2 _) as [s3 | | ].
  2, 3: exists 3%nat, (getThreshold (safe_state w)), (getThreshold s1), (getThreshold s2);
        (split; [reflexivity | intros a w' [=]]).
  cbn -[Z.eqb take].
  destruct (execTransactionFromModuleReturnData (self ctx) s3 _) as [s4 | | ].
  all: exists 4%nat, (getThreshold (safe_state w)), (getThreshold s1), (getThreshold s2);
        (split; [reflexivity | intros a w' _; reflexivity]).
Qed.

(** *** The compact-layout entry point *)

(** [verify] accepts a VAA only when its payload has the 116 bytes the
    compact layout reads and carries this chain's id; it then records the VAA
    hash and issues at most one Safe call, the addition of the decoded
    candidate. *)
Lemma verify_accepts (encodedVm : list byte) (w : World T) l w' :
  verify ctx encodedVm w = (l, Done tt w') ->
  let payload := fst (wormhole_parseAndVerifyVM ctx encodedVm) in
  (116 <= length payload)%nat /\
  exists fields,
    Codec.verify_decode payload = Ok fields /\
    Codec.cf_chainId fields = block_chainid ctx /\
    (safe_calls l = [] \/
     exists thr, safe_calls l = [AddOwnerWithThreshold (Codec.cf_candidate fields) thr]) /\
    Validator.mapping_get (consumedVaas w') (keccak256 ctx encodedVm) = true.
Proof.
  unfold verify, bindM, read, revert, markVaaConsumed, ret.
  destruct (module_paused w); [discriminate | ].
  destruct (wormhole_parseAndVerifyVM ctx encodedVm) as [payload valid]. cbn [fst].
  destruct valid; cbn [negb]; [ | discriminate].
  destruct (Validator.mapping_get (consumedVaas w) _); [discriminate | ].
  cbn [app].
  destruct (Codec.verify_decode payload) as [fields | e] eqn:Hdec; [ | discriminate].
  destruct (Z.eqb_spec (Codec.cf_chainId fields) (block_chainid ctx)) as [Hch | ];
    cbn [negb]; [ | discriminate].
  cbn [safe_state].
  assert (Hlen : (116 <= length payload)%nat).
  { destruct (le_lt_dec 116 (length payload)) as [Hle | Hlt]; [assumption | ].
    rewrite CodecFacts.verify_decode_short in Hdec by lia. discriminate. }
  assert (Hrec : forall m : gmap Z bool,
            Validator.mapping_get (<[keccak256 ctx encodedVm := true]> m)
              (keccak256 ctx encodedVm) = true).
  { intros m. unfold Validator.mapping_get. rewrite lookup_insert_eq. reflexivity. }
  destruct (is_owner_loop _ _); cbn [negb].
  - intros [= <- <-]. split; [assumption | ]. exists fields.
    split; [reflexivity | ]. split; [assumption | ].
    split; [left; reflexivity | apply Hrec].
  - unfold _moduleCall. cbn [safe_state].
    destruct (execTransactionFromModuleReturnData _ _ _); intros [= <- Hw'];
      try discriminate.
    subst w'. split; [assumption | ]. exists fields.
    split; [reflexivity | ]. split; [assumption | ].
    split; [right; eexists; reflexivity | apply Hrec].
Qed.

(** A payload shorter than the layout makes [verify] revert with the
    too-short error; the hash recorded just before is rolled back with the
    rest. *)
Lemma verify_short_payload (encodedVm : list byte) (w : World T) :
  let payload := fst (wormhole_parseAndVerifyVM ctx encodedVm) in
  module_paused w = false ->
  snd (wormhole_parseAndVerifyVM ctx encodedVm) = true ->
  Validator.mapping_get (consumedVaas w) (keccak256 ctx encodedVm) = false ->
  (length payload < 116)%nat ->
  verify ctx encodedVm w
  = ([], Reverted (PayloadReverted (Codec.Require "payload too short"))) /\
  fst (transact (verify ctx encodedVm) w) = w.
Proof.
  intros payload Hp Hv Hc Hlen.
  assert (Hrun : verify ctx encodedVm w
                 = ([], Reverted (PayloadReverted (Codec.Require "payload too short")))).
  { unfold verify, bindM, read, revert, markVaaConsumed, ret.
    rewrite Hp. unfold payload in Hlen.
    destruct (wormhole_parseAndVerifyVM ctx encodedVm) as [pl valid].
    cbn [fst snd] in *. subst valid. cbn [negb]. rewrite Hc. cbn [app].
    rewrite CodecFacts.verify_decode_short by lia. reflexivity. }
  split; [exact Hrun | ]. unfold transact. rewrite Hrun. reflexivity.
Qed.

End Generic.

(** *** Runs on the linked-list Safe *)

Section Concrete.
Import Scenario.

(** C1. Current owners [[A; B; C]], target [[A; D]], threshold 1, on a Safe
    whose owners form a linked list: the module adds [D], removes [B] after
    [A], and then asks to remove [C] with predecessor [B] --- read from the
    snapshot taken before any change --- although [B] has just been unlinked
    and the predecessor of [C] is now [A]. The Safe refuses the call, the
    threshold change is never issued, and the recovery reverts. *)
Theorem applyRecovery_stale_predecessor :
  let m := applyRecovery (ctx [A; D] 1) SAFE [A; D] 1 NONCE [] in
  let w := world [A; B; C] in
  view (log_of m w)
  = [ (ToSafe (AddOwnerWithThreshold D 1), true, [A; B; C], false);
      (ToSafe (RemoveOwner A B 1), true, [D; A; B; C], false);
      (ToSafe (RemoveOwner B C 1), false, [D; A; C], false) ] /\
  predecessor SENTINEL [D; A; C] C = Some A /\
  snd (m w) = Reverted SafeCallFailed /\
  transact m w = (w, Some SafeCallFailed).
Proof.
  vm_compute. repeat split; reflexivity.
Qed.

(** C4, counterexample. A recovery that succeeds (current [[A; B; C]], target
    [[A; B; D]]): the addition, the removal and the threshold change all run
    after validation has passed and while the nonce is still unconsumed (last
    component [false]); the nonce is consumed by the fourth sub-call only. *)
Lemma consumption_counterexample :
  let m := applyRecovery (ctx [A; B; D] 1) SAFE [A; B; D] 1 NONCE [] in
  let w := world [A; B; C] in
  view (log_of m w)
  = [ (ToSafe (AddOwnerWithThreshold D 1), true, [A; B; C], false);
      (ToSafe (RemoveOwner B C 1), true, [D; A; B; C], false);
      (ToSafe (ChangeThreshold 1), true, [D; A; B], false);
      (ToValidatorMarkConsumed NONCE, true, [D; A; B], false) ] /\
  Validator.validate (ext (ctx [A; B; D] 1)) (validator_env (ctx [A; B; D] 1))
    (validator_state w) (callData [A; B; D] 1) []
  = Ok Validator.MAGICVALUE /\
  exists w', snd (m w) = Done tt w'.
Proof.
  vm_compute. repeat split; try reflexivity. eexists. reflexivity.
Qed.

Lemma consumption_follows_mutations_witness :
  let m := applyRecovery (ctx [A; B; D] 1) SAFE [A; B; D] 1 NONCE [] in
  let w := world [A; B; C] in
  exists w',
    snd (m w) = Done tt w' /\
    Validator.mapping_get (Validator.consumed (validator_state w')) NONCE = true.
Proof.
  intros m w.
  destruct (snd (m w)) as [[] w' | err] eqn:Hrun; [ | vm_compute in Hrun; discriminate].
  exists w'. split; [reflexivity | ].
  destruct (consumption_follows_mutations (ctx [A; B; D] 1) SAFE [A; B; D] 1
              NONCE [] w) as (_ & Hdone & _).
  destruct (Hdone w' Hrun) as [Hconsumed _]. exact Hconsumed.
Defined.

Lemma applyRecovery_atomic_witness :
  let m := applyRecovery (ctx [A; D] 1) SAFE [A; D] 1 NONCE [] in
  let w := world [A; B; C] in
  exists e err,
    log_of m w !! 2%nat = Some e /\ e_success e = false /\
    snd (m w) = Reverted err /\
    transact m w = (w, Some err).
Proof.
  intros m w.
  destruct (log_of m w !! 2%nat) as [e | ] eqn:He; [ | vm_compute in He; discriminate].
  assert (Hfail : e_success e = false).
  { vm_compute in He. injection He as <-. reflexivity. }
  destruct (applyRecovery_atomic (ctx [A; D] 1) SAFE [A; D] 1 NONCE [] w e)
    as (err & Hsnd & Htx & _).
  - eapply list_elem_of_lookup_2. exact He.
  - exact Hfail.
  - exists e, err. auto.
Defined.

End Concrete.

End ReconcilerFacts.

(** ** The dedup gate *)

Module DedupFacts.
Import Dedup.
Local Open Scope Z_scope.

(** *** The gate *)

Lemma begin_admits_iff (now : Z) (key : string) (r : Relayer) :
  fst (beginProcessingVAA now key r) = true
  <-> (key ∉ inflightVAAs r) /\ ~ recent_success now key r.
Proof.
  unfold beginProcessingVAA, recent_success.
  destruct (processedVAAs r !! key) as [ts | ] eqn:Hts.
  - destruct (Z.ltb_spec (now - ts) (dedupeTTL r)) as [Hlt | Hge]; cbn.
    + split; [discriminate | ]. intros [_ Hno]. exfalso. apply Hno. eauto.
    + destruct (decide (key ∈ inflightVAAs r)) as [Hin | Hout].
      * rewrite bool_decide_eq_true_2 by assumption. cbn.
        split; [discriminate | ]. intros [Hout _]. contradiction.
      * rewrite bool_decide_eq_false_2 by assumption. cbn.
        split; [ | reflexivity]. intros _. split; [assumption | ].
        intros (ts' & [= <-] & Hlt). lia.
  - cbn. destruct (decide (key ∈ inflightVAAs r)) as [Hin | Hout].
    + rewrite bool_decide_eq_true_2 by assumption. cbn.
      split; [discriminate | ]. intros [Hout _]. contradiction.
    + rewrite bool_decide_eq_false_2 by assumption. cbn.
      split; [ | reflexivity]. intros _. split; [assumption | ].
      intros (ts' & [=] & _).
Qed.

Lemma begin_marks_inflight (now : Z) (key : string) (r : Relayer) :
  fst (beginProcessingVAA now key r) = true ->
  inflightVAAs (snd (beginProcessingVAA now key r)) = {[ key ]} ∪ inflightVAAs r /\
  processedVAAs (snd (beginProcessingVAA now key r)) !! key = None.
Proof.
  unfold beginProcessingVAA.
  destruct (processedVAAs r !! key) as [ts | ] eqn:Hts.
  - destruct (now - ts <? dedupeTTL r); cbn; [discriminate | ].
    destruct (bool_decide (key ∈ inflightVAAs r)); cbn; [discriminate | ].
    intros _. split; [reflexivity | apply lookup_delete_eq].
  - cbn. destruct (bool_decide (key ∈ inflightVAAs r)); cbn; [discriminate | ].
    intros _. split; [reflexivity | assumption].
Qed.

Lemma finish_failed_no_record (now1 now2 : Z) (key k : string) (r : Relayer) :
  processedVAAs r !! k = None ->
  processedVAAs (finishProcessingVAA now1 now2 key false r) !! k = None.
Proof.
  intros Hk. cbn. apply map_lookup_filter_None. left. assumption.
Qed.

Lemma finish_releases (now1 now2 : Z) (key : string) (success : bool) (r : Relayer) :
  key ∉ inflightVAAs (finishProcessingVAA now1 now2 key success r).
Proof.
  cbn. intros [_ Hne]%elem_of_difference. apply Hne, elem_of_singleton. reflexivity.
Qed.

(** *** The invariant of the receive loop *)

Lemma remove_first_elem (key k : string) (l : list string) :
  NoDup l -> (k ∈ remove_first key l <-> k ∈ l /\ k <> key).
Proof.
  induction l as [| x l IH]; intros Hnd; cbn.
  - rewrite elem_of_nil. tauto.
  - apply NoDup_cons in Hnd as [Hx Hnd].
    destruct (decide (x = key)) as [-> | Hne].
    + rewrite bool_decide_eq_true_2 by reflexivity. rewrite elem_of_cons.
      split.
      * intros Hin. split; [auto | ]. intros ->. contradiction.
      * intros [[-> | Hin] Hk]; [contradiction | assumption].
    + rewrite bool_decide_eq_false_2 by assumption.
      rewrite !elem_of_cons, IH by assumption.
      split.
      * intros [-> | [Hin Hk]]; auto.
      * intros [[-> | Hin] Hk]; auto.
Qed.

Lemma remove_first_NoDup (key : string) (l : list string) :
  NoDup l -> NoDup (remove_first key l).
Proof.
  induction l as [| x l IH]; intros Hnd; cbn; [constructor | ].
  apply NoDup_cons in Hnd as [Hx Hnd].
  destruct (bool_decide (x = key)); [assumption | ].
  apply NoDup_cons. split; [ | auto].
  intros Hin. apply remove_first_elem in Hin as [Hin _]; auto.
Qed.

Lemma inv_initial : inv initial.
Proof.
  split; [constructor | split].
  - intros k. cbn. rewrite elem_of_nil, elem_of_empty. tauto.
  - intros k Hin. cbn in Hin. apply elem_of_empty in Hin. contradiction.
Qed.

Lemma inv_step (s : System) (e : event) : inv s -> inv (step s e).
Proof.
  intros (Hnd & Hw & Hp). destruct e as [now key | now1 now2 key success]; cbn.
  - destruct (beginProcessingVAA now key (relayer s)) as [admitted r'] eqn:Hb.
    destruct admitted.
    + pose proof (begin_marks_inflight now key (relayer s)) as Hm.
      pose proof (proj1 (begin_admits_iff now key (relayer s))) as Ha.
      rewrite Hb in Hm, Ha. cbn in Hm, Ha.
      destruct (Hm eq_refl) as [Hin Hnone]. destruct (Ha eq_refl) as [Hout _].
      repeat split; cbn.
      * apply NoDup_cons. split; [rewrite Hw; assumption | assumption].
      * rewrite Hin, elem_of_cons, Hw. set_solver.
      * rewrite Hin, elem_of_cons, Hw. set_solver.
      * intros k. rewrite Hin. intros Hk.
        destruct (decide (k = key)) as [-> | Hne]; [assumption | ].
        assert (Hk' : k ∈ inflightVAAs (relayer s)).
        { apply elem_of_union in Hk as [Hk%elem_of_singleton | Hk];
            [contradiction | assumption]. }
        specialize (Hp k Hk'). revert Hb. unfold beginProcessingVAA.
        destruct (processedVAAs (relayer s) !! key).
        -- destruct (_ <? _); [discriminate | ].
           destruct (bool_decide _); intros [= <-]; cbn.
           rewrite lookup_delete_ne by congruence. assumption.
        -- destruct (bool_decide _); intros [= <-]; cbn. assumption.
    + assert (Hsame : inflightVAAs r' = inflightVAAs (relayer s) /\
                      forall k, processedVAAs (relayer s) !! k = None ->
                                processedVAAs r' !! k = None).
      { revert Hb. unfold beginProcessingVAA.
        destruct (processedVAAs (relayer s) !! key).
        - destruct (_ <? _); [intros [= <-]; auto | ].
          destruct (bool_decide _); intros [= <-]; cbn.
          split; [reflexivity | ]. intros k Hk.
          apply lookup_delete_None. auto.
        - destruct (bool_decide _); intros [= <-]; auto. }
      destruct Hsame as [Hin Hpr].
      repeat split; cbn; try assumption.
      * rewrite Hin. apply Hw.
      * rewrite Hin. apply Hw.
      * intros k. rewrite Hin. auto.
  - destruct (decide (key ∈ workers s)) as [Hin | Hout].
    + rewrite bool_decide_eq_true_2 by assumption.
      repeat split; cbn.
      * apply remove_first_NoDup. assumption.
      * rewrite remove_first_elem by assumption. rewrite Hw. set_solver.
      * rewrite remove_first_elem by assumption. rewrite Hw. set_solver.
      * intros k Hk. apply map_lookup_filter_None. left.
        assert (Hk' : k ∈ inflightVAAs (relayer s) /\ k <> key) by set_solver.
        destruct Hk' as [Hk' Hne].
        destruct success; [rewrite lookup_insert_ne by congruence | ]; auto.
    + rewrite bool_decide_eq_false_2 by assumption. exact (conj Hnd (conj Hw Hp)).
Qed.

Lemma step_ttl (s : System) (e : event) :
  dedupeTTL (relayer (step s e)) = dedupeTTL (relayer s).
Proof.
  destruct e as [now key | now1 now2 key success]; cbn.
  - unfold beginProcessingVAA.
    destruct (processedVAAs (relayer s) !! key) as [ts | ].
    + destruct (_ <? _); [reflexivity | ]. destruct (bool_decide _); reflexivity.
    + destruct (bool_decide _); reflexivity.
  - destruct (bool_decide _); reflexivity.
Qed.

Lemma run_ttl (es : list event) :
  dedupeTTL (relayer (run es)) = dedupeTTL NewRelayer.
Proof.
  unfold run. change NewRelayer with (relayer initial). generalize initial.
  induction es as [| e es IH]; intros s; cbn; [reflexivity | ].
  rewrite IH. apply step_ttl.
Qed.

Lemma inv_run (es : list event) : inv (run es).
Proof.
  unfold run. generalize inv_initial. generalize initial.
  induction es as [| e es IH]; intros s Hs; cbn; [assumption | ].
  apply IH. apply inv_step. assumption.
Qed.

(** C6. The gate admits a key exactly when it is not in flight and has no
    success record younger than the TTL. In every state the receive loop can
    reach, no key is held by two workers, an arrival of a key some worker
    holds is dropped, once the worker of a key reports failure the key has no
    success record and is admitted again, whenever it arrives, and once it
    reports success an arrival within the TTL (15 minutes) is dropped. *)
Theorem dedup_gate :
  (forall now key r,
     fst (beginProcessingVAA now key r) = true
     <-> (key ∉ inflightVAAs r) /\ ~ recent_success now key r) /\
  (forall es, NoDup (workers (run es))) /\
  (forall es now key,
     key ∈ workers (run es) ->
     fst (beginProcessingVAA now key (relayer (run es))) = false) /\
  (forall es now1 now2 now key,
     key ∈ workers (run es) ->
     let s := step (run es) (Finish now1 now2 key false) in
     processedVAAs (relayer s) !! key = None /\
     fst (beginProcessingVAA now key (relayer s)) = true) /\
  (forall es now1 now2 now key,
     key ∈ workers (run es) ->
     now2 - now1 <= dedupeTTL NewRelayer ->
     now - now1 < dedupeTTL NewRelayer ->
     let s := step (run es) (Finish now1 now2 key true) in
     fst (beginProcessingVAA now key (relayer s)) = false).
Proof.
  split; [apply begin_admits_iff | ]. split; [ | split; [ | split]].
  - intros es. apply (inv_run es).
  - intros es now key Hin.
    destruct (inv_run es) as (_ & Hw & _).
    apply not_true_is_false. rewrite begin_admits_iff.
    intros [Hout _]. apply Hout, Hw, Hin.
  - intros es now1 now2 now key Hin s.
    destruct (inv_run es) as (Hnd & Hw & Hp).
    assert (Hnone : processedVAAs (relayer s) !! key = None).
    { unfold s. cbn. rewrite bool_decide_eq_true_2 by assumption. cbn.
      apply map_lookup_filter_None. left. apply Hp, Hw, Hin. }
    split; [assumption | ].
    apply begin_admits_iff. split.
    + unfold s. cbn. rewrite bool_decide_eq_true_2 by assumption.
      apply finish_releases.
    + intros (ts & Hts & _). congruence.
  - intros es now1 now2 now key Hin Hswept Hyoung s.
    apply not_true_is_false. rewrite begin_admits_iff.
    intros [_ Hno]. apply Hno. exists now1.
    unfold s. rewrite step_ttl, run_ttl. split; [ | assumption].
    cbn. rewrite bool_decide_eq_true_2 by assumption. cbn.
    apply map_lookup_filter_Some. split; [apply lookup_insert_eq | ].
    cbn. rewrite run_ttl. lia.
Qed.

Lemma dedup_gate_witness :
  let es := [Deliver 100 "vaa"] in
  "vaa" ∈ workers (run es) /\
  fst (beginProcessingVAA 200 "vaa" (relayer (run es))) = false /\
  fst (beginProcessingVAA 300 "vaa"
         (relayer (step (run es) (Finish 250 251 "vaa" false)))) = true /\
  fst (beginProcessingVAA 300 "vaa"
         (relayer (step (run es) (Finish 250 251 "vaa" true)))) = false.
Proof.
  intros es.
  assert (Hin : "vaa" ∈ workers (run es)) by (vm_compute; constructor).
  destruct dedup_gate as (_ & _ & Hheld & Hretry & Hdone).
  split; [exact Hin | ]. split; [ | split].
  - apply Hheld. exact Hin.
  - apply (Hretry es 250 251 300 "vaa" Hin).
  - apply (Hdone es 250 251 300 "vaa" Hin); cbn; lia.
Defined.

End DedupFacts.

(** ** The destination submitter *)

Module SubmitterFacts.
Import Submitter.
Local Open Scope Z_scope.

(** The transaction handed over in the [i]-th round of the loop carries the
    counter and the price read in that round. *)
Lemma retry_loop_txs (net : Network) :
  forall fuel attempt i tx,
    (retry_loop net attempt fuel).1 !! i = Some tx ->
    (i < fuel)%nat /\
    exists c p g,
      nonceAt (rpc net (attempt + i)) = Some c /\
      pendingNonceAt (rpc net (attempt + i)) = Some p /\
      suggestGasPrice (rpc net (attempt + i)) = Some g /\
      tx_nonce tx = Z.max c p /\
      tx_gasPrice tx = if (0 <? attempt + i)%nat then g + g / 5 else g.
Proof.
  induction fuel as [| fuel IH]; intros attempt i tx; cbn [retry_loop].
  - cbn. intros Hi. rewrite lookup_nil in Hi. discriminate.
  - unfold getFreshNonce.
    destruct (nonceAt (rpc net attempt)) as [c | ] eqn:Hc;
      [ | cbn; rewrite lookup_nil; discriminate].
    destruct (pendingNonceAt (rpc net attempt)) as [p | ] eqn:Hp;
      [ | cbn; rewrite lookup_nil; discriminate].
    destruct (suggestGasPrice (rpc net attempt)) as [g | ] eqn:Hg;
      [ | cbn; rewrite lookup_nil; discriminate].
    destruct (signTx (rpc net attempt)); cbn [negb];
      [ | cbn; rewrite lookup_nil; discriminate].
    assert (Hhead : forall l : list Tx,
              ({| tx_nonce := if p >? c then p else c;
                  tx_gasPrice := if (0 <? attempt)%nat then g + g / 5 else g |}
                 :: l) !! i = Some tx ->
              i = 0%nat \/ exists j, i = S j /\ l !! j = Some tx).
    { intros l. destruct i as [| j]; [auto | ]. cbn. eauto. }
    assert (Hzero : i = 0%nat ->
              forall l : list Tx,
              ({| tx_nonce := if p >? c then p else c;
                  tx_gasPrice := if (0 <? attempt)%nat then g + g / 5 else g |}
                 :: l) !! i = Some tx ->
              (i < S fuel)%nat /\
              exists c p g,
                nonceAt (rpc net (attempt + i)) = Some c /\
                pendingNonceAt (rpc net (attempt + i)) = Some p /\
                suggestGasPrice (rpc net (attempt + i)) = Some g /\
                tx_nonce tx = Z.max c p /\
                tx_gasPrice tx = if (0 <? attempt + i)%nat then g + g / 5 else g).
    { intros -> l [= <-]. split; [lia | ].
      rewrite Nat.add_0_r. exists c, p, g. repeat split; try assumption.
      cbn. rewrite Z.gtb_ltb. destruct (Z.ltb_spec c p); lia. }
    destruct (sendTransaction (rpc net attempt)) as [errStr | ].
    + destruct (is_nonce_conflict errStr).
      * destruct (retry_loop net (S attempt) fuel) as [l o] eqn:Hrec. cbn [fst].
        intros Hi. destruct (Hhead l Hi) as [Hi0 | (j & -> & Hj)];
          [exact (Hzero Hi0 l Hi) | ].
        specialize (IH (S attempt) j tx). rewrite Hrec in IH.
        destruct (IH Hj) as (Hlt & c' & p' & g' & H1 & H2 & H3 & H4 & H5).
        split; [lia | ].
        replace (attempt + S j)%nat with (S attempt + j)%nat by lia.
        exists c', p', g'. auto.
      * cbn [fst]. intros Hi. destruct (Hhead [] Hi) as [Hi0 | (j & -> & Hj)];
          [exact (Hzero Hi0 [] Hi) | ].
        rewrite lookup_nil in Hj. discriminate.
    + cbn [fst]. intros Hi. destruct (Hhead [] Hi) as [Hi0 | (j & -> & Hj)];
        [exact (Hzero Hi0 [] Hi) | ].
      rewrite lookup_nil in Hj. discriminate.
Qed.

Lemma retry_loop_all_conflict (net : Network) :
  forall fuel attempt,
    (forall k, (attempt <= k < attempt + fuel)%nat ->
       exists c p g msg,
         nonceAt (rpc net k) = Some c /\ pendingNonceAt (rpc net k) = Some p /\
         suggestGasPrice (rpc net k) = Some g /\ signTx (rpc net k) = true /\
         sendTransaction (rpc net k) = Some msg /\ is_nonce_conflict msg = true) ->
    length (retry_loop net attempt fuel).1 = fuel /\
    (retry_loop net attempt fuel).2 = Revert (ErrNonceConflicts maxRetries).
Proof.
  induction fuel as [| fuel IH]; intros attempt Hall; cbn [retry_loop].
  - split; reflexivity.
  - destruct (Hall attempt ltac:(lia)) as (c & p & g & msg & Hc & Hp & Hg & Hs & Hsend & Hconf).
    unfold getFreshNonce. rewrite Hc, Hp, Hg, Hs, Hsend, Hconf. cbn [negb].
    destruct (retry_loop net (S attempt) fuel) as [l o] eqn:Hrec.
    destruct (IH (S attempt)) as [Hlen Hres].
    { intros k Hk. apply Hall. lia. }
    rewrite Hrec in Hlen, Hres. cbn in *. split; [lia | assumption].
Qed.

Lemma send_txs (net : Network) :
  (SendVerifyTransaction net).1 = []
  \/ (SendVerifyTransaction net).1 = (retry_loop net 0 maxRetries).1.
Proof.
  unfold SendVerifyTransaction. destruct (networkID net); auto.
Qed.

Lemma bid_lookup (l : list Tx) (i : nat) (b : Z) :
  bids l !! i = Some b -> exists tx, l !! i = Some tx /\ tx_gasPrice tx = b.
Proof.
  unfold bids. rewrite list_lookup_fmap.
  destruct (l !! i) as [tx | ]; cbn; [ | discriminate].
  intros [= <-]. eauto.
Qed.

(** C8 (as amended). Every attempt signs with the counter fetched during
    that attempt, the larger of the confirmed and the pending counter, and
    bids the gas price suggested during that attempt, plus a fifth of it from
    the second attempt on. When the suggested price does not fall from one
    attempt to the next and is at least 5 at the first, the second bid is
    strictly above the first and no bid is below the one before it. At most
    three attempts are made, and when all three end in a nonce conflict the
    caller gets an error. *)
Theorem retry_policy (net : Network) :
  let txs := (SendVerifyTransaction net).1 in
  (forall k tx, txs !! k = Some tx ->
     exists c p g,
       nonceAt (rpc net k) = Some c /\ pendingNonceAt (rpc net k) = Some p /\
       suggestGasPrice (rpc net k) = Some g /\
       tx_nonce tx = Z.max c p /\
       tx_gasPrice tx = if (0 <? k)%nat then g + g / 5 else g) /\
  ((forall k g g',
      suggestGasPrice (rpc net k) = Some g ->
      suggestGasPrice (rpc net (S k)) = Some g' -> g <= g') ->
   (forall g, suggestGasPrice (rpc net 0) = Some g -> 5 <= g) ->
   second_bid_higher (bids txs) /\ never_decreasing (bids txs)) /\
  (length txs <= maxRetries)%nat /\
  (networkID net <> None -> all_conflict net ->
   length txs = maxRetries /\
   (SendVerifyTransaction net).2 = Revert (ErrNonceConflicts maxRetries)).
Proof.
  intros txs.
  assert (Htx : forall k tx, txs !! k = Some tx ->
            (k < maxRetries)%nat /\
            exists c p g,
              nonceAt (rpc net k) = Some c /\ pendingNonceAt (rpc net k) = Some p /\
              suggestGasPrice (rpc net k) = Some g /\
              tx_nonce tx = Z.max c p /\
              tx_gasPrice tx = if (0 <? k)%nat then g + g / 5 else g).
  { intros k tx Hk. unfold txs in Hk.
    destruct (send_txs net) as [Hnil | Heq].
    - rewrite Hnil, lookup_nil in Hk. discriminate.
    - rewrite Heq in Hk. apply (retry_loop_txs net maxRetries 0 k tx Hk). }
  split; [intros k tx Hk; apply (Htx k tx Hk) | ].
  split; [ | split].
  - intros Hmono Hfive.
    assert (Hstep : forall i b b', bids txs !! i = Some b -> bids txs !! S i = Some b' ->
              b <= b' /\ (i = 0%nat -> b < b')).
    { intros i b b' Hb Hb'.
      apply bid_lookup in Hb as (tx & Htxi & <-).
      apply bid_lookup in Hb' as (tx' & Htxi' & <-).
      destruct (Htx _ _ Htxi) as (_ & c & p & g & _ & _ & Hg & _ & ->).
      destruct (Htx _ _ Htxi') as (_ & c' & p' & g' & _ & _ & Hg' & _ & ->).
      pose proof (Hmono i g g' Hg Hg') as Hle.
      cbn [Nat.ltb Nat.leb].
      destruct i as [| i]; cbn [Nat.ltb Nat.leb].
      - pose proof (Hfive g Hg). split; [ | intros _]; Z.div_mod_to_equations; lia.
      - split; [Z.div_mod_to_equations; lia | discriminate]. }
    split.
    + intros b1 b2 H1 H2. apply (Hstep 0%nat b1 b2 H1 H2). reflexivity.
    + intros i b b' H1 H2. apply (Hstep i b b' H1 H2).
  - destruct (le_lt_dec (length txs) maxRetries) as [Hle | Hgt]; [assumption | ].
    destruct (lookup_lt_is_Some_2 txs maxRetries Hgt) as [tx Htxk].
    destruct (Htx _ _ Htxk) as [Hlt _]. lia.
  - intros Hid Hall. unfold txs, SendVerifyTransaction.
    destruct (networkID net); [ | contradiction].
    apply retry_loop_all_conflict. intros k Hk. apply Hall. lia.
Qed.

Lemma retry_policy_witness :
  let txs := (SendVerifyTransaction (contended (fun _ => 100))).1 in
  bids txs = [100; 120; 120] /\
  second_bid_higher (bids txs) /\ never_decreasing (bids txs) /\
  (SendVerifyTransaction (contended (fun _ => 100))).2
  = Revert (ErrNonceConflicts 3).
Proof.
  intros txs.
  destruct (retry_policy (contended (fun _ => 100))) as (_ & Hfee & _ & Hbound).
  destruct Hfee as [H2 Hmono].
  { intros k g g' [= <-] [= <-]. lia. }
  { intros g [= <-]. lia. }
  destruct Hbound as [_ Hres].
  { discriminate. }
  { intros k _. exists 7, 9, 100, "nonce too low"%string. repeat split. }
  split; [reflexivity | ]. split; [exact H2 | ]. split; [exact Hmono | exact Hres].
Defined.

(** C8, counterexample. The suggested price falls from 100 to 80 after the
    first attempt: the second bid (96) is below the first (100). *)
Lemma retry_policy_counterexample :
  let price := fun k : nat => match k with O => 100 | _ => 80 end in
  let txs := (SendVerifyTransaction (contended price)).1 in
  bids txs = [100; 96; 96] /\
  ~ second_bid_higher (bids txs) /\ ~ never_decreasing (bids txs).
Proof.
  intros price txs.
  assert (Hb : bids txs = [100; 96; 96]) by reflexivity.
  split; [exact Hb | ]. rewrite Hb. split.
  - intros H. specialize (H 100 96 eq_refl eq_refl). lia.
  - intros H. specialize (H 0%nat 100 96 eq_refl eq_refl). lia.
Qed.

End SubmitterFacts.

(** ** The payload codec: what the readers return *)

Module CodecReaders.
Import Codec CodecFacts.
Local Open Scope Z_scope.

(** *** The two address extractors agree *)

Lemma le_value_testbit (l : list byte) :
  forall n, 0 <= n ->
    Z.testbit (le_value l) n
    = match l !! Z.to_nat (n / 8) with
      | Some b => Z.testbit (u8 b) (n mod 8)
      | None => false
      end.
Proof.
  induction l as [| b l IH]; intros n Hn.
  - cbn. rewrite Z.bits_0. reflexivity.
  - cbn [le_value]. pose proof (u8_range b) as Hb.
    replace (u8 b + 256 * le_value l)
      with (Z.lor (u8 b) (Z.shiftl (le_value l) 8))
      by (rewrite lor_shiftl_add by (simpl; lia); simpl; lia).
    rewrite Z.lor_spec.
    assert (Hq : 0 <= n / 8 /\ n = 8 * (n / 8) + n mod 8 /\ 0 <= n mod 8 < 8)
      by (Z.div_mod_to_equations; lia).
    destruct (Z.lt_ge_cases n 8) as [Hlt | Hge].
    + rewrite Z.shiftl_spec_low by lia. rewrite orb_false_r.
      assert (Hz : n / 8 = 0) by (Z.div_mod_to_equations; lia).
      rewrite Hz. cbn. f_equal. Z.div_mod_to_equations; lia.
    + rewrite (testbit_above (u8 b) 8 n) by (simpl; lia). cbn [orb].
      rewrite Z.shiftl_spec by lia. rewrite IH by lia.
      assert (Hd : (n - 8) / 8 = n / 8 - 1 /\ (n - 8) mod 8 = n mod 8)
        by (Z.div_mod_to_equations; lia).
      destruct Hd as [-> ->].
      replace (Z.to_nat (n / 8)) with (S (Z.to_nat (n / 8 - 1))) by lia.
      reflexivity.
Qed.

Lemma be_value_le_rev (l : list byte) : be_value l = le_value (rev l).
Proof. rewrite le_value_rev, rev_involutive. reflexivity. Qed.

Lemma rev_lookup (l : list byte) (i : nat) :
  (i < length l)%nat -> rev l !! i = l !! (length l - S i)%nat.
Proof.
  intros Hi. rewrite rev_alt. apply (reverse_lookup l i Hi).
Qed.

Lemma reverseBytes20_be_value (l : list byte) :
  length l = 20%nat -> reverseBytes20 (be_value l) = le_value l.
Proof.
  intros Hlen. apply Z.bits_inj'. intros n Hn.
  rewrite reverseBytes20_testbit by lia.
  assert (Hq : 0 <= n / 8 /\ n = 8 * (n / 8) + n mod 8 /\ 0 <= n mod 8 < 8)
    by (Z.div_mod_to_equations; lia).
  rewrite (le_value_testbit l n) by lia.
  destruct (Z.ltb_spec n 160) as [Hlt | Hge]; cbn [andb].
  - rewrite be_value_le_rev, le_value_testbit by lia.
    assert (Hd : (n + 152 - 16 * (n / 8)) / 8 = 19 - n / 8 /\
                 (n + 152 - 16 * (n / 8)) mod 8 = n mod 8)
      by (Z.div_mod_to_equations; lia).
    destruct Hd as [-> ->].
    rewrite rev_lookup by (rewrite Hlen; lia). rewrite Hlen.
    replace (20 - S (Z.to_nat (19 - n / 8)))%nat with (Z.to_nat (n / 8)) by lia.
    reflexivity.
  - rewrite lookup_ge_None_2; [reflexivity | ]. rewrite Hlen.
    assert (20 <= n / 8) by (Z.div_mod_to_equations; lia). lia.
Qed.

Lemma be_valueZ_u8 (l : list byte) : be_valueZ (map u8 l) = be_value l.
Proof.
  unfold be_valueZ, be_value. generalize 0.
  induction l as [| b l IH]; intros acc; cbn; [reflexivity | apply IH].
Qed.

Lemma copy_bytes_spec (payload : list byte) (offset : nat) :
  forall n i, (offset + i + n <= length payload)%nat ->
    copy_bytes payload offset i n = Ok (map u8 (slice payload (offset + i) n)).
Proof.
  induction n as [| n IH]; intros i Hlen; cbn [copy_bytes].
  - unfold slice. rewrite take_0. reflexivity.
  - destruct (lookup_lt_is_Some_2 payload (offset + i)%nat ltac:(lia)) as [b Hb].
    rewrite (byte_at_lookup _ _ _ Hb). cbn [bind].
    rewrite IH by lia. cbn [bind]. rewrite (slice_cons _ _ _ _ Hb).
    replace (offset + S i)%nat with (S (offset + i)) by lia. reflexivity.
Qed.

Lemma extractAndReverseAddress_spec (payload : list byte) (offset : nat) :
  (offset + 20 <= length payload)%nat ->
  extractAndReverseAddress payload offset = Ok (le_value (slice payload offset 20)).
Proof.
  intros H. unfold extractAndReverseAddress.
  replace (offset + 20 <=? length payload)%nat with true
    by (symmetry; apply Nat.leb_le; lia).
  cbn [require bind]. rewrite copy_bytes_spec by lia. cbn [bind].
  replace (offset + 0)%nat with offset by lia.
  rewrite be_valueZ_u8, reverseBytes20_be_value; [reflexivity | ].
  apply slice_length. lia.
Qed.






(** X2. [reverseBytes20] is an involution on 20-byte values and stays within
    160 bits. *)
Theorem reverseBytes20_round_trip (x : Z) :
  0 <= x < 2 ^ 160 ->
  reverseBytes20 (reverseBytes20 x) = x /\ 0 <= reverseBytes20 x < 2 ^ 160.
Proof.
  intros Hx. split; [apply reverseBytes20_involutive; assumption | ].
  apply reverseBytes20_range.
Qed.

Lemma reverseBytes20_round_trip_witness :
  reverseBytes20 (reverseBytes20 0x78563412efcdab9078563412efcdab9078563412)
  = 0x78563412efcdab9078563412efcdab9078563412.
Proof.
  apply (reverseBytes20_round_trip 0x78563412efcdab9078563412efcdab9078563412).
  split; [lia | reflexivity].
Defined.

(** *** The bounded little-endian readers never revert *)

Lemma slice_nil_ge (data : list byte) (o n : nat) :
  (length data <= o)%nat -> slice data o n = [].
Proof. intros H. unfold slice. rewrite drop_ge by lia. apply take_nil. Qed.

Lemma extractLE_bounded_total (bound : nat) (data : list byte) (offset : nat) :
  forall (fuel i : nat) (value : Z),
    (bound < i + fuel)%nat -> (i <= bound)%nat -> (bound <= 32)%nat ->
    0 <= value < 2 ^ (8 * Z.of_nat i) ->
    extractLE_bounded bound data offset i fuel value
    = Ok (value + 2 ^ (8 * Z.of_nat i)
                  * le_value (slice data (offset + i) (bound - i))).
Proof.
  induction fuel as [| fuel IH]; intros i value Hfuel Hi Hb Hv; [lia | ].
  cbn [extractLE_bounded].
  destruct (Nat.ltb_spec i bound) as [Hlt | Hge]; cbn [andb].
  - destruct (Nat.ltb_spec (offset + i) (length data)) as [Hin | Hout].
    + destruct (lookup_lt_is_Some_2 data (offset + i)%nat Hin) as [b Hb'].
      rewrite (byte_at_lookup _ _ _ Hb'). cbn [bind].
      pose proof (u8_range b) as Hu.
      assert (Hpow : 2 ^ (8 * Z.of_nat (S i)) = 256 * 2 ^ (8 * Z.of_nat i)).
      { replace (8 * Z.of_nat (S i)) with (8 + 8 * Z.of_nat i) by lia.
        rewrite Z.pow_add_r by lia. reflexivity. }
      assert (Hsh : 0 <= Z.shiftl (u8 b) (8 * Z.of_nat i) < 2 ^ 256).
      { rewrite Z.shiftl_mul_pow2 by lia. split; [nia | ].
        apply Z.lt_le_trans with (2 ^ (8 * Z.of_nat (S i))); [rewrite Hpow; nia | ].
        apply Z.pow_le_mono_r; lia. }
      rewrite wrap_small by lia. rewrite lor_shiftl_add by lia.
      rewrite IH; [ | lia | lia | lia | rewrite Hpow; nia ].
      f_equal. replace (bound - i)%nat with (S (bound - S i)) by lia.
      rewrite (slice_cons _ _ _ _ Hb'). cbn [le_value].
      replace (offset + S i)%nat with (S (offset + i)) by lia.
      rewrite Hpow. ring.
    + rewrite slice_nil_ge by lia. cbn. f_equal. lia.
  - replace (bound - i)%nat with 0%nat by lia.
    unfold slice. rewrite take_0. cbn. f_equal. lia.
Qed.

Lemma slice_length_le (data : list byte) (o n : nat) :
  (length (slice data o n) <= n)%nat.
Proof. unfold slice. rewrite length_take. lia. Qed.

(** X3. [_extractChainIdLE] and [_extractUint256LE] never revert: they return
    the little-endian value of the bytes present among the 3 (resp. 31) at
    the offset, which is zero from the end of the data on, and stay below
    [2^24] (resp. [2^248]). *)
Theorem bounded_readers_total (data : list byte) (offset : nat) :
  _extractChainIdLE data offset = Ok (le_value (slice data offset 3)) /\
  _extractUint256LE data offset = Ok (le_value (slice data offset 31)) /\
  0 <= le_value (slice data offset 3) < 2 ^ 24 /\
  0 <= le_value (slice data offset 31) < 2 ^ 248 /\
  ((length data <= offset)%nat ->
     _extractChainIdLE data offset = Ok 0 /\ _extractUint256LE data offset = Ok 0).
Proof.
  assert (H3 : _extractChainIdLE data offset = Ok (le_value (slice data offset 3))).
  { unfold _extractChainIdLE.
    rewrite (extractLE_bounded_total 3 data offset 4 0 0) by (simpl; lia).
    f_equal. replace (offset + 0)%nat with offset by lia. simpl (2 ^ _).
    replace (3 - 0)%nat with 3%nat by lia. lia. }
  assert (H31 : _extractUint256LE data offset = Ok (le_value (slice data offset 31))).
  { unfold _extractUint256LE.
    rewrite (extractLE_bounded_total 31 data offset 32 0 0) by (simpl; lia).
    f_equal. replace (offset + 0)%nat with offset by lia. simpl (2 ^ _).
    replace (31 - 0)%nat with 31%nat by lia. lia. }
  assert (Hbound : forall n, 0 <= le_value (slice data offset n) < 2 ^ (8 * Z.of_nat n)).
  { intros n. pose proof (le_value_range (slice data offset n)) as Hr.
    pose proof (slice_length_le data offset n) as Hl.
    split; [lia | ]. apply Z.lt_le_trans with (1 := proj2 Hr).
    apply Z.pow_le_mono_r; lia. }
  split; [exact H3 | ]. split; [exact H31 | ].
  split; [apply (Hbound 3%nat) | ]. split; [apply (Hbound 31%nat) | ].
  intros Hout. rewrite H3, H31, !slice_nil_ge by lia. split; reflexivity.
Qed.

Lemma bounded_readers_total_witness :
  _extractChainIdLE Scenario.PAYLOAD 200 = Ok 0 /\
  _extractUint256LE Scenario.PAYLOAD 200 = Ok 0.
Proof.
  destruct (bounded_readers_total Scenario.PAYLOAD 200) as (_ & _ & _ & _ & H).
  apply H. apply Nat.leb_le. reflexivity.
Defined.

(** *** What [parsePayload] returns *)

Lemma slice_zero (data : list byte) (o : nat) : slice data o 0 = [].
Proof. unfold slice. apply take_0. Qed.

Lemma extractAndReverseUint16_spec (payload : list byte) (offset : nat) :
  (offset + 2 <= length payload)%nat ->
  extractAndReverseUint16 payload offset = Ok (le_value (slice payload offset 2)).
Proof.
  intros H. unfold extractAndReverseUint16.
  replace (offset + 2 <=? length payload)%nat with true
    by (symmetry; apply Nat.leb_le; lia).
  cbn [require bind].
  destruct (lookup_lt_is_Some_2 payload offset ltac:(lia)) as [b0 Hb0].
  destruct (lookup_lt_is_Some_2 payload (S offset) ltac:(lia)) as [b1 Hb1].
  replace (offset + 1)%nat with (S offset) by lia.
  rewrite (byte_at_lookup _ _ _ Hb0), (byte_at_lookup _ _ _ Hb1). cbn [bind].
  rewrite (slice_cons _ _ _ _ Hb0), (slice_cons _ _ _ _ Hb1), slice_zero.
  cbn [le_value].
  pose proof (u8_range b0). pose proof (u8_range b1).
  assert (Hsh : 0 <= Z.shiftl (u8 b1) 8 < 2 ^ 16)
    by (rewrite Z.shiftl_mul_pow2 by lia; simpl; lia).
  rewrite wrap_small by lia.
  rewrite Z.lor_comm, lor_shiftl_add by (simpl; lia). f_equal. simpl. lia.
Qed.

Lemma parsePayload_spec (payload : list byte) :
  (75 <= length payload)%nat ->
  parsePayload payload
  = Ok {| txId := be_value (take 32 payload);
          addressField5 := le_value (slice payload 32 20);
          chainId := le_value (slice payload 52 2);
          amount := le_value (slice payload 54 1);
          addressField7 := le_value (slice payload 55 20) |}.
Proof.
  intros H. unfold parsePayload.
  replace (75 <=? length payload)%nat with true
    by (symmetry; apply Nat.leb_le; lia).
  cbn [require bind].
  rewrite !extractAndReverseAddress_spec by lia. cbn [bind].
  rewrite extractAndReverseUint16_spec by lia. cbn [bind].
  destruct (lookup_lt_is_Some_2 payload 54%nat ltac:(lia)) as [b Hb].
  rewrite (byte_at_lookup _ _ _ Hb). cbn [bind].
  rewrite (slice_cons _ 54 0 _ Hb), slice_zero.
  cbn [le_value]. do 2 f_equal. lia.
Qed.

(** X4. On a payload of at least 75 bytes [parsePayload] returns the first
    32 bytes verbatim as the transaction id and the little-endian values of
    the 20 bytes at 32, the 2 bytes at 52, the byte at 54 and the 20 bytes at
    55; [extractRecipientAddress] and [extractTestAddress] return the same two
    addresses. *)
Theorem parsePayload_fields (payload : list byte) :
  (75 <= length payload)%nat ->
  exists p,
    parsePayload payload = Ok p /\
    txId p = be_value (take 32 payload) /\
    addressField5 p = be_value (rev (slice payload 32 20)) /\
    chainId p = le_value (slice payload 52 2) /\
    amount p = le_value (slice payload 54 1) /\
    addressField7 p = be_value (rev (slice payload 55 20)) /\
    extractRecipientAddress payload = Ok (addressField5 p) /\
    extractTestAddress payload = Ok (addressField7 p).
Proof.
  intros H. eexists. split; [apply parsePayload_spec; assumption | ].
  cbn [txId addressField5 chainId amount addressField7].
  rewrite <- !le_value_rev.
  repeat split.
  - unfold extractRecipientAddress.
    replace (52 <=? length payload)%nat with true
      by (symmetry; apply Nat.leb_le; lia).
    cbn [require bind]. apply extractAndReverseAddress_spec. lia.
  - unfold extractTestAddress.
    replace (75 <=? length payload)%nat with true
      by (symmetry; apply Nat.leb_le; lia).
    cbn [require bind]. apply extractAndReverseAddress_spec. lia.
Qed.

Lemma parsePayload_fields_witness :
  exists p,
    parsePayload Scenario.PAYLOAD = Ok p /\
    addressField7 p = 0x1234567890AbcdEF1234567890aBcdef12345678 /\
    extractTestAddress Scenario.PAYLOAD = Ok (addressField7 p).
Proof.
  destruct (parsePayload_fields Scenario.PAYLOAD) as (p & Hp & _ & _ & _ & _ & H7 & _ & Ht).
  { apply Nat.leb_le. reflexivity. }
  exists p. split; [exact Hp | ]. split; [ | exact Ht].
  rewrite H7. vm_compute. reflexivity.
Defined.

(** X5. The two layouts read the same bytes differently: on a payload of at
    least 116 bytes the chain id of the compact path is [parsePayload]'s
    two-byte chain id plus 65536 times its amount byte, and the compact path's
    safe address is [parsePayload]'s second address. *)
Theorem layouts_overlap (payload : list byte) :
  (116 <= length payload)%nat ->
  exists p f,
    parsePayload payload = Ok p /\ verify_decode payload = Ok f /\
    cf_chainId f = chainId p + 65536 * amount p /\
    cf_safe f = addressField7 p.
Proof.
  intros H. eexists _, _.
  split; [apply parsePayload_spec; lia | ].
  split; [apply verify_decode_long; lia | ].
  cbn [cf_chainId cf_safe chainId amount addressField7].
  split; [ | rewrite le_value_rev; reflexivity].
  destruct (lookup_lt_is_Some_2 payload 52%nat ltac:(lia)) as [b0 Hb0].
  destruct (lookup_lt_is_Some_2 payload 53%nat ltac:(lia)) as [b1 Hb1].
  destruct (lookup_lt_is_Some_2 payload 54%nat ltac:(lia)) as [b2 Hb2].
  rewrite (slice_cons _ 52 2 _ Hb0), (slice_cons _ 53 1 _ Hb1),
    (slice_cons _ 54 0 _ Hb2).
  rewrite (slice_cons _ 52 1 _ Hb0), (slice_cons _ 53 0 _ Hb1).
  rewrite !slice_zero. cbn [le_value]. lia.
Qed.

Lemma layouts_overlap_witness :
  exists p f,
    parsePayload Scenario.COMPACT_PAYLOAD = Ok p /\
    verify_decode Scenario.COMPACT_PAYLOAD = Ok f /\
    cf_chainId f = chainId p + 65536 * amount p.
Proof.
  destruct (layouts_overlap Scenario.COMPACT_PAYLOAD) as (p & f & Hp & Hf & Hc & _).
  { apply Nat.leb_le. reflexivity. }
  exists p, f. auto.
Defined.

End CodecReaders.

(** ** The validators: who can change what *)

Module ValidatorAccess.
Import Validator ValidatorFacts.
Local Open Scope Z_scope.

(** X6. A call that [validate] accepts is exactly the attested one: the
    result is the magic value, the call's account, owners, threshold and nonce
    are those of the decoded intent, the intent is for this chain, not
    expired, its nonce unconsumed, and the caller is an authorized module. *)
Theorem validate_accepts_only_attested ext env st callData vaa v :
  validate ext env st callData vaa = Ok v ->
  v = MAGICVALUE /\
  exists p c,
    abi_decode_payload ext (fst (parseAndVerifyVM ext vaa)) = Some p /\
    args callData = Some c /\
    callSafe c = safe p /\ callOwners c = owners p /\
    callThreshold c = threshold p /\ callNonce c = nonce p /\
    chainId p = chainid env /\ timestamp env <= expiry p /\
    mapping_get (consumed st) (nonce p) = false /\
    mapping_get (authorizedModules st) (sender env) = true.
Proof.
  intros Hv. split.
  - rewrite validate_by_guards in Hv. unfold outcome_of_guards in Hv.
    destruct (first_failure _); congruence.
  - apply validate_ok_inv in Hv
      as (p & c & Hp & Hc & Hco & Hs & Ht & Hn & Ho & Hex & Hch & Hau).
    exists p, c. repeat split; assumption.
Qed.

Lemma validate_accepts_only_attested_witness :
  validate (Scenario.external [Scenario.A; Scenario.D] 1)
    (Scenario.env 5 900 Scenario.MODULE) Scenario.validator_fresh
    (Scenario.callData [Scenario.A; Scenario.D] 1) [] = Ok MAGICVALUE /\
  exists c, args (Scenario.callData [Scenario.A; Scenario.D] 1) = Some c /\
            callOwners c = [Scenario.A; Scenario.D].
Proof.
  assert (Hv : validate (Scenario.external [Scenario.A; Scenario.D] 1)
                 (Scenario.env 5 900 Scenario.MODULE) Scenario.validator_fresh
                 (Scenario.callData [Scenario.A; Scenario.D] 1) [] = Ok MAGICVALUE)
    by (vm_compute; reflexivity).
  split; [exact Hv | ].
  destruct (validate_accepts_only_attested _ _ _ _ _ _ Hv)
    as (_ & p & c & Hp & Hc & _ & Ho & _).
  exists c. split; [exact Hc | ]. rewrite Ho.
  cbn in Hp. injection Hp as <-. reflexivity.
Defined.

(** X7. A caller other than the owner cannot administrate the validator:
    whatever entry point it calls, the owner and the pause flag stay as they
    were and no authorized module loses its authorization. *)
Theorem non_owner_cannot_administrate ext st env o :
  sender env <> owner st ->
  let st' := exec ext st (env, o) in
  owner st' = owner st /\ paused st' = paused st /\
  forall m, mapping_get (authorizedModules st) m = true ->
            mapping_get (authorizedModules st') m = true.
Proof.
  intros Hne st'. unfold st', exec.
  assert (Hneq : negb (sender env =? owner st) = true).
  { apply negb_true_iff. apply Z.eqb_neq. assumption. }
  destruct o; cbn.
  - unfold setOwner. rewrite Hneq. cbn. repeat split; auto.
  - unfold setPaused. rewrite Hneq. cbn. repeat split; auto.
  - unfold setModuleAuthorized. rewrite Hneq. cbn. repeat split; auto.
  - unfold onInstall. destruct (20 <=? _)%nat; cbn; [ | repeat split; auto].
    repeat split. intros m Hm. unfold mapping_get in *.
    destruct (decide (Codec.be_value (take 20 data) = m)) as [-> | Hd].
    + rewrite lookup_insert_eq. reflexivity.
    + rewrite lookup_insert_ne by assumption. assumption.
  - repeat split; auto.
  - destruct (validate ext env st callData vaa); cbn; repeat split; auto.
  - unfold markConsumed. destruct (negb (mapping_get _ _)); cbn; repeat split; auto.
Qed.

Lemma non_owner_cannot_administrate_witness :
  let st' := exec (Scenario.external [] 1) Scenario.validator_fresh
               (Scenario.env 5 900 Scenario.STRANGER,
                OpSetModuleAuthorized Scenario.MODULE false) in
  mapping_get (authorizedModules st') Scenario.MODULE = true.
Proof.
  intros st'.
  destruct (non_owner_cannot_administrate (Scenario.external [] 1)
              Scenario.validator_fresh (Scenario.env 5 900 Scenario.STRANGER)
              (OpSetModuleAuthorized Scenario.MODULE false)) as (_ & _ & H).
  - cbn. discriminate.
  - apply H. reflexivity.
Defined.

(** X8. A nonce becomes consumed only through [markConsumed] of that very
    nonce, called by an authorized module; no other entry point and no other
    caller adds to the consumed set. *)
Theorem consumed_only_by_authorized_module ext st env o n :
  mapping_get (consumed st) n = false ->
  mapping_get (consumed (exec ext st (env, o))) n = true ->
  o = OpMarkConsumed n /\
  mapping_get (authorizedModules st) (sender env) = true.
Proof.
  intros Hfresh. unfold exec. destruct o; cbn.
  - unfold setOwner. destruct (negb _); cbn; congruence.
  - unfold setPaused. destruct (negb _); cbn; congruence.
  - unfold setModuleAuthorized. destruct (negb _); cbn; congruence.
  - unfold onInstall. destruct (20 <=? _)%nat; cbn; congruence.
  - congruence.
  - destruct (validate ext env st callData vaa); cbn; congruence.
  - unfold markConsumed.
    destruct (mapping_get (authorizedModules st) (sender env)) eqn:Hau; cbn;
      [ | congruence].
    unfold mapping_get in *. destruct (decide (n0 = n)) as [-> | Hd].
    + auto.
    + rewrite lookup_insert_ne by assumption. congruence.
Qed.

Lemma consumed_only_by_authorized_module_witness :
  mapping_get
    (consumed (exec (Scenario.external [] 1) Scenario.validator_fresh
                 (Scenario.env 5 900 Scenario.MODULE, OpMarkConsumed 77))) 77 = true /\
  mapping_get (authorizedModules Scenario.validator_fresh) Scenario.MODULE = true.
Proof.
  assert (H : mapping_get
    (consumed (exec (Scenario.external [] 1) Scenario.validator_fresh
                 (Scenario.env 5 900 Scenario.MODULE, OpMarkConsumed 77))) 77 = true)
    by (vm_compute; reflexivity).
  split; [exact H | ].
  apply (consumed_only_by_authorized_module (Scenario.external [] 1)
           Scenario.validator_fresh (Scenario.env 5 900 Scenario.MODULE)
           (OpMarkConsumed 77) 77 eq_refl H).
Defined.

(** X9. [onInstall] has no access control: whoever calls it with at least
    20 bytes authorizes the address in the first 20 bytes, and that address
    can then mark any nonce consumed, after which no [validate] presenting
    the nonce succeeds. *)
Theorem onInstall_authorizes_anyone ext st anyone data n :
  (20 <= length data)%nat ->
  let m := Codec.be_value (take 20 data) in
  let as_m := {| chainid := chainid anyone; timestamp := timestamp anyone;
                 sender := m |} in
  let st' := run ext st [(anyone, OpOnInstall data); (as_m, OpMarkConsumed n)] in
  mapping_get (authorizedModules st') m = true /\
  mapping_get (consumed st') n = true.
Proof.
  intros Hlen m as_m st'. unfold st', run. cbn [fold_left].
  unfold exec at 2. cbn. unfold onInstall.
  replace (20 <=? length data)%nat with true by (symmetry; apply Nat.leb_le; lia).
  unfold exec, markConsumed. cbn. fold m.
  unfold mapping_get. rewrite lookup_insert_eq. cbn.
  rewrite !lookup_insert_eq. split; reflexivity.
Qed.

Lemma onInstall_authorizes_anyone_witness :
  let data := replicate 19 x00 ++ [x66] in
  let st' := run (Scenario.external [] 1) Scenario.validator_fresh
               [(Scenario.env 5 900 Scenario.STRANGER, OpOnInstall data);
                (Scenario.env 5 900 0x66, OpMarkConsumed Scenario.NONCE)] in
  mapping_get (consumed st') Scenario.NONCE = true.
Proof.
  intros data st'.
  destruct (onInstall_authorizes_anyone (Scenario.external [] 1)
              Scenario.validator_fresh (Scenario.env 5 900 Scenario.STRANGER)
              data Scenario.NONCE) as [_ H].
  - cbn. lia.
  - exact H.
Defined.

(** *** The single-adapter validator *)

Lemma guardian_exec_keeps_consumed ext st c n :
  mapping_get (GuardianValidator.consumed st) n = true ->
  mapping_get (GuardianValidator.consumed (GuardianValidator.exec ext st c)) n = true.
Proof.
  intros Hn. destruct c as [env o]. unfold GuardianValidator.exec.
  destruct o; cbn.
  - unfold GuardianValidator.setAdapter. destruct (_ =? _); cbn; assumption.
  - unfold GuardianValidator.setPaused. destruct (_ =? _); cbn; assumption.
  - unfold GuardianValidator.onInstall. destruct (_ && _); cbn; assumption.
  - assumption.
  - destruct (GuardianValidator.validate ext env st callData vaa); assumption.
  - unfold GuardianValidator.markConsumed. destruct (_ =? _); cbn; [ | assumption].
    unfold mapping_get in *. destruct (decide (n0 = n)) as [-> | Hne].
    + rewrite lookup_insert_eq. reflexivity.
    + rewrite lookup_insert_ne by assumption. assumption.
Qed.

(** X10. In the single-adapter validator a consumed nonce stays consumed
    through every sequence of calls, and no [validate] presenting it succeeds
    afterwards. *)
Theorem guardian_consumed_is_final ext st calls n env callData vaa p :
  mapping_get (GuardianValidator.consumed st) n = true ->
  abi_decode_payload ext (fst (parseAndVerifyVM ext vaa)) = Some p ->
  nonce p = n ->
  let st' := GuardianValidator.run ext st calls in
  mapping_get (GuardianValidator.consumed st') n = true /\
  forall v, GuardianValidator.validate ext env st' callData vaa <> Ok v.
Proof.
  intros Hn Hp Hnp st'.
  assert (Hn' : mapping_get (GuardianValidator.consumed st') n = true).
  { unfold st', GuardianValidator.run. clear st'. revert st Hn.
    induction calls as [| c calls IH]; intros st Hn; cbn; [assumption | ].
    apply IH. apply guardian_exec_keeps_consumed. assumption. }
  split; [assumption | ]. intros v.
  rewrite guardian_validate_by_guards. unfold outcome_of_guards, GuardianValidator.guards.
  destruct (parseAndVerifyVM ext vaa) as [payload ok]. cbn [fst] in Hp.
  rewrite Hp, Hnp, Hn'.
  destruct (negb (GuardianValidator.paused st')); cbn; [ | discriminate].
  destruct (negb (GuardianValidator.adapter st' =? 0)); cbn; [ | discriminate].
  destruct (sender env =? GuardianValidator.adapter st'); cbn; [ | discriminate].
  destruct ok; cbn; [ | discriminate].
  destruct (version p =? 1); cbn; [ | discriminate].
  destruct (chainId p =? chainid env); cbn; [ | discriminate].
  destruct (timestamp env <=? expiry p); cbn; discriminate.
Qed.

Lemma guardian_consumed_is_final_witness :
  GuardianValidator.validate (Scenario.external [Scenario.D] 1)
    (Scenario.env 5 900 Scenario.MODULE) Scenario.guardian_used
    (Scenario.callData [Scenario.D] 1) [] = Revert "replay"%string.
Proof.
  destruct (GuardianValidator.validate (Scenario.external [Scenario.D] 1)
    (Scenario.env 5 900 Scenario.MODULE) Scenario.guardian_used
    (Scenario.callData [Scenario.D] 1) []) as [v | e] eqn:Hv.
  - exfalso.
    destruct (guardian_consumed_is_final (Scenario.external [Scenario.D] 1)
                Scenario.guardian_used [] Scenario.NONCE (Scenario.env 5 900 Scenario.MODULE)
                (Scenario.callData [Scenario.D] 1) []
                (Scenario.intent [Scenario.D] 1) eq_refl eq_refl eq_refl) as [_ H].
    exact (H v Hv).
  - vm_compute in Hv. injection Hv as <-. reflexivity.
Defined.

(** X11. The adapter of the single-adapter validator is protected: once an
    adapter is set, a caller other than the owner cannot change it, whatever
    it calls ([onInstall] only fills an unset adapter, and only from exactly
    20 bytes), and only the adapter can mark a nonce consumed. *)
Theorem guardian_adapter_protected ext st env o :
  GuardianValidator.adapter st <> 0 ->
  sender env <> GuardianValidator.owner st ->
  let st' := GuardianValidator.exec ext st (env, o) in
  GuardianValidator.adapter st' = GuardianValidator.adapter st /\
  (forall n, mapping_get (GuardianValidator.consumed st) n = false ->
             mapping_get (GuardianValidator.consumed st') n = true ->
             sender env = GuardianValidator.adapter st /\ o = GuardianValidator.OpMarkConsumed n).
Proof.
  intros Hset Hne st'. unfold st', GuardianValidator.exec.
  assert (Hneq : (sender env =? GuardianValidator.owner st) = false)
    by (apply Z.eqb_neq; assumption).
  assert (Hz : (GuardianValidator.adapter st =? 0) = false)
    by (apply Z.eqb_neq; assumption).
  destruct o; cbn.
  - unfold GuardianValidator.setAdapter. rewrite Hneq. cbn.
    split; [reflexivity | congruence].
  - unfold GuardianValidator.setPaused. rewrite Hneq. cbn.
    split; [reflexivity | congruence].
  - unfold GuardianValidator.onInstall. rewrite Hz. cbn.
    split; [reflexivity | congruence].
  - split; [reflexivity | congruence].
  - destruct (GuardianValidator.validate ext env st callData vaa); cbn;
      (split; [reflexivity | congruence]).
  - unfold GuardianValidator.markConsumed.
    destruct (Z.eqb_spec (sender env) (GuardianValidator.adapter st)) as [He | Hd]; cbn.
    + split; [reflexivity | ]. intros n' Hf Ht. split; [assumption | ].
      unfold mapping_get in *. destruct (decide (n = n')) as [-> | Hd]; [reflexivity | ].
      rewrite lookup_insert_ne in Ht by assumption. congruence.
    + split; [reflexivity | congruence].
Qed.

Lemma guardian_adapter_protected_witness :
  GuardianValidator.adapter
    (GuardianValidator.exec (Scenario.external [] 1) Scenario.guardian_used
       (Scenario.env 5 900 Scenario.STRANGER,
        GuardianValidator.OpOnInstall (replicate 20 x66)))
  = Scenario.MODULE.
Proof.
  destruct (guardian_adapter_protected (Scenario.external [] 1) Scenario.guardian_used
              (Scenario.env 5 900 Scenario.STRANGER)
              (GuardianValidator.OpOnInstall (replicate 20 x66))) as [H _].
  - cbn. discriminate.
  - cbn. discriminate.
  - exact H.
Defined.

End ValidatorAccess.

(** ** The reconciler: the calls it issues *)

Module ReconcilerCalls.
Import Reconciler ReconcilerFacts.
Local Open Scope Z_scope.

Section More.
Context {T : Type} `{ISafe T}.
Variable ctx : Ctx.

(** *** What the reconciler adds and removes *)

Lemma find_owner_None (current : list Z) (o : Z) :
  forall j0, find_owner current o j0 = None <-> o ∉ current.
Proof.
  induction current as [| c rest IH]; intros j0; cbn.
  - split; [intros _; apply not_elem_of_nil | reflexivity].
  - destruct (Z.eqb_spec c o) as [-> | Hne].
    + split; [discriminate | ]. intros Hout. exfalso. apply Hout. left.
    + rewrite IH, not_elem_of_cons. split; [intros Hr; split; congruence | tauto].
Qed.

Lemma find_owner_Some (current : list Z) (o : Z) :
  forall j0 j, find_owner current o j0 = Some j ->
    exists i, j = (j0 + i)%nat /\ current !! i = Some o.
Proof.
  induction current as [| c rest IH]; intros j0 j; cbn; [discriminate | ].
  destruct (Z.eqb_spec c o) as [-> | Hne].
  - intros [= <-]. exists 0%nat. split; [lia | reflexivity].
  - intros Hf. destruct (IH _ _ Hf) as (i & -> & Hi).
    exists (S i). split; [lia | exact Hi].
Qed.

Lemma find_owner_NoDup (current : list Z) (o : Z) :
  NoDup current ->
  forall i j0, current !! i = Some o -> find_owner current o j0 = Some (j0 + i)%nat.
Proof.
  induction 1 as [| c rest Hc Hnd IH]; intros i j0 Hi; [discriminate | ].
  cbn. destruct i as [| i]; cbn in Hi.
  - injection Hi as ->. rewrite Z.eqb_refl. f_equal. lia.
  - destruct (Z.eqb_spec c o) as [-> | Hne].
    + exfalso. apply Hc. eapply list_elem_of_lookup_2. exact Hi.
    + rewrite (IH i (S j0) Hi). f_equal. lia.
Qed.

Lemma safe_calls_app (l1 l2 : list (Entry T)) :
  safe_calls (l1 ++ l2) = safe_calls l1 ++ safe_calls l2.
Proof. unfold safe_calls. apply omap_app. Qed.

Lemma moduleCall_done (c : SafeCall) (w : World T) l a w' :
  _moduleCall ctx c w = (l, Done a w') -> safe_calls l = [c].
Proof.
  unfold _moduleCall.
  destruct (execTransactionFromModuleReturnData _ _ _); intros [= <- _ _].
  reflexivity.
Qed.

Lemma read_inv {A} (f : World T -> A) (w : World T) l o :
  read f w = (l, o) -> l = [] /\ o = Done (f w) w.
Proof. intros [= <- <-]. auto. Qed.

Lemma kept_insert (keep : list bool) (i j : nat) :
  kept (<[i := true]> keep) j = true
  <-> kept keep j = true \/ (i = j /\ (i < length keep)%nat).
Proof.
  unfold kept. rewrite list_lookup_insert. case_decide as Hd.
  - cbn. tauto.
  - split; [tauto | ]. intros [Hk | Hij]; [assumption | contradiction].
Qed.

Lemma add_missing_done (current : list Z) (newOwners : list Z) :
  forall keep (w : World T) l keep' w',
    add_missing ctx current newOwners keep w = (l, Done keep' w') ->
    Forall2 (fun c o => exists t, c = AddOwnerWithThreshold o t)
      (safe_calls l) (filter (fun o => o ∉ current) newOwners) /\
    length keep' = length keep /\
    forall j, kept keep' j = true
              <-> kept keep j = true
                  \/ ((j < length keep)%nat /\
                      exists o, o ∈ newOwners /\ find_owner current o 0 = Some j).
Proof.
  induction newOwners as [| o rest IH]; intros keep w l keep' w'; cbn [add_missing].
  - intros [= <- <- _]. split; [constructor | ]. split; [reflexivity | ].
    intros j. split; [tauto | ]. intros [Hk | (_ & o & Ho & _)]; [assumption | ].
    apply elem_of_nil in Ho. contradiction.
  - destruct (find_owner current o 0) as [j0 | ] eqn:Hf.
    + intros Hrun. destruct (IH _ _ _ _ _ Hrun) as (Hadds & Hlen & Hkeep).
      assert (Hin : o ∈ current).
      { destruct (find_owner_Some _ _ _ _ Hf) as (i & _ & Hi).
        eapply list_elem_of_lookup_2. exact Hi. }
      rewrite filter_cons_False by tauto.
      split; [assumption | ]. rewrite length_insert in Hlen, Hkeep.
      split; [assumption | ]. intros j. rewrite Hkeep, kept_insert.
      split.
      * intros [[Hk | [-> Hlt]] | (Hlt & o' & Ho' & Hf')].
        -- auto.
        -- right. split; [assumption | ]. exists o. split; [left | assumption].
        -- right. split; [assumption | ]. exists o'. split; [right; assumption | assumption].
      * intros [Hk | (Hlt & o' & Ho' & Hf')]; [auto | ].
        apply elem_of_cons in Ho' as [-> | Ho'].
        -- left. right. split; [congruence | ].
           assert (j0 = j) by congruence. subst. assumption.
        -- right. split; [assumption | ]. exists o'. auto.
    + intros Hrun.
      apply bindM_inv in Hrun as [(l1 & thr & w1 & l2 & Hr & Hrun & ->) | (e & Hr & [=])].
      apply read_inv in Hr as [-> [= -> ->]].
      apply bindM_inv in Hrun as [(l3 & u & w2 & l4 & Hcall & Hrun & ->) | (e & _ & [=])].
      apply moduleCall_done in Hcall.
      destruct (IH _ _ _ _ _ Hrun) as (Hadds & Hlen & Hkeep).
      assert (Hout : o ∉ current) by (apply (find_owner_None current o 0); assumption).
      rewrite filter_cons_True by assumption.
      cbn [app]. rewrite safe_calls_app, Hcall. cbn [app].
      split; [constructor; [eauto | assumption] | ].
      split; [assumption | ]. intros j. rewrite Hkeep. split.
      * intros [Hk | (Hlt & o' & Ho' & Hf')]; [auto | ].
        right. split; [assumption | ]. exists o'. split; [right; assumption | assumption].
      * intros [Hk | (Hlt & o' & Ho' & Hf')]; [auto | ].
        apply elem_of_cons in Ho' as [-> | Ho']; [congruence | ].
        right. split; [assumption | ]. exists o'. auto.
Qed.

Lemma remove_unkept_done (current : list Z) (keep : list bool) (P : Z -> Prop)
  `{!forall o, Decision (P o)} :
  (forall j o, current !! j = Some o -> (kept keep j = true <-> ~ P o)) ->
  forall n j (w : World T) l a w',
    (j + n = length current)%nat ->
    remove_unkept ctx current keep j n w = (l, Done a w') ->
    Forall2 (fun c o => exists p t, c = RemoveOwner p o t)
      (safe_calls l) (filter P (drop j current)).
Proof.
  intros Hkeep. induction n as [| n IH]; intros j w l a w' Hj; cbn [remove_unkept].
  - intros [= <- _ _]. rewrite drop_ge by lia. constructor.
  - intros Hrun.
    apply bindM_inv in Hrun as [(l1 & u & w1 & l2 & Hstep & Hrun & ->) | (e & _ & [=])].
    destruct (lookup_lt_is_Some_2 current j ltac:(lia)) as [o Ho].
    rewrite (drop_S current o j Ho). rewrite safe_calls_app.
    specialize (IH (S j) _ _ _ _ ltac:(lia) Hrun).
    fold (kept keep j) in Hstep. rewrite Ho in Hstep. cbn [default] in Hstep.
    destruct (kept keep j) eqn:Hk; cbn [negb] in Hstep.
    + injection Hstep as <- _ _. cbn [app safe_calls omap].
      rewrite filter_cons_False; [assumption | ].
      apply (Hkeep j o Ho). exact Hk.
    + apply bindM_inv in Hstep
        as [(l3 & thr & w2 & l4 & Hr & Hcall & ->) | (e & Hr & [=])].
      apply read_inv in Hr as [-> [= -> ->]].
      apply moduleCall_done in Hcall. cbn [app]. rewrite Hcall.
      rewrite filter_cons_True.
      * constructor; [eauto | assumption].
      * destruct (decide (P o)) as [Hp | Hnp]; [assumption | ].
        apply (Hkeep j o Ho) in Hnp. congruence.
Qed.

(** X12. When reconciliation succeeds on a Safe whose owner list has no
    duplicates, the Safe calls it issued are, in this order: one addition for
    each target owner absent from the current owners (in target order), one
    removal for each current owner absent from the target (in the order of
    the current list), and one threshold change to the new threshold. *)
Theorem reconcile_adds_then_removes (newOwners : list Z) (newThreshold : Z)
  (w : World T) l a w' :
  reconcile ctx newOwners newThreshold w = (l, Done a w') ->
  NoDup (getOwners (safe_state w)) ->
  let current := getOwners (safe_state w) in
  exists adds removes,
    safe_calls l = adds ++ removes ++ [ChangeThreshold newThreshold] /\
    Forall2 (fun c o => exists t, c = AddOwnerWithThreshold o t)
      adds (filter (fun o => o ∉ current) newOwners) /\
    Forall2 (fun c o => exists p t, c = RemoveOwner p o t)
      removes (filter (fun o => o ∉ newOwners) current).
Proof.
  intros Hrun Hnd current. unfold reconcile in Hrun.
  apply bindM_inv in Hrun as [(l1 & cur & w1 & l2 & Hr & Hrun & ->) | (e & _ & [=])].
  apply read_inv in Hr as [-> [= -> ->]]. fold current in Hrun.
  apply bindM_inv in Hrun as [(l3 & keep & w2 & l4 & Hadd & Hrun & ->) | (e & _ & [=])].
  apply bindM_inv in Hrun as [(l5 & u & w3 & l6 & Hrem & Hthr & ->) | (e & _ & [=])].
  apply moduleCall_done in Hthr.
  destruct (add_missing_done _ _ _ _ _ _ _ Hadd) as (Hadds & Hlen & Hkeep).
  rewrite length_replicate in Hlen, Hkeep.
  assert (Hk : forall j o, current !! j = Some o ->
                           (kept keep j = true <-> ~ (o ∉ newOwners))).
  { intros j o Hjo. rewrite Hkeep. split.
    - intros [Hrep | (_ & o' & Ho' & Hf)].
      + unfold kept in Hrep. pose proof (lookup_lt_Some _ _ _ Hjo) as Hlt.
        rewrite lookup_replicate_2 in Hrep by assumption. discriminate.
      + destruct (find_owner_Some _ _ _ _ Hf) as (i & -> & Hi).
        cbn in Hjo. assert (o' = o) by congruence. subst. tauto.
    - intros Hin. right. split; [eapply lookup_lt_Some; eassumption | ].
      exists o. split; [destruct (decide (o ∈ newOwners)); tauto | ].
      apply (find_owner_NoDup current o Hnd j 0 Hjo). }
  pose proof (remove_unkept_done current keep (fun o => o ∉ newOwners) Hk
                (length current) 0%nat _ _ _ _ ltac:(lia) Hrem) as Hrems.
  rewrite drop_0 in Hrems.
  exists (safe_calls l3), (safe_calls l5).
  cbn [app]. rewrite !safe_calls_app, Hthr.
  split; [reflexivity | ]. split; assumption.
Qed.

(** *** No mutation without validation *)

(** X13. [applyRecovery] makes no sub-call unless the module is not paused
    and the validator has accepted this very call: when the validator rejects
    (or the module is paused) the log is empty and the call reverts. *)
Theorem no_call_without_validation targetSafe newOwners newThreshold nonce vaa
  (w : World T) (e : Entry T) :
  e ∈ log_of (applyRecovery ctx targetSafe newOwners newThreshold nonce vaa) w ->
  module_paused w = false /\
  Validator.validate (ext ctx) (validator_env ctx) (validator_state w)
    {| Validator.selector := Validator.applyRecovery_selector (ext ctx);
       Validator.args :=
         Some {| Validator.callSafe := targetSafe;
                 Validator.callOwners := newOwners;
                 Validator.callThreshold := newThreshold;
                 Validator.callNonce := nonce;
                 Validator.callVaa := vaa |} |} vaa
  = Ok Validator.MAGICVALUE.
Proof.
  unfold log_of.
  destruct (applyRecovery ctx targetSafe newOwners newThreshold nonce vaa w)
    as [l o] eqn:Hrun. cbn [fst]. intros Hin.
  unfold applyRecovery in Hrun.
  apply bindM_inv in Hrun
    as [(l1 & b & w1 & l2 & [= <- <- <-] & Hrun & ->) | (e0 & [=] & _)].
  cbn [app] in Hin. destruct (module_paused w).
  { injection Hrun as <- _. apply elem_of_nil in Hin. contradiction. }
  split; [reflexivity | ].
  apply bindM_inv in Hrun as [(l3 & u & w2 & l4 & Hask & Hrun & ->) | (e0 & Hask & _)].
  - unfold askValidator in Hask.
    destruct (Validator.validate _ _ _ _ _) as [v | err]; [ | discriminate].
    destruct (Z.eqb_spec v Validator.MAGICVALUE) as [Heq | Hne];
      [rewrite Heq; reflexivity | discriminate].
  - apply askValidator_inv in Hask as [-> _].
    apply elem_of_nil in Hin. contradiction.
Qed.

(** *** [verify] runs once per VAA *)

(** X14. A VAA is applied at most once: after [verify] has accepted it, its
    hash is recorded, and every later [verify] of the same bytes, in any
    world where the hash is still recorded and the module is not paused,
    reverts with [VaaAlreadyConsumed] before touching the Safe. *)
Theorem verify_once (encodedVm : list byte) (w : World T) l w' :
  verify ctx encodedVm w = (l, Done tt w') ->
  Validator.mapping_get (consumedVaas w') (keccak256 ctx encodedVm) = true /\
  forall w2 : World T,
    module_paused w2 = false ->
    Validator.mapping_get (consumedVaas w2) (keccak256 ctx encodedVm) = true ->
    verify ctx encodedVm w2 = ([], Reverted VaaAlreadyConsumed).
Proof.
  intros Hrun.
  destruct (verify_accepts ctx encodedVm w l w' Hrun) as (_ & f & _ & _ & _ & Hrec).
  split; [exact Hrec | ]. intros w2 Hp Hseen.
  revert Hrun. unfold verify, bindM, read, revert.
  destruct (module_paused w); [discriminate | ].
  destruct (wormhole_parseAndVerifyVM ctx encodedVm) as [payload valid].
  destruct valid; cbn [negb]; [ | discriminate].
  intros _. rewrite Hp, Hseen. reflexivity.
Qed.

(** X15. What [verify] does when it accepts: the payload has at least 116
    bytes and carries this chain's id; if the decoded candidate is already an
    owner no Safe call is made, otherwise exactly one, adding the candidate
    with the threshold the Safe has at that moment. *)
Theorem verify_adds_candidate (encodedVm : list byte) (w : World T) l w' :
  verify ctx encodedVm w = (l, Done tt w') ->
  let payload := fst (wormhole_parseAndVerifyVM ctx encodedVm) in
  exists fields,
    (116 <= length payload)%nat /\
    Codec.verify_decode payload = Ok fields /\
    Codec.cf_chainId fields = block_chainid ctx /\
    safe_calls l
    = if bool_decide (Codec.cf_candidate fields ∈ getOwners (safe_state w))
      then []
      else [AddOwnerWithThreshold (Codec.cf_candidate fields)
              (getThreshold (safe_state w))].
Proof.
  intros Hrun payload.
  destruct (verify_accepts ctx encodedVm w l w' Hrun) as (Hlen & f & Hdec & Hch & _ & _).
  exists f. split; [exact Hlen | ]. split; [exact Hdec | ]. split; [exact Hch | ].
  revert Hrun. unfold verify, bindM, read, revert, markVaaConsumed, ret.
  destruct (module_paused w); [discriminate | ].
  fold payload in Hdec. unfold payload in Hdec.
  destruct (wormhole_parseAndVerifyVM ctx encodedVm) as [pl valid]. cbn [fst] in *.
  destruct valid; cbn [negb]; [ | discriminate].
  destruct (Validator.mapping_get (consumedVaas w) _); [discriminate | ].
  cbn [app]. rewrite Hdec, Hch, Z.eqb_refl. cbn [negb safe_state].
  assert (Hloop : forall cur c, is_owner_loop cur c = bool_decide (c ∈ cur)).
  { induction cur as [| x cur IH]; intros c; cbn.
    - rewrite bool_decide_eq_false_2; [reflexivity | apply not_elem_of_nil].
    - destruct (Z.eqb_spec x c) as [-> | Hne].
      + rewrite bool_decide_eq_true_2; [reflexivity | left].
      + rewrite IH. apply bool_decide_ext. rewrite elem_of_cons.
        split; [auto | intros [-> | Hin]; [congruence | assumption]]. }
  rewrite Hloop.
  destruct (bool_decide (Codec.cf_candidate f ∈ getOwners (safe_state w))); cbn [negb].
  - intros [= <- _]. reflexivity.
  - unfold _moduleCall. cbn [safe_state].
    destruct (execTransactionFromModuleReturnData _ _ _); intros [= <- _];
      try discriminate. reflexivity.
Qed.

End More.

Section MoreConcrete.
Import Scenario.

Lemma reconcile_adds_then_removes_witness :
  exists l w',
    reconcile (ctx [A; B; D] 1) [A; B; D] 1 (world [A; B; C]) = (l, Done tt w') /\
    exists adds removes,
      safe_calls l = adds ++ removes ++ [ChangeThreshold 1] /\
      Forall2 (fun c o => exists t, c = AddOwnerWithThreshold o t) adds [D] /\
      Forall2 (fun c o => exists p t, c = RemoveOwner p o t) removes [C].
Proof.
  destruct (reconcile (ctx [A; B; D] 1) [A; B; D] 1 (world [A; B; C]))
    as [l [[] w' | err]] eqn:Hrun; [ | vm_compute in Hrun; discriminate].
  exists l, w'. split; [reflexivity | ].
  apply (reconcile_adds_then_removes (ctx [A; B; D] 1) [A; B; D] 1
           (world [A; B; C]) l tt w' Hrun).
  refine (bool_decide_unpack _ _). vm_compute. exact I.
Defined.

Lemma no_call_without_validation_witness :
  exists e,
    log_of (applyRecovery (ctx [A; B; D] 1) SAFE [A; B; D] 1 NONCE [])
      (world [A; B; C]) !! 0%nat = Some e /\
    Validator.validate (ext (ctx [A; B; D] 1)) (validator_env (ctx [A; B; D] 1))
      (validator_state (world [A; B; C])) (callData [A; B; D] 1) []
    = Ok Validator.MAGICVALUE.
Proof.
  destruct (log_of (applyRecovery (ctx [A; B; D] 1) SAFE [A; B; D] 1 NONCE [])
              (world [A; B; C]) !! 0%nat) as [e | ] eqn:He;
    [ | vm_compute in He; discriminate].
  exists e. split; [reflexivity | ].
  apply (no_call_without_validation (ctx [A; B; D] 1) SAFE [A; B; D] 1 NONCE []
           (world [A; B; C]) e).
  eapply list_elem_of_lookup_2. exact He.
Defined.

Lemma verify_once_witness :
  exists l w',
    verify verify_ctx COMPACT_PAYLOAD (world [A; B; C]) = (l, Done tt w') /\
    verify verify_ctx COMPACT_PAYLOAD w' = ([], Reverted VaaAlreadyConsumed).
Proof.
  destruct (verify verify_ctx COMPACT_PAYLOAD (world [A; B; C]))
    as [l [[] w' | err]] eqn:Hrun; [ | vm_compute in Hrun; discriminate].
  exists l, w'. split; [reflexivity | ].
  destruct (verify_once verify_ctx COMPACT_PAYLOAD (world [A; B; C]) l w' Hrun)
    as [Hrec Hnext].
  apply Hnext; [ | exact Hrec].
  vm_compute in Hrun. injection Hrun as _ <-. reflexivity.
Defined.

Lemma verify_adds_candidate_witness :
  exists l w',
    verify verify_ctx COMPACT_PAYLOAD (world [A; B; C]) = (l, Done tt w') /\
    safe_calls l
    = [AddOwnerWithThreshold 0xc3000000000000000000000000000000000000d4 1].
Proof.
  destruct (verify verify_ctx COMPACT_PAYLOAD (world [A; B; C]))
    as [l [[] w' | err]] eqn:Hrun; [ | vm_compute in Hrun; discriminate].
  exists l, w'. split; [reflexivity | ].
  destruct (verify_adds_candidate verify_ctx COMPACT_PAYLOAD (world [A; B; C]) l w' Hrun)
    as (f & _ & Hdec & _ & Hcalls).
  rewrite Hcalls. vm_compute in Hdec. injection Hdec as <-.
  vm_compute. reflexivity.
Defined.

End MoreConcrete.

End ReconcilerCalls.

(** ** The test double of the Safe *)

Module MockSafeFacts.
Import MockSafe.
Local Open Scope Z_scope.

Lemma mapping_get_insert (m : gmap Z bool) (k a : Z) (b : bool) :
  mapping_get (<[k := b]> m) a = if bool_decide (a = k) then b else mapping_get m a.
Proof.
  unfold mapping_get. destruct (decide (a = k)) as [-> | Hne].
  - rewrite lookup_insert_eq, bool_decide_eq_true_2 by reflexivity. reflexivity.
  - rewrite lookup_insert_ne by congruence.
    rewrite bool_decide_eq_false_2 by assumption. reflexivity.
Qed.

Lemma push_owner_ok (st : State) (o t : Z) (ms : gmap Z bool) :
  owners_ok st -> o <> 0 -> mapping_get (isOwner st) o = false ->
  owners_ok {| owners := owners st ++ [o]; threshold := t;
               isOwner := <[o := true]> (isOwner st); modules := ms |}.
Proof.
  intros (Hnd & Hflag & Hz) Hnz Hnew.
  assert (Hnotin : o ∉ owners st).
  { intros Hin. apply Hflag in Hin. congruence. }
  split; [ | split]; cbn.
  - apply NoDup_app. split; [assumption | ]. split; [ | apply NoDup_singleton].
    intros x Hx Hx'. apply list_elem_of_singleton in Hx'. subst x. contradiction.
  - intros a. rewrite mapping_get_insert, elem_of_app, list_elem_of_singleton.
    case_bool_decide as Ha; [tauto | ]. rewrite Hflag. tauto.
  - rewrite elem_of_app, list_elem_of_singleton. intros [H0 | H0]; [contradiction | congruence].
Qed.

Lemma setup_loop_ok (os : list Z) (st st' : State) :
  owners_ok st -> setup_loop os st = Ok st' ->
  owners_ok st' /\ owners st' = owners st ++ os /\ modules st' = modules st.
Proof.
  revert st. induction os as [| o os IH]; intros st Hok Hrun; cbn in Hrun.
  - injection Hrun as <-. rewrite app_nil_r. auto.
  - destruct (Z.eqb_spec o 0) as [ | Hnz]; [discriminate | ].
    destruct (mapping_get (isOwner st) o) eqn:Hnew; [discriminate | ].
    apply IH in Hrun as (Hok' & Hown & Hmod).
    + split; [assumption | ]. cbn in Hown, Hmod. rewrite Hown, <- app_assoc. auto.
    + apply push_owner_ok; assumption.
Qed.

Lemma index_of_spec (l : list Z) (owner : Z) (i0 : nat) :
  match index_of l owner i0 with
  | Some i => exists j, i = (i0 + j)%nat /\ l !! j = Some owner /\
                        forall k, (k < j)%nat -> l !! k <> Some owner
  | None => owner ∉ l
  end.
Proof.
  revert i0. induction l as [| x l IH]; intros i0; cbn.
  - apply not_elem_of_nil.
  - destruct (Z.eqb_spec x owner) as [-> | Hne].
    + exists 0%nat. split; [lia | ]. split; [reflexivity | ]. intros k Hk. lia.
    + specialize (IH (S i0)). destruct (index_of l owner (S i0)) as [i | ].
      * destruct IH as (j & -> & Hj & Hfirst). exists (S j).
        split; [lia | ]. split; [exact Hj | ].
        intros [| k] Hk; cbn; [congruence | ]. apply Hfirst. lia.
      * rewrite elem_of_cons. intros [-> | Hin]; [congruence | contradiction].
Qed.

(** What [swap_pop] leaves of a duplicate-free array: every entry but the one
    at [i]. *)
Lemma swap_pop_spec (l : list Z) (i : nat) (owner : Z) :
  NoDup l -> l !! i = Some owner ->
  NoDup (swap_pop l i) /\
  length (swap_pop l i) = (length l - 1)%nat /\
  forall a, a ∈ swap_pop l i <-> a ∈ l /\ a <> owner.
Proof.
  intros Hnd Hi. unfold swap_pop.
  induction l as [| z l0 _] using rev_ind; [discriminate | ].
  rewrite last_snoc, length_app. cbn.
  replace (length l0 + 1 - 1)%nat with (length l0) by lia.
  apply NoDup_app in Hnd as (Hnd0 & Hz & _).
  assert (Hz0 : z ∉ l0).
  { intros Hin. apply (Hz z Hin). apply list_elem_of_singleton. reflexivity. }
  destruct (decide (i < length l0)%nat) as [Hlt | Hge].
  - rewrite insert_app_l by assumption.
    rewrite take_app_length' by (rewrite length_insert; reflexivity).
    rewrite lookup_app_l in Hi by assumption.
    rewrite insert_take_drop by assumption.
    pose proof (take_drop_middle l0 i owner Hi) as Heq.
    set (l1 := take i l0) in *. set (l2 := drop (S i) l0) in *.
    clearbody l1 l2. subst l0. clear Hi Hlt.
    apply NoDup_app in Hnd0 as (Hn1 & Hd1 & Hn2).
    apply NoDup_cons in Hn2 as (Ho2 & Hn2).
    rewrite elem_of_app, elem_of_cons in Hz0.
    split; [ | split].
    + apply NoDup_app. split; [assumption | ]. split.
      * intros x Hx [-> | Hx2]%elem_of_cons; [tauto | ].
        apply (Hd1 x Hx). apply elem_of_cons. tauto.
      * apply NoDup_cons. split; [tauto | assumption].
    + rewrite !length_app. cbn. lia.
    + intros a. rewrite !elem_of_app, !elem_of_cons, elem_of_nil.
      split.
      * intros [H1 | [-> | H2]].
        -- split; [tauto | ]. intros ->. apply (Hd1 owner H1). apply elem_of_cons. tauto.
        -- split; [tauto | ]. intros ->. tauto.
        -- split; [tauto | ]. intros ->. tauto.
      * intros [[[H1 | [-> | H2]] | [-> | []]] Hne]; tauto.
  - assert (i = length l0) as ->.
    { apply lookup_lt_Some in Hi. rewrite length_app in Hi. cbn in Hi. lia. }
    rewrite list_lookup_middle in Hi by reflexivity. injection Hi as ->.
    rewrite list_insert_id by (apply list_lookup_middle; reflexivity).
    rewrite take_app_length.
    split; [assumption | ]. split; [reflexivity | ].
    intros a. rewrite elem_of_app, list_elem_of_singleton.
    split; [ | tauto]. intros Ha. split; [tauto | ]. intros ->. contradiction.
Qed.

Lemma remove_owner_ok (st st' : State) (p o t : Z) :
  owners_ok st -> removeOwner p o t st = Ok st' ->
  owners_ok st' /\
  length (owners st') = (length (owners st) - 1)%nat /\
  (forall a, a ∈ owners st' <-> a ∈ owners st /\ a <> o) /\
  o ∈ owners st /\
  threshold st' = t /\ 1 <= t <= Z.of_nat (length (owners st)) - 1 /\
  modules st' = modules st.
Proof.
  intros (Hnd & Hflag & Hz) Hrun. unfold removeOwner in Hrun.
  destruct (mapping_get (isOwner st) o) eqn:Hown; [ | discriminate]. cbn in Hrun.
  destruct (Z.ltb_spec 0 t) as [Hpos | ]; [ | discriminate]. cbn in Hrun.
  destruct (length (owners st) =? 0)%nat; [discriminate | ].
  destruct (Z.leb_spec t (Z.of_nat (length (owners st)) - 1)) as [Hle | ];
    [ | discriminate]. cbn in Hrun.
  apply Hflag in Hown.
  pose proof (index_of_spec (owners st) o 0) as Hidx.
  destruct (index_of (owners st) o 0) as [i | ]; [ | contradiction].
  destruct Hidx as (j & -> & Hj & _). cbn in Hrun.
  destruct (swap_pop_spec (owners st) j o Hnd Hj) as (Hnd' & Hlen & Hmem).
  injection Hrun as <-. cbn.
  split; [ | split; [assumption | split; [assumption | split; [assumption | ]]]].
  - split; [assumption | ]. split; cbn.
    + intros a. rewrite mapping_get_insert, Hmem.
      case_bool_decide as Ha; [split; [discriminate | tauto] | ].
      rewrite Hflag. tauto.
    + rewrite Hmem. tauto.
  - split; [reflexivity | ]. split; [lia | reflexivity].
Qed.

Lemma exec_consistent (st st' : State) (c : op) :
  consistent st -> exec st c = Ok st' -> consistent st'.
Proof.
  intros (Hnd & Hflag & Hz & Hthr) Hrun.
  assert (Hok : owners_ok st) by (split; [ | split]; assumption).
  destruct c as [os t | m | m | o t | p o t | t]; cbn in Hrun.
  - unfold setup in Hrun.
    destruct (Nat.eqb_spec (length (owners st)) 0) as [Hlen | ]; [ | discriminate].
    cbn in Hrun.
    destruct (Z.ltb_spec 0 t) as [Hpos | ]; [ | discriminate].
    destruct (Z.leb_spec t (Z.of_nat (length os))) as [Hle | ]; [ | discriminate].
    cbn in Hrun.
    destruct (setup_loop os st) as [st1 | e] eqn:Hloop; [ | discriminate].
    cbn in Hrun. injection Hrun as <-.
    apply setup_loop_ok in Hloop as ((Hnd1 & Hflag1 & Hz1) & Hown & _); [ | assumption].
    split; [assumption | ]. split; [assumption | ]. split; [assumption | ]. cbn.
    intros _. rewrite Hown, length_app.
    apply nil_length_inv in Hlen. rewrite Hlen. cbn. lia.
  - injection Hrun as <-. split; [ | split; [ | split]]; assumption.
  - injection Hrun as <-. split; [ | split; [ | split]]; assumption.
  - unfold addOwnerWithThreshold in Hrun.
    destruct (Z.eqb_spec o 0) as [ | Hnz]; [discriminate | ].
    destruct (mapping_get (isOwner st) o) eqn:Hnew; [discriminate | ].
    destruct (Z.ltb_spec 0 t) as [Hpos | ]; [ | discriminate].
    destruct (Z.leb_spec t (Z.of_nat (length (owners st)) + 1)) as [Hle | ];
      [ | discriminate].
    cbn in Hrun. injection Hrun as <-.
    destruct (push_owner_ok st o t (modules st) Hok Hnz Hnew) as (H1 & H2 & H3).
    split; [assumption | ]. split; [assumption | ]. split; [assumption | ]. cbn.
    intros _. rewrite length_app. cbn. lia.
  - apply remove_owner_ok in Hrun as ((H1 & H2 & H3) & Hlen & _ & _ & Ht' & Ht & _);
      [ | assumption].
    split; [assumption | ]. split; [assumption | ]. split; [assumption | ].
    intros _. rewrite Ht', Hlen. lia.
  - unfold changeThreshold in Hrun.
    destruct (Z.ltb_spec 0 t) as [Hpos | ]; [ | discriminate].
    destruct (Z.leb_spec t (Z.of_nat (length (owners st)))) as [Hle | ];
      [ | discriminate].
    cbn in Hrun. injection Hrun as <-.
    split; [assumption | ]. split; [assumption | ]. split; [assumption | ]. cbn.
    intros _. lia.
Qed.

Lemma run_consistent (calls : list op) (st : State) :
  consistent st -> consistent (run st calls).
Proof.
  revert st. induction calls as [| c calls IH]; intros st Hst; cbn; [assumption | ].
  apply IH. destruct (exec st c) as [st' | e] eqn:Hc; [ | assumption].
  eapply exec_consistent; eassumption.
Qed.

Lemma fresh_consistent : consistent fresh.
Proof.
  split; [constructor | ]. split; [ | split].
  - intros a. cbn. unfold mapping_get. rewrite lookup_empty. cbn.
    rewrite elem_of_nil. split; [discriminate | tauto].
  - apply not_elem_of_nil.
  - intros Hne. cbn in Hne. congruence.
Qed.


(** X17. [removeOwner] of the mock, when it returns on a consistent storage,
    removes exactly [owner]: the other owners are all kept (the last one moves
    into the freed slot), the array is one shorter, the threshold is the one
    passed and leaves at least that many owners. The predecessor argument
    plays no part: any value gives this result. *)
Theorem mock_removeOwner_removes_exactly (st st' : State) (prevOwner owner t : Z) :
  consistent st ->
  removeOwner prevOwner owner t st = Ok st' ->
  owner ∈ owners st /\
  (forall a, a ∈ owners st' <-> a ∈ owners st /\ a <> owner) /\
  length (owners st') = (length (owners st) - 1)%nat /\
  threshold st' = t /\ 1 <= t <= Z.of_nat (length (owners st')) /\
  mapping_get (isOwner st') owner = false /\
  forall prevOwner', removeOwner prevOwner' owner t st = Ok st'.
Proof.
  intros (Hnd & Hflag & Hz & _) Hrun.
  assert (Hok : owners_ok st) by (split; [ | split]; assumption).
  destruct (remove_owner_ok st st' prevOwner owner t Hok Hrun)
    as ((_ & Hflag' & _) & Hlen & Hmem & Hin & Ht & Hrange & _).
  split; [assumption | ]. split; [assumption | ]. split; [assumption | ].
  split; [assumption | ]. split; [rewrite Hlen; lia | ].
  split.
  - destruct (mapping_get (isOwner st') owner) eqn:Hf; [ | reflexivity].
    apply Hflag', Hmem in Hf. tauto.
  - intros p'. exact Hrun.
Qed.

Lemma mock_removeOwner_removes_exactly_witness :
  exists st st',
    setup [10; 20; 30] 2 fresh = Ok st /\
    removeOwner 999 10 2 st = Ok st' /\
    owners st' = [30; 20] /\
    (forall a, a ∈ owners st' <-> a ∈ owners st /\ a <> 10).
Proof.
  destruct (setup [10; 20; 30] 2 fresh) as [st | e] eqn:Hs;
    [ | vm_compute in Hs; discriminate].
  destruct (removeOwner 999 10 2 st) as [st' | e] eqn:Hr;
    [ | vm_compute in Hs; injection Hs as <-; vm_compute in Hr; discriminate].
  exists st, st'. split; [reflexivity | ]. split; [exact Hr | ].
  assert (Hc : consistent st).
  { change st with (match Ok (E := error) st with Ok s => s | Revert _ => fresh end).
    rewrite <- Hs. apply (run_consistent [OpSetup [10; 20; 30] 2] fresh fresh_consistent). }
  split.
  - vm_compute in Hs. injection Hs as <-. vm_compute in Hr. injection Hr as <-.
    reflexivity.
  - apply (mock_removeOwner_removes_exactly st st' 999 10 2 Hc Hr).
Defined.




End MockSafeFacts.

(** ** The test double of the Wormhole core *)

Module MockWormholeCoreFacts.
Import Codec MockWormholeCore.
Local Open Scope Z_scope.

Lemma slice_app_drop (pre l : list byte) (o n : nat) :
  slice (pre ++ l) (length pre + o) n = slice l o n.
Proof.
  unfold slice. rewrite <- drop_drop, drop_app_length. reflexivity.
Qed.

Lemma slice_app_l (l k : list byte) (o n : nat) :
  (o + n <= length l)%nat -> slice (l ++ k) o n = slice l o n.
Proof.
  intros H. unfold slice. rewrite drop_app_le by lia.
  rewrite take_app_le by (rewrite length_drop; lia). reflexivity.
Qed.

Lemma parseAndVerifyVM_unsigned (header sigs body payload : list byte) (count : byte) :
  length header = 5%nat ->
  u8 count <= 3 ->
  length sigs = Z.to_nat (66 * u8 count) ->
  length body = 51%nat ->
  parseAndVerifyVM (header ++ [count] ++ sigs ++ body ++ payload)
  = Ok (vm_of_body body payload, true, EmptyString).
Proof.
  intros Hh Hc Hs Hb.
  pose proof (CodecFacts.u8_range count) as Hr.
  unfold parseAndVerifyVM. cbv zeta.
  assert (Hlen : length (header ++ [count] ++ sigs ++ body ++ payload)
                 = (57 + Z.to_nat (66 * u8 count) + length payload)%nat).
  { rewrite !length_app. cbn. lia. }
  rewrite Hlen.
  destruct (Nat.ltb_spec (57 + Z.to_nat (66 * u8 count) + length payload) 6) as [ | _];
    [lia | ].
  assert (H5 : (header ++ [count] ++ sigs ++ body ++ payload) !! 5%nat = Some count).
  { rewrite lookup_app_r by lia. rewrite Hh. reflexivity. }
  rewrite H5. cbn [from_option id].
  destruct (Z.ltb_spec 255 (u8 count * 66)) as [ | _]; [lia | ].
  destruct (Z.ltb_spec 255 (6 + u8 count * 66)) as [ | _]; [lia | ].
  set (off := Z.to_nat (6 + u8 count * 66)).
  assert (Hoff : off = length (header ++ [count] ++ sigs)).
  { unfold off. rewrite !length_app. cbn. lia. }
  destruct (Nat.ltb_spec (57 + Z.to_nat (66 * u8 count) + length payload) (off + 51))
    as [ | _]; [lia | ].
  replace (header ++ [count] ++ sigs ++ body ++ payload)
    with ((header ++ [count] ++ sigs) ++ (body ++ payload))
    by (rewrite <- !app_assoc; reflexivity).
  rewrite Hoff. clear off Hoff.
  set (pre := header ++ [count] ++ sigs).
  assert (Hsl : forall o n, (o + n <= 51)%nat ->
            slice (pre ++ body ++ payload) (length pre + o) n = slice body o n).
  { intros o n Hon. rewrite slice_app_drop. apply slice_app_l. lia. }
  rewrite <- (Nat.add_0_r (length pre)) at 1.
  rewrite !Hsl by lia.
  rewrite lookup_app_r by lia.
  replace (length pre + 50 - length pre)%nat with 50%nat by lia.
  rewrite lookup_app_l by lia.
  rewrite <- drop_drop, drop_app_length.
  rewrite <- Hb, drop_app_length. reflexivity.
Qed.

(** X19. The mock core looks at no signature and at none of the first five
    bytes: a VAA made of any five header bytes, a signature count of at most
    three, that many 66-byte signatures of any content, a 51-byte body header
    and a payload is accepted as valid, with the payload returned verbatim
    and the body fields read big-endian. *)
Theorem mock_core_accepts_unsigned (header sigs body payload : list byte) (count : byte) :
  length header = 5%nat ->
  u8 count <= 3 ->
  length sigs = Z.to_nat (66 * u8 count) ->
  length body = 51%nat ->
  parseAndVerifyVM (header ++ [count] ++ sigs ++ body ++ payload)
  = Ok (vm_of_body body payload, true, EmptyString).
Proof. apply parseAndVerifyVM_unsigned. Qed.

Lemma mock_core_accepts_unsigned_witness :
  parseAndVerifyVM (replicate 5 Byte.x01 ++ [Byte.x01] ++ replicate 66 Byte.x00
                    ++ replicate 51 Byte.x02 ++ [Byte.x2a])
  = Ok (vm_of_body (replicate 51 Byte.x02) [Byte.x2a], true, EmptyString).
Proof.
  apply (mock_core_accepts_unsigned (replicate 5 Byte.x01) (replicate 66 Byte.x00)
           (replicate 51 Byte.x02) [Byte.x2a] Byte.x01);
    vm_compute; solve [reflexivity | discriminate].
Defined.

(** X20. When the mock core reverts. A VAA shorter than 6 bytes is "too
    short"; one announcing four signatures or more makes the [uint8] product
    [sigCount * 66] overflow and panics, whatever its length; with at most
    three signatures the VAA is rejected as "body too short" exactly when it
    has fewer than [57 + 66 * sigCount] bytes, and is otherwise reported
    valid. *)
Theorem mock_core_reverts (encodedVM : list byte) :
  let sigCount := u8 (default Byte.x00 (encodedVM !! 5%nat)) in
  ((length encodedVM < 6)%nat ->
     parseAndVerifyVM encodedVM = Revert (Require "VAA too short")) /\
  ((6 <= length encodedVM)%nat -> 4 <= sigCount ->
     parseAndVerifyVM encodedVM = Revert PanicArith) /\
  ((6 <= length encodedVM)%nat -> sigCount <= 3 ->
     Z.of_nat (length encodedVM) < 57 + 66 * sigCount ->
     parseAndVerifyVM encodedVM = Revert (Require "VAA body too short")) /\
  ((6 <= length encodedVM)%nat -> sigCount <= 3 ->
     57 + 66 * sigCount <= Z.of_nat (length encodedVM) ->
     exists vm, parseAndVerifyVM encodedVM = Ok (vm, true, EmptyString) /\
                payload vm = drop (Z.to_nat (57 + 66 * sigCount)) encodedVM).
Proof.
  intros sigCount.
  pose proof (CodecFacts.u8_range (default Byte.x00 (encodedVM !! 5%nat))) as Hr.
  fold sigCount in Hr. unfold parseAndVerifyVM. fold sigCount.
  repeat split.
  - intros H. destruct (Nat.ltb_spec (length encodedVM) 6); [reflexivity | lia].
  - intros H H4. destruct (Nat.ltb_spec (length encodedVM) 6); [lia | ].
    destruct (Z.ltb_spec 255 (sigCount * 66)); [reflexivity | lia].
  - intros H H3 Hshort. destruct (Nat.ltb_spec (length encodedVM) 6); [lia | ].
    destruct (Z.ltb_spec 255 (sigCount * 66)); [lia | ].
    destruct (Z.ltb_spec 255 (6 + sigCount * 66)); [lia | ].
    destruct (Nat.ltb_spec (length encodedVM) (Z.to_nat (6 + sigCount * 66) + 51));
      [reflexivity | lia].
  - intros H H3 Hlong. destruct (Nat.ltb_spec (length encodedVM) 6); [lia | ].
    destruct (Z.ltb_spec 255 (sigCount * 66)); [lia | ].
    destruct (Z.ltb_spec 255 (6 + sigCount * 66)); [lia | ].
    destruct (Nat.ltb_spec (length encodedVM) (Z.to_nat (6 + sigCount * 66) + 51));
      [lia | ].
    eexists. split; [reflexivity | ]. cbn [payload]. f_equal. lia.
Qed.

Lemma mock_core_reverts_witness :
  parseAndVerifyVM (replicate 5 Byte.x00 ++ [Byte.x0d] ++ replicate 2000 Byte.x00)
  = Revert PanicArith.
Proof.
  refine (proj1 (proj2 (mock_core_reverts
            (replicate 5 Byte.x00 ++ [Byte.x0d] ++ replicate 2000 Byte.x00))) _ _).
  - apply Nat.leb_le. vm_compute. reflexivity.
  - vm_compute. discriminate.
Defined.

End MockWormholeCoreFacts.

(** ** Orchestra *)

Module OrchestraFacts.
Import Codec Orchestra.
Local Open Scope Z_scope.

Lemma processPayload_spec (payload : list byte) (st : State) :
  _processPayload payload st =
  if (length payload <? 75)%nat
  then Revert (ExtractorReverted (Codec.Require "Payload too short"))
  else Ok {| knownEmitters := knownEmitters st;
             consumedMessages := consumedMessages st;
             latestRecovered := le_value (slice payload 55 20) |}.
Proof.
  unfold _processPayload. destruct (Nat.ltb_spec (length payload) 75) as [Hlt | Hge].
  - rewrite CodecFacts.parsePayload_short by assumption. reflexivity.
  - rewrite CodecReaders.parsePayload_spec by assumption. reflexivity.
Qed.

(** X21. What a successful [Orchestra.verify] amounts to: the core reported
    the VAA valid, its payload has at least 75 bytes, and [latestRecovered]
    is now the little-endian value of the 20 payload bytes at offset 55 ---
    nothing else is written. In particular no message is ever marked
    consumed, so submitting the same VAA again succeeds again. *)
Theorem orchestra_verify_effect
  (core : list byte -> MockWormholeCore.res (MockWormholeCore.VM * bool * string))
  (encodedVm : list byte) (st st' : State) :
  verify core encodedVm st = Ok st' ->
  (exists vm reason,
     core encodedVm = Ok (vm, true, reason) /\
     (75 <= length (MockWormholeCore.payload vm))%nat /\
     latestRecovered st' = le_value (slice (MockWormholeCore.payload vm) 55 20)) /\
  0 <= latestRecovered st' < 2 ^ 160 /\
  consumedMessages st' = consumedMessages st /\
  knownEmitters st' = knownEmitters st /\
  verify core encodedVm st' = Ok st'.
Proof.
  unfold verify, _verify. intros Hrun.
  destruct (core encodedVm) as [[[vm valid] reason] | e]; [ | discriminate].
  destruct valid; [ | discriminate]. cbn [negb bind] in *.
  rewrite processPayload_spec in Hrun |- *.
  destruct (Nat.ltb_spec (length (MockWormholeCore.payload vm)) 75) as [ | Hge];
    [discriminate | ].
  injection Hrun as <-. cbn.
  split; [exists vm, reason; auto | ].
  split; [ | auto].
  pose proof (CodecFacts.le_value_range (slice (MockWormholeCore.payload vm) 55 20)) as Hr.
  rewrite CodecFacts.slice_length in Hr by lia. exact Hr.
Qed.

Lemma orchestra_verify_effect_witness :
  let vaa := replicate 57 Byte.x00 ++ Scenario.PAYLOAD in
  let st := {| knownEmitters := ∅; consumedMessages := ∅; latestRecovered := 0 |} in
  exists st',
    verify MockWormholeCore.parseAndVerifyVM vaa st = Ok st' /\
    latestRecovered st' = 0x1234567890AbcdEF1234567890aBcdef12345678 /\
    verify MockWormholeCore.parseAndVerifyVM vaa st' = Ok st'.
Proof.
  intros vaa st.
  destruct (verify MockWormholeCore.parseAndVerifyVM vaa st) as [st' | e] eqn:Hrun;
    [ | vm_compute in Hrun; discriminate].
  exists st'. split; [reflexivity | ].
  destruct (orchestra_verify_effect _ vaa st st' Hrun) as (_ & _ & _ & _ & Hagain).
  split; [ | exact Hagain].
  vm_compute in Hrun. injection Hrun as <-. reflexivity.
Defined.

(** X22. Orchestra behind the mock core: any five header bytes, at most three
    signatures of any content, any 51-byte body header and a payload of at
    least 75 bytes set [latestRecovered] to the address the payload carries
    at offset 55, whoever sends them; with a shorter payload the call reverts
    with "Payload too short". *)
Theorem orchestra_with_mock_core (header sigs body payload : list byte) (count : byte)
  (st : State) :
  length header = 5%nat ->
  u8 count <= 3 ->
  length sigs = Z.to_nat (66 * u8 count) ->
  length body = 51%nat ->
  verify MockWormholeCore.parseAndVerifyVM
         (header ++ [count] ++ sigs ++ body ++ payload) st
  = if (length payload <? 75)%nat
    then Revert (ExtractorReverted (Codec.Require "Payload too short"))
    else Ok {| knownEmitters := knownEmitters st;
               consumedMessages := consumedMessages st;
               latestRecovered := le_value (slice payload 55 20) |}.
Proof.
  intros Hh Hc Hs Hb. unfold verify, _verify.
  rewrite MockWormholeCoreFacts.parseAndVerifyVM_unsigned by assumption.
  cbn [negb bind MockWormholeCore.payload MockWormholeCore.vm_of_body].
  apply processPayload_spec.
Qed.

Lemma orchestra_with_mock_core_witness :
  let st := {| knownEmitters := ∅; consumedMessages := ∅; latestRecovered := 0 |} in
  verify MockWormholeCore.parseAndVerifyVM
         (replicate 5 Byte.xff ++ [Byte.x01] ++ replicate 66 Byte.xff
          ++ replicate 51 Byte.x00 ++ Scenario.PAYLOAD) st
  = Ok {| knownEmitters := ∅; consumedMessages := ∅;
          latestRecovered := 0x1234567890AbcdEF1234567890aBcdef12345678 |}.
Proof.
  intros st.
  rewrite (orchestra_with_mock_core (replicate 5 Byte.xff) (replicate 66 Byte.xff)
             (replicate 51 Byte.x00) Scenario.PAYLOAD Byte.x01 st);
    [vm_compute; reflexivity | vm_compute; solve [reflexivity | discriminate] ..].
Defined.

End OrchestraFacts.

(** ** The ERC-7579 executor *)

Module AztecRecoveryModuleFacts.
Import AztecRecoveryModule.
Local Open Scope Z_scope.

Lemma fill_adds_spec (newOwners : list Z) (i : nat) (calls : list Slot) :
  (i + length newOwners <= length calls)%nat ->
  fill_adds newOwners i calls
  = take i calls ++ map (fun o => Some (AddOwnerWithThreshold o 1)) newOwners
    ++ drop (i + length newOwners) calls.
Proof.
  revert i calls. induction newOwners as [| o rest IH]; intros i calls Hlen; cbn.
  - rewrite Nat.add_0_r, take_drop. reflexivity.
  - cbn in Hlen. rewrite IH by (rewrite length_insert; lia).
    rewrite (take_S_r _ i (Some (AddOwnerWithThreshold o 1)))
      by (apply list_lookup_insert_eq; lia).
    rewrite take_insert_ge by lia.
    rewrite drop_insert_lt by lia.
    rewrite <- app_assoc. cbn. repeat f_equal. lia.
Qed.

Lemma buildRecoveryCalls_spec (newOwners : list Z) (threshold : Z) :
  _buildRecoveryCalls newOwners threshold
  = map (fun o => Some (AddOwnerWithThreshold o 1)) newOwners
    ++ [Some (ChangeThreshold threshold)].
Proof.
  unfold _buildRecoveryCalls.
  rewrite fill_adds_spec by (rewrite length_replicate; lia).
  rewrite take_0, app_nil_l. cbn [Nat.add].
  rewrite drop_replicate.
  replace (length newOwners + 1 - length newOwners)%nat with 1%nat by lia.
  cbn [replicate].
  rewrite insert_app_r_alt by (rewrite length_map; lia).
  rewrite length_map, Nat.sub_diag. reflexivity.
Qed.

Section Contract.
Variable Account : Type.
Variable executeFromExecutor : Account -> Slot -> option Account.
Variable parseAndVerifyVM : list byte -> option (list byte * bool).
Variable abi_decode : list byte -> option RecoveryData.


Lemma executeRecovery_inv (env : Env) (safe_ : Z) (vaa : list byte)
  (st : State) (acc : Account) (st' : State) (acc' : Account) :
  executeRecovery Account executeFromExecutor parseAndVerifyVM abi_decode
    env safe_ vaa (st, acc) = Ok (st', acc') ->
  exists payload data,
    paused st = false /\
    mapping_get (authorizedAccounts st) safe_ = true /\
    parseAndVerifyVM vaa = Some (payload, true) /\
    abi_decode payload = Some data /\
    version data = 1 /\ chainId data = block_chainid env /\ safe data = safe_ /\
    block_timestamp env <= expiry data /\
    mapping_get (consumed st) (nonce data) = false /\
    st' = {| owner := owner st; paused := paused st;
             consumed := <[nonce data := true]> (consumed st);
             authorizedAccounts := authorizedAccounts st |} /\
    _execute Account executeFromExecutor
      (_buildRecoveryCalls (newOwners data) (threshold data)) acc = Ok acc'.
Proof.
  unfold AztecRecoveryModule.executeRecovery. intros Hrun.
  destruct (paused st) eqn:Hp; [discriminate | ].
  destruct (mapping_get (authorizedAccounts st) safe_) eqn:Hauth; [ | discriminate].
  cbn [negb] in Hrun.
  destruct (parseAndVerifyVM vaa) as [[payload valid] | ] eqn:Hpv; [ | discriminate].
  destruct valid; [ | discriminate]. cbn [negb] in Hrun.
  destruct (abi_decode payload) as [data | ] eqn:Hdec; [ | discriminate].
  destruct (Z.eqb_spec (version data) 1) as [Hv | ]; [ | discriminate].
  destruct (Z.eqb_spec (chainId data) (block_chainid env)) as [Hc | ]; [ | discriminate].
  destruct (Z.eqb_spec (safe data) safe_) as [Hs | ]; [ | discriminate].
  cbn [negb] in Hrun.
  destruct (Z.ltb_spec (expiry data) (block_timestamp env)) as [ | Hexp]; [discriminate | ].
  destruct (mapping_get (consumed st) (nonce data)) eqn:Hn; [discriminate | ].
  destruct (_execute Account executeFromExecutor _ acc) as [acc1 | e] eqn:Hex; [ | discriminate].
  cbn in Hrun. injection Hrun as <- <-.
  exists payload, data. repeat (split; [first [assumption | reflexivity] | ]).
  exact Hex.
Qed.

(** X23. What a successful [executeRecovery] has done: the module was not
    paused, the account had installed it, the VAA was valid and decoded to a
    version-1 instruction for this chain and this account, not expired, with
    a fresh nonce, which is now consumed; and the account has executed one
    [addOwnerWithThreshold(o, 1)] per new owner, in order, followed by
    [changeThreshold]. No call removes an owner: the owners the account had
    before are never asked to leave. *)
Theorem executeRecovery_effect (env : Env) (safe_ : Z) (vaa : list byte)
  (st : State) (acc : Account) (st' : State) (acc' : Account) :
  executeRecovery Account executeFromExecutor parseAndVerifyVM abi_decode
    env safe_ vaa (st, acc) = Ok (st', acc') ->
  exists payload data,
    paused st = false /\
    mapping_get (authorizedAccounts st) safe_ = true /\
    parseAndVerifyVM vaa = Some (payload, true) /\
    abi_decode payload = Some data /\
    version data = 1 /\ chainId data = block_chainid env /\ safe data = safe_ /\
    block_timestamp env <= expiry data /\
    mapping_get (consumed st) (nonce data) = false /\
    mapping_get (consumed st') (nonce data) = true /\
    _execute Account executeFromExecutor
             (map (fun o => Some (AddOwnerWithThreshold o 1)) (newOwners data)
              ++ [Some (ChangeThreshold (threshold data))]) acc = Ok acc'.
Proof.
  intros Hrun. apply executeRecovery_inv in Hrun
    as (payload & data & H1 & H2 & H3 & H4 & H5 & H6 & H7 & H8 & H9 & -> & Hex).
  exists payload, data. rewrite buildRecoveryCalls_spec in Hex.
  repeat (split; [assumption | ]). split; [ | exact Hex].
  cbn. unfold mapping_get. rewrite lookup_insert_eq. reflexivity.
Qed.

Lemma setPaused_consumed env v st st' :
  setPaused env v st = Ok st' -> consumed st' = consumed st.
Proof.
  unfold setPaused. destruct (negb _); [discriminate | ].
  intros [= <-]. reflexivity.
Qed.

Lemma executor_exec_keeps_consumed (w w' : State * Account) (c : Env * op) (n : Z) :
  mapping_get (consumed (fst w)) n = true ->
  exec Account executeFromExecutor parseAndVerifyVM abi_decode w c = Ok w' ->
  mapping_get (consumed (fst w')) n = true.
Proof.
  intros Hn Hrun. destruct c as [env o]. destruct w as [st acc].
  destruct o as [v | | | s vaa]; cbn in Hrun.
  - destruct (setPaused env v st) as [st1 | e] eqn:Hs; [ | discriminate].
    cbn in Hrun. injection Hrun as <-. cbn.
    rewrite (setPaused_consumed _ _ _ _ Hs). exact Hn.
  - injection Hrun as <-. exact Hn.
  - injection Hrun as <-. exact Hn.
  - destruct w' as [st' acc'].
    apply executeRecovery_inv in Hrun
      as (payload & data & _ & _ & _ & _ & _ & _ & _ & _ & _ & -> & _).
    cbn in *. unfold mapping_get in *.
    destruct (decide (n = nonce data)) as [-> | Hne].
    + rewrite lookup_insert_eq. reflexivity.
    + rewrite lookup_insert_ne by congruence. exact Hn.
Qed.

Lemma executor_run_keeps_consumed (calls : list (Env * op)) (w : State * Account) (n : Z) :
  mapping_get (consumed (fst w)) n = true ->
  mapping_get
    (consumed (fst (run Account executeFromExecutor parseAndVerifyVM abi_decode w calls))) n
  = true.
Proof.
  revert w. induction calls as [| c calls IH]; intros w Hn; cbn; [assumption | ].
  apply IH.
  destruct (exec Account executeFromExecutor parseAndVerifyVM abi_decode w c)
    as [w' | e] eqn:Hc; [ | assumption].
  eapply executor_exec_keeps_consumed; eassumption.
Qed.

(** X24. An instruction is executed at most once. After a successful
    [executeRecovery], through every later sequence of calls to the module
    (pausing, installing, uninstalling, other recoveries, reverted or not),
    every [executeRecovery] with a VAA whose payload decodes to the same nonce
    reverts --- for any caller, account, chain and time. *)
Theorem executor_nonce_is_final (env : Env) (safe_ : Z) (vaa : list byte)
  (w w1 : State * Account) (payload : list byte) (data : RecoveryData)
  (calls : list (Env * op))
  (env' : Env) (safe' : Z) (vaa' payload' : list byte) (valid' : bool)
  (data' : RecoveryData) :
  executeRecovery Account executeFromExecutor parseAndVerifyVM abi_decode
    env safe_ vaa w = Ok w1 ->
  parseAndVerifyVM vaa = Some (payload, true) ->
  abi_decode payload = Some data ->
  parseAndVerifyVM vaa' = Some (payload', valid') ->
  abi_decode payload' = Some data' ->
  nonce data' = nonce data ->
  exists e,
    executeRecovery Account executeFromExecutor parseAndVerifyVM abi_decode
      env' safe' vaa'
      (run Account executeFromExecutor parseAndVerifyVM abi_decode w1 calls)
    = Revert e.
Proof.
  intros Hrun Hvaa Hdec Hvaa' Hdec' Hnonce.
  destruct w as [st acc], w1 as [st1 acc1].
  apply executeRecovery_inv in Hrun
    as (p0 & d0 & _ & _ & Hp0 & Hd0 & _ & _ & _ & _ & _ & Hst & _).
  rewrite Hvaa in Hp0. injection Hp0 as <-.
  rewrite Hdec in Hd0. injection Hd0 as <-.
  assert (Hn : mapping_get
                 (consumed (fst (run Account executeFromExecutor parseAndVerifyVM abi_decode
                                   (st1, acc1) calls)))
                 (nonce data) = true).
  { apply executor_run_keeps_consumed. rewrite Hst. cbn. unfold mapping_get.
    rewrite lookup_insert_eq. reflexivity. }
  destruct (run Account executeFromExecutor parseAndVerifyVM abi_decode (st1, acc1) calls)
    as [st2 acc2]. cbn in Hn.
  unfold AztecRecoveryModule.executeRecovery.
  destruct (paused st2); [eauto | ].
  destruct (negb (mapping_get (authorizedAccounts st2) safe')); [eauto | ].
  rewrite Hvaa'. destruct (negb valid'); [eauto | ].
  rewrite Hdec'.
  destruct (negb (version data' =? 1)); [eauto | ].
  destruct (negb (chainId data' =? block_chainid env')); [eauto | ].
  destruct (negb (safe data' =? safe')); [eauto | ].
  destruct (expiry data' <? block_timestamp env'); [eauto | ].
  rewrite Hnonce, Hn. eauto.
Qed.

End Contract.

Lemma executeRecovery_effect_witness :
  exists st' acc',
    executeRecovery nat counting_account example_core example_decode
      example_env 77 [] (example_state, 0%nat) = Ok (st', acc') /\
    mapping_get (consumed st') 9 = true /\ acc' = 3%nat.
Proof.
  destruct (executeRecovery nat counting_account example_core example_decode
              example_env 77 [] (example_state, 0%nat)) as [[st' acc'] | e] eqn:Hrun;
    [ | vm_compute in Hrun; discriminate].
  exists st', acc'. split; [reflexivity | ].
  destruct (executeRecovery_effect _ _ _ _ _ _ _ _ _ _ _ Hrun)
    as (payload & data & _ & _ & _ & Hd & _ & _ & _ & _ & _ & Hc & Hex).
  injection Hd as <-. split; [exact Hc | ].
  vm_compute in Hex. injection Hex as <-. reflexivity.
Defined.

Lemma executor_nonce_is_final_witness :
  exists w1,
    executeRecovery nat counting_account example_core example_decode
      example_env 77 [] (example_state, 0%nat) = Ok w1 /\
    exists e,
      executeRecovery nat counting_account example_core example_decode
        example_env 77 []
        (run nat counting_account example_core example_decode w1
           [(example_env, OpOnInstall)]) = Revert e.
Proof.
  destruct (executeRecovery nat counting_account example_core example_decode
              example_env 77 [] (example_state, 0%nat)) as [w1 | e] eqn:Hrun;
    [ | vm_compute in Hrun; discriminate].
  exists w1. split; [reflexivity | ].
  exact (executor_nonce_is_final nat counting_account example_core example_decode
           example_env 77 [] (example_state, 0%nat) w1 [] example_data
           [(example_env, OpOnInstall)] example_env 77 [] [] true example_data
           Hrun eq_refl eq_refl eq_refl eq_refl eq_refl).
Defined.

End AztecRecoveryModuleFacts.

(** ** The emitter registry *)

Module EmittersFacts.
Import Emitters.
Local Open Scope Z_scope.

Lemma announced_cons (log : Log) (logs : list Log) (k : string) :
  announced (log :: logs) k
  = if (length (Topics log) <? 2)%nat || (length (Data log) <? 32)%nat
    then announced logs k
    else if String.eqb (EncodeToString (take 32 (Data log))) k
         then HexToAddress (default 0 (Topics log !! 1%nat)) :: announced logs k
         else announced logs k.
Proof.
  unfold announced. cbn [omap list_omap].
  destruct ((length (Topics log) <? 2)%nat || (length (Data log) <? 32)%nat);
    [reflexivity | ].
  destruct (String.eqb _ k); reflexivity.
Qed.

Lemma handle_all_lookup (logs : list Log) (reg : Registry) (k : string) :
  handle_all logs reg !! k
  = match reg !! k with
    | Some s => Some s
    | None => head (announced logs k)
    end.
Proof.
  unfold handle_all. revert reg.
  induction logs as [| log logs IH]; intros reg; cbn [fold_left].
  - destruct (reg !! k); reflexivity.
  - rewrite IH, announced_cons. unfold handleNewEmitterEvent. cbv zeta.
    destruct ((length (Topics log) <? 2)%nat || (length (Data log) <? 32)%nat);
      [reflexivity | ].
    destruct (String.eqb_spec (EncodeToString (take 32 (Data log))) k) as [-> | Hne].
    + destruct (reg !! k) as [s | ] eqn:Hk; [rewrite Hk; reflexivity | ].
      rewrite lookup_insert_eq. reflexivity.
    + destruct (reg !! EncodeToString (take 32 (Data log))); [reflexivity | ].
      rewrite lookup_insert_ne by assumption. reflexivity.
Qed.

Lemma load_loop_lookup (logs : list Log) (reg : Registry) (k : string) :
  load_loop logs reg !! k
  = match last (announced logs k) with
    | Some s => Some s
    | None => reg !! k
    end.
Proof.
  revert reg. induction logs as [| log logs IH]; intros reg; cbn [load_loop];
    [reflexivity | ].
  rewrite announced_cons.
  destruct ((length (Topics log) <? 2)%nat || (length (Data log) <? 32)%nat);
    [apply IH | ].
  cbv zeta. rewrite IH.
  destruct (String.eqb_spec (EncodeToString (take 32 (Data log))) k) as [-> | Hne].
  - rewrite last_cons.
    destruct (last (announced logs k)); [reflexivity | ].
    rewrite lookup_insert_eq. reflexivity.
  - rewrite lookup_insert_ne by assumption. reflexivity.
Qed.

(** X25. The two ways of filling the emitter registry disagree on repeated
    registrations. Events handled one by one (the subscription and the
    polling fallback) keep, for each Aztec contract, the Safe of the first
    well-formed event and ignore the later ones; the scan at start-up keeps
    the Safe of the last one. Malformed logs (fewer than two topics or fewer
    than 32 data bytes) are skipped by both. *)
Theorem registry_first_or_last (logs : list Log) (reg : Registry)
  (target : string) (aztecContract : string) :
  handle_all logs reg !! aztecContract
  = match reg !! aztecContract with
    | Some s => Some s
    | None => head (announced logs aztecContract)
    end /\
  (target <> EmptyString ->
   snd (loadRegisteredEmitters target (Some logs) reg) !! aztecContract
   = match last (announced logs aztecContract) with
     | Some s => Some s
     | None => reg !! aztecContract
     end).
Proof.
  split; [apply handle_all_lookup | ].
  intros Ht. unfold loadRegisteredEmitters.
  destruct (String.eqb_spec target EmptyString) as [ | _]; [contradiction | ].
  apply load_loop_lookup.
Qed.

End EmittersFacts.

(** ** From a delivery to the dedup record *)

Module ProcessorFacts.
Import Dedup DedupFacts Processor.
Local Open Scope Z_scope.

Lemma finish_success_recorded (now1 now2 : Z) (key : string) (r : Relayer) :
  now2 - now1 <= dedupeTTL r ->
  processedVAAs (finishProcessingVAA now1 now2 key true r) !! key = Some now1.
Proof.
  intros H. cbn. apply map_lookup_filter_Some. split.
  - apply lookup_insert_eq.
  - cbn. lia.
Qed.

Lemma begin_drops_recent (now ts : Z) (key : string) (r : Relayer) :
  processedVAAs r !! key = Some ts -> now - ts < dedupeTTL r ->
  fst (beginProcessingVAA now key r) = false.
Proof.
  intros Hts Hlt.
  destruct (fst (beginProcessingVAA now key r)) eqn:Hb; [ | reflexivity].
  apply begin_admits_iff in Hb as [_ Hno]. exfalso. apply Hno.
  exists ts. auto.
Qed.

Lemma finish_ttl (now1 now2 : Z) (key : string) (success : bool) (r : Relayer) :
  dedupeTTL (finishProcessingVAA now1 now2 key success r) = dedupeTTL r.
Proof. reflexivity. Qed.

Lemma begin_ttl (now : Z) (key : string) (r : Relayer) :
  dedupeTTL (snd (beginProcessingVAA now key r)) = dedupeTTL r.
Proof.
  unfold beginProcessingVAA.
  destruct (processedVAAs r !! key) as [ts | ].
  - destruct (_ <? _); [reflexivity | ]. destruct (bool_decide _); reflexivity.
  - destruct (bool_decide _); reflexivity.
Qed.

(** X26. A skipped VAA is recorded as a success. When an admitted delivery
    parses to a VAA of another chain, or of an emitter that is not registered
    (and not every emitter is accepted), the worker sends no transaction,
    [processVAA] returns [nil], and the key gets a success record: the same
    bytes delivered again within the TTL are dropped by the gate --- whatever
    the registry holds by then. *)
Theorem skipped_vaa_is_suppressed (config : Config)
  (isRegisteredEmitter : string -> bool) (vaaData : VAAData)
  (net : Submitter.Network) (timedOut : bool)
  (now now1 now2 now' : Z) (key : string) (r : Relayer) :
  fst (beginProcessingVAA now key r) = true ->
  (ChainID vaaData <> SourceChainID config \/
   (AcceptAnyEmitter config = false /\
    isRegisteredEmitter (EmitterHex vaaData) = false)) ->
  now2 - now1 <= dedupeTTL r ->
  now' - now1 < dedupeTTL r ->
  let r1 := snd (beginProcessingVAA now key r) in
  let done := worker config isRegisteredEmitter false (Some vaaData) net timedOut
                now1 now2 key r1 in
  processVAA config isRegisteredEmitter false (Some vaaData) net timedOut = ([], None) /\
  fst done = [] /\
  fst (beginProcessingVAA now' key (snd done)) = false.
Proof.
  intros Hadm Hskip H12 Hnow' r1 done.
  assert (Hp : processVAA config isRegisteredEmitter false (Some vaaData) net timedOut
               = ([], None)).
  { unfold processVAA, defaultVAAProcessor.
    destruct Hskip as [Hchain | [Hany Hreg]].
    - destruct (Z.eqb_spec (ChainID vaaData) (SourceChainID config)); [contradiction | ].
      reflexivity.
    - destruct (negb (ChainID vaaData =? SourceChainID config)); [reflexivity | ].
      rewrite Hany, Hreg. reflexivity. }
  split; [exact Hp | ].
  unfold done, worker. rewrite Hp. cbn [fst snd]. split; [reflexivity | ].
  apply (begin_drops_recent now' now1).
  - apply finish_success_recorded. unfold r1. rewrite begin_ttl. exact H12.
  - rewrite finish_ttl. unfold r1. rewrite begin_ttl. exact Hnow'.
Qed.

Lemma skipped_vaa_is_suppressed_witness :
  let config := {| SourceChainID := 56; AcceptAnyEmitter := false |} in
  let vaaData := {| ChainID := 56; EmitterHex := "ab" |} in
  let r1 := snd (beginProcessingVAA 100 "vaa" NewRelayer) in
  let done := worker config (fun _ => false) false (Some vaaData)
                (Submitter.contended (fun _ => 100)) false 150 151 "vaa" r1 in
  processVAA config (fun _ => false) false (Some vaaData)
    (Submitter.contended (fun _ => 100)) false = ([], None) /\
  fst done = [] /\
  fst (beginProcessingVAA 200 "vaa" (snd done)) = false.
Proof.
  apply (skipped_vaa_is_suppressed
           {| SourceChainID := 56; AcceptAnyEmitter := false |} (fun _ => false)
           {| ChainID := 56; EmitterHex := "ab" |}
           (Submitter.contended (fun _ => 100)) false 100 150 151 200 "vaa" NewRelayer).
  - vm_compute. reflexivity.
  - right. split; reflexivity.
  - vm_compute. discriminate.
  - vm_compute. reflexivity.
Defined.

(** X27. For a VAA the relayer does act on (right chain, emitter accepted,
    context alive), the dedup record follows the submitter: if
    [SendVerifyTransaction] returns a transaction the key is recorded and a
    redelivery within the TTL is dropped; if it returns an error no record is
    written and the key is admitted again, at any time. *)
Theorem relayed_vaa_recorded_iff_sent (config : Config)
  (isRegisteredEmitter : string -> bool) (vaaData : VAAData)
  (net : Submitter.Network) (timedOut : bool)
  (now now1 now2 now' : Z) (key : string) (r : Relayer) :
  fst (beginProcessingVAA now key r) = true ->
  ChainID vaaData = SourceChainID config ->
  (AcceptAnyEmitter config = true \/ isRegisteredEmitter (EmitterHex vaaData) = true) ->
  now2 - now1 <= dedupeTTL r ->
  let r1 := snd (beginProcessingVAA now key r) in
  let done := worker config isRegisteredEmitter false (Some vaaData) net timedOut
                now1 now2 key r1 in
  fst done = fst (Submitter.SendVerifyTransaction net) /\
  match snd (Submitter.SendVerifyTransaction net) with
  | Ok _ =>
      now' - now1 < dedupeTTL r ->
      fst (beginProcessingVAA now' key (snd done)) = false
  | Revert _ =>
      fst (beginProcessingVAA now' key (snd done)) = true
  end.
Proof.
  intros Hadm Hchain Hacc H12 r1 done.
  assert (Hp : processVAA config isRegisteredEmitter false (Some vaaData) net timedOut
               = (fst (Submitter.SendVerifyTransaction net),
                  match snd (Submitter.SendVerifyTransaction net) with
                  | Ok _ => None
                  | Revert e =>
                      Some (if timedOut then ErrInterrupted else ErrTransactionFailed e)
                  end)).
  { unfold processVAA, defaultVAAProcessor.
    rewrite Hchain, Z.eqb_refl. cbn [negb].
    assert (Hgo : (if AcceptAnyEmitter config then true
                   else isRegisteredEmitter (EmitterHex vaaData)) = true).
    { destruct Hacc as [-> | ->]; [reflexivity | ].
      destruct (AcceptAnyEmitter config); reflexivity. }
    rewrite Hgo. cbn [negb].
    destruct (Submitter.SendVerifyTransaction net) as [txs [tx | e]]; reflexivity. }
  unfold done, worker. rewrite Hp. cbn [fst snd].
  split; [reflexivity | ].
  pose proof (begin_marks_inflight now key r Hadm) as [_ Hnone].
  fold r1 in Hnone.
  destruct (snd (Submitter.SendVerifyTransaction net)) as [tx | e].
  - intros Hnow'. apply (begin_drops_recent now' now1).
    + apply finish_success_recorded. unfold r1. rewrite begin_ttl. exact H12.
    + rewrite finish_ttl. unfold r1. rewrite begin_ttl. exact Hnow'.
  - apply begin_admits_iff. split.
    + apply finish_releases.
    + intros (ts & Hts & _).
      rewrite (finish_failed_no_record now1 now2 key key r1 Hnone) in Hts.
      discriminate.
Qed.

Lemma relayed_vaa_recorded_iff_sent_witness :
  let config := {| SourceChainID := 56; AcceptAnyEmitter := true |} in
  let vaaData := {| ChainID := 56; EmitterHex := "ab" |} in
  let net := Submitter.contended (fun _ => 100) in
  let r1 := snd (beginProcessingVAA 100 "vaa" NewRelayer) in
  let done := worker config (fun _ => false) false (Some vaaData) net false
                150 151 "vaa" r1 in
  length (fst done) = 3%nat /\
  fst (beginProcessingVAA 152 "vaa" (snd done)) = true.
Proof.
  intros config vaaData net r1 done.
  pose proof (relayed_vaa_recorded_iff_sent config (fun _ => false) vaaData net false
                100 150 151 152 "vaa" NewRelayer) as H.
  destruct H as [Htx Hrec].
  - vm_compute. reflexivity.
  - reflexivity.
  - left. reflexivity.
  - vm_compute. discriminate.
  - split.
    + fold r1 in Htx. fold done in Htx. rewrite Htx. vm_compute. reflexivity.
    + exact Hrec.
Defined.

End ProcessorFacts.
